(** * WhatsAppFlow: persistence layer and generation client

    A shallow embedding of the parts of the bot that carry its correctness
    hazards: [FileUtils] (JSON documents on disk, written through a temporary
    sibling file), the per-key lock of [JsonDatabase] and [MemoryManager],
    the keyed read-modify-write operations of both repositories, the queries
    and stores built on them, the appending and deleting operations of
    [AIMemoryManager], and the key pool, the timers and the retry loop of
    [GeminiClient].

    Conventions.
    - An [async] function that runs without being interleaved with another
      one is a computation in the state-and-exception monad [Async]: it
      returns, throws, or never settles ([Hangs], the lock poll that nobody
      ends).
    - Interleavings are a step relation over task states ([Module Tasks]).
    - The clock is read once per synchronous stretch of code: [now] is the
      value of [Date.now()] in milliseconds.
    - Property names are own properties; names inherited from a prototype
      are outside the model.
    - A character of a [string] is one code unit below 256. *)

From stdpp Require Import base option list gmap strings pretty fin_maps sorting.
From Stdlib Require Import ZArith Lia Ascii.

Set Default Proof Using "Type".
Local Open Scope Z_scope.

(** ** JavaScript values that reach the JSON documents *)

#[warnings="-register-all"]
Inductive Json : Type :=
  | JNull
  | JBool (b : bool)
  | JNum (n : Z)
  | JStr (s : string)
  | JArr (items : list Json)
  | JObj (props : gmap string Json).

(** A property read yields [None] for [undefined]. *)
Definition truthy (v : option Json) : bool :=
  match v with
  | None | Some JNull => false
  | Some (JBool b) => b
  | Some (JNum n) => negb (n =? 0)
  | Some (JStr s) => negb (String.eqb s "")
  | Some (JArr _) | Some (JObj _) => true
  end.

(** [a === b].  Objects and arrays are compared by identity; a value parsed
    from a file is never identical to an argument of the call. *)
Definition strictEq (a b : option Json) : bool :=
  match a, b with
  | None, None => true
  | Some JNull, Some JNull => true
  | Some (JBool x), Some (JBool y) => Bool.eqb x y
  | Some (JNum x), Some (JNum y) => x =? y
  | Some (JStr x), Some (JStr y) => String.eqb x y
  | _, _ => false
  end.

(** ** Exceptions and the monad of uninterleaved async code *)

Inductive Errno := ENOENT | EISDIR | ENOTDIR | EEXIST | EACCES | EIO | EROFS | ENOSPC.

Inductive Exn :=
  | FsError (code : Errno)
  | SyntaxError
  | TypeError
  | Error (message : string).

Global Instance Errno_eq_dec : EqDecision Errno.
Proof. solve_decision. Defined.
Global Instance Exn_eq_dec : EqDecision Exn.
Proof. solve_decision. Defined.

(** [error.code === 'ENOENT'] *)
Definition isENOENT (e : Exn) : bool :=
  match e with FsError ENOENT => true | _ => false end.

Inductive Outcome (A : Type) :=
  | Returns (a : A)
  | Throws (e : Exn)
  | Hangs.
Arguments Returns {A} a.
Arguments Throws {A} e.
Arguments Hangs {A}.

Definition Async (S A : Type) : Type := S → Outcome A * S.

Definition ret {S A} (a : A) : Async S A := λ s, (Returns a, s).
Definition throw {S A} (e : Exn) : Async S A := λ s, (Throws e, s).
Definition bind {S A B} (m : Async S A) (k : A → Async S B) : Async S B :=
  λ s, match m s with
       | (Returns a, s') => k a s'
       | (Throws e, s') => (Throws e, s')
       | (Hangs, s') => (Hangs, s')
       end.
Definition gets {S A} (f : S → A) : Async S A := λ s, (Returns (f s), s).
Definition modify {S} (f : S → S) : Async S unit := λ s, (Returns tt, f s).

(** [try { body } catch (error) { handler }] *)
Definition tryCatch {S A} (body : Async S A) (handler : Exn → Async S A) : Async S A :=
  λ s, match body s with
       | (Throws e, s') => handler e s'
       | r => r
       end.

(** [try { body } finally { fin }]; [fin] runs on return and on throw, and an
    exception of [fin] replaces the outcome of [body]. *)
Definition tryFinally {S A} (body : Async S A) (fin : Async S unit) : Async S A :=
  λ s, match body s with
       | (Hangs, s') => (Hangs, s')
       | (r, s') =>
           match fin s' with
           | (Returns _, s'') => (r, s'')
           | (Throws e, s'') => (Throws e, s'')
           | (Hangs, s'') => (Hangs, s'')
           end
       end.

Global Instance Async_ret {S} : MRet (Async S) := λ A, ret.
Global Instance Async_bind {S} : MBind (Async S) := λ A B k m, bind m k.

(** ** The file system seen by [fs/promises] *)

Inductive Node :=
  | File (contents : string)
  | Directory
  | Inaccessible                   (* behind a directory that cannot be entered: EACCES *)
  | Damaged                        (* on a medium that fails: EIO *)
  | Unreadable (contents : string). (* a file without permissions, in a directory with them *)

Abbreviation FS := (gmap string Node).

(** ** The runtime and the configuration

    [JSON.stringify(data, null, 2)] and [JSON.parse] at a type of documents
    ([JSON_parse] yields [None] where [JSON.parse] throws); [path.dirname],
    [Date.parse], [Date.prototype.toISOString], [toLocaleString] for
    Asia/Colombo and [String.prototype.toLowerCase]; what the operating
    system answers when a directory is to be made at a path where nothing
    is ([mkdirRejects d p] is [None] when it makes the directory, else the
    code with which [fs.mkdir] rejects: EACCES in a directory that cannot be
    written, EROFS, ENOSPC, ENOTDIR below a file); the two settings of
    [config] that the repositories read. *)

Class JsonCodec (Doc : Type) := {
  JSON_stringify : Doc → string;
  JSON_parse : string → option Doc
}.

Class Runtime := {
  dirname : string → string;
  Date_parse : string → option Z;
  toISOString : Z → string;
  toLocaleString : Z → string;
  toLowerCase : string → string;
  mkdirRejects : FS → string → option Errno
}.

Class Config := {
  chatHistoryFile : string;
  maxChatHistory : Z
}.

(** ** The operations of [fs/promises] *)

Module fs.

Definition access (p : string) : Async FS unit := λ d,
  match d !! p with
  | None => (Throws (FsError ENOENT), d)
  | Some Inaccessible => (Throws (FsError EACCES), d)
  | Some Damaged => (Throws (FsError EIO), d)
  | Some (File _) | Some Directory | Some (Unreadable _) => (Returns tt, d)
  end.

(** [fs.mkdir(p, { recursive: true })]; where nothing is at the path, the
    operating system makes the directory or rejects. *)
Definition mkdir `{!Runtime} (p : string) : Async FS unit := λ d,
  match d !! p with
  | None =>
      match mkdirRejects d p with
      | None => (Returns tt, <[p := Directory]> d)
      | Some code => (Throws (FsError code), d)
      end
  | Some Directory => (Returns tt, d)
  | Some (File _) | Some (Unreadable _) => (Throws (FsError EEXIST), d)
  | Some Inaccessible => (Throws (FsError EACCES), d)
  | Some Damaged => (Throws (FsError EIO), d)
  end.

Definition readFile (p : string) : Async FS string := λ d,
  match d !! p with
  | None => (Throws (FsError ENOENT), d)
  | Some (File s) => (Returns s, d)
  | Some Directory => (Throws (FsError EISDIR), d)
  | Some Inaccessible | Some (Unreadable _) => (Throws (FsError EACCES), d)
  | Some Damaged => (Throws (FsError EIO), d)
  end.

Definition writeFile (p s : string) : Async FS unit := λ d,
  match d !! p with
  | None | Some (File _) => (Returns tt, <[p := File s]> d)
  | Some Directory => (Throws (FsError EISDIR), d)
  | Some Inaccessible | Some (Unreadable _) => (Throws (FsError EACCES), d)
  | Some Damaged => (Throws (FsError EIO), d)
  end.

(** [fs.rename] needs the permissions of the directories, not of the files:
    it moves a file without permissions and replaces one. *)
Definition rename (src dst : string) : Async FS unit := λ d,
  match d !! src with
  | None => (Throws (FsError ENOENT), d)
  | Some Inaccessible => (Throws (FsError EACCES), d)
  | Some Damaged => (Throws (FsError EIO), d)
  | Some Directory =>
      match d !! dst with
      | None | Some Directory => (Returns tt, <[dst := Directory]> (delete src d))
      | Some (File _) | Some (Unreadable _) => (Throws (FsError ENOTDIR), d)
      | Some Inaccessible => (Throws (FsError EACCES), d)
      | Some Damaged => (Throws (FsError EIO), d)
      end
  | Some (File s) =>
      match d !! dst with
      | None | Some (File _) | Some (Unreadable _) =>
          (Returns tt, <[dst := File s]> (delete src d))
      | Some Directory => (Throws (FsError EISDIR), d)
      | Some Inaccessible => (Throws (FsError EACCES), d)
      | Some Damaged => (Throws (FsError EIO), d)
      end
  | Some (Unreadable s) =>
      match d !! dst with
      | None | Some (File _) | Some (Unreadable _) =>
          (Returns tt, <[dst := Unreadable s]> (delete src d))
      | Some Directory => (Throws (FsError EISDIR), d)
      | Some Inaccessible => (Throws (FsError EACCES), d)
      | Some Damaged => (Throws (FsError EIO), d)
      end
  end.

End fs.

(** ** FileUtils *)

Module FileUtils.
Section FileUtils.

Context {Doc : Type} `{!JsonCodec Doc, !Runtime}.

Definition ensureDir (dirPath : string) : Async FS unit :=
  tryCatch (fs.access dirPath)
    (λ error,
       match error with
       | FsError ENOENT => fs.mkdir dirPath
       | _ => throw error
       end).

Definition parseJson (data : string) : Async FS Doc :=
  match JSON_parse data with
  | Some d => ret d
  | None => throw SyntaxError
  end.

Definition readJsonFile (filePath : string) (defaultValue : Doc) : Async FS Doc :=
  tryCatch
    (data ← fs.readFile filePath;
     parseJson data)
    (λ error,
       if isENOENT error then ret defaultValue else throw error).

Definition writeJsonFile (filePath : string) (data : Doc) : Async FS unit :=
  tryCatch
    (ensureDir (dirname filePath);;
     let tempFile := String.append filePath ".tmp" in
     fs.writeFile tempFile (JSON_stringify data);;
     fs.rename tempFile filePath)
    (λ error, throw error).

End FileUtils.
End FileUtils.

(** ** Arrays, strings and time *)

(** Relative index of [Array.prototype.slice]: a negative index counts from
    the end, and both are clamped to the array. *)
Definition relIndex (i len : Z) : Z :=
  if i <? 0 then Z.max (len + i) 0 else Z.min i len.

(** [l.slice(start, end)]; [None] for an omitted [end]. *)
Definition slice {A} (start : Z) (end_ : option Z) (l : list A) : list A :=
  let len := Z.of_nat (length l) in
  let k := relIndex start len in
  let final := match end_ with None => len | Some e => relIndex e len end in
  take (Z.to_nat (final - k)) (drop (Z.to_nat k) l).

(** [l.findIndex(p)], [None] for [-1]. *)
Fixpoint findIndex {A} (p : A → bool) (l : list A) : option nat :=
  match l with
  | [] => None
  | x :: l' => if p x then Some 0%nat else S <$> findIndex p l'
  end.

(** [l.findIndex(p)] for a callback that may throw. *)
Fixpoint findIndexE {A} (p : A → Exn + bool) (l : list A) : Exn + option nat :=
  match l with
  | [] => inr None
  | x :: l' =>
      match p x with
      | inl e => inl e
      | inr true => inr (Some 0%nat)
      | inr false =>
          match findIndexE p l' with
          | inl e => inl e
          | inr i => inr (S <$> i)
          end
      end
  end.

(** [l.find(p)] for a callback that may throw; [None] for [undefined]. *)
Fixpoint findE {A} (p : A → Exn + bool) (l : list A) : Exn + option A :=
  match l with
  | [] => inr None
  | x :: l' =>
      match p x with
      | inl e => inl e
      | inr true => inr (Some x)
      | inr false => findE p l'
      end
  end.

(** [hay.includes(needle)] *)
Fixpoint includes (hay needle : string) : bool :=
  String.prefix needle hay ||
  match hay with
  | EmptyString => false
  | String _ hay' => includes hay' needle
  end.

(** White space and line terminators of ECMAScript among the code units
    below 256. *)
Definition isWhiteSpace (c : ascii) : bool :=
  let n := nat_of_ascii c in
  ((9 <=? n) && (n <=? 13) || (n =? 32) || (n =? 160))%nat.

Fixpoint trimStart (s : string) : string :=
  match s with
  | String c s' => if isWhiteSpace c then trimStart s' else s
  | EmptyString => EmptyString
  end.

Fixpoint trimEnd (s : string) : string :=
  match s with
  | EmptyString => EmptyString
  | String c s' =>
      match trimEnd s' with
      | EmptyString => if isWhiteSpace c then EmptyString else String c EmptyString
      | t => String c t
      end
  end.

(** [s.trim()] *)
Definition trim (s : string) : string := trimEnd (trimStart s).

(** Hour of the day in Asia/Colombo (UTC+05:30), which is what [getHours]
    yields on the date rebuilt from the Colombo locale string. *)
Definition colomboHour (now : Z) : Z := ((now + 19800000) / 3600000) mod 24.

(** ** State of a repository object: the disk and its [lockMap] *)

Record Repo := { disk : FS; lockMap : gmap string bool }.

Definition onDisk {A} (m : Async FS A) : Async Repo A := λ r,
  let '(o, d) := m (disk r) in (o, {| disk := d; lockMap := lockMap r |}).

(** [lockMap.has(k)] *)
Definition has (k : string) (m : gmap string bool) : bool :=
  bool_decide (is_Some (m !! k)).

(** [acquireLock]: while another caller holds the key the poll repeats; run
    without interleaving nobody ends it, so the call never settles. *)
Definition acquireLock (senderId : string) : Async Repo unit := λ r,
  if has senderId (lockMap r) then (Hangs, r)
  else (Returns tt, {| disk := disk r; lockMap := <[senderId := true]> (lockMap r) |}).

Definition releaseLock (senderId : string) : Async Repo unit :=
  modify (λ r, {| disk := disk r; lockMap := delete senderId (lockMap r) |}).

(** ** JsonDatabase *)

Abbreviation Entry := (gmap string Json).
Abbreviation History := (gmap string (list Entry)).

Module JsonDatabase.
Section JsonDatabase.

Context `{!JsonCodec History, !Runtime, !Config}.

(** [new Date(v).getTime()], [None] for [NaN]; arrays and objects, which
    would first be turned into strings, are taken as invalid dates. *)
Definition getTime (v : option Json) : option Z :=
  match v with
  | Some (JStr s) => Date_parse s
  | Some (JNum n) => Some n
  | Some JNull => Some 0
  | Some (JBool b) => Some (if b then 1 else 0)
  | _ => None
  end.

Definition readChatHistory : Async FS History :=
  tryCatch
    (data ← FileUtils.readJsonFile chatHistoryFile ∅;
     mret data)
    (λ error, mret ∅).

Definition writeChatHistory (data : History) : Async FS unit :=
  tryCatch
    (FileUtils.writeJsonFile chatHistoryFile data)
    (λ error, throw error).

Definition getMessagesForSender (senderId : string) : Async FS (list Entry) :=
  tryCatch
    (chatHistory ← readChatHistory;
     mret (default [] (chatHistory !! senderId)))
    (λ error, mret []).

Definition getTimeOfDay (now : Z) : string :=
  let hour := colomboHour now in
  if (5 <=? hour) && (hour <? 12) then "morning"
  else if (12 <=? hour) && (hour <? 17) then "afternoon"
  else if (17 <=? hour) && (hour <? 21) then "evening"
  else "night".

(** [(Date.now() - new Date(msg.timestamp).getTime()) < 5000]; a
    comparison with [NaN] is false. *)
Definition stampedWithin5s (now : Z) (msg : Entry) : bool :=
  match getTime (msg !! "timestamp") with
  | Some t => now - t <? 5000
  | None => false
  end.

Definition sameMessage (now : Z) (role content : Json) (msg : Entry) : bool :=
  strictEq (msg !! "content") (Some content)
  && strictEq (msg !! "role") (Some role)
  && stampedWithin5s now msg.

(** [if (!chatHistory[senderId]) chatHistory[senderId] = []] *)
Definition ensureSender (senderId : string) (chatHistory : History) : History :=
  match chatHistory !! senderId with
  | None => <[senderId := []]> chatHistory
  | Some _ => chatHistory
  end.

Definition newMessage (now : Z) (role content : Json) (metadata : Entry) : Entry :=
  metadata ∪
  <["id" := JStr (pretty now)]>
  (<["role" := role]>
  (<["content" := content]>
  (<["timestamp" := JStr (toISOString now)]>
  (<["localTime" := JStr (toLocaleString now)]>
  (<["timeOfDay" := JStr (getTimeOfDay now)]> ∅))))).

(** The synchronous stretch of [addMessage] between the read and the
    write: [None] when the call is dropped as a duplicate, else the
    document to write and the message to return. *)
Definition addMessage_body (now : Z) (senderId : string) (role content : Json)
    (metadata : Entry) (chatHistory : History) : option (History * Entry) :=
  let chatHistory := ensureSender senderId chatHistory in
  let messages := default [] (chatHistory !! senderId) in
  let recentMessages := slice (-5) None messages in
  let isDuplicate := existsb (sameMessage now role content) recentMessages in
  if isDuplicate && negb (truthy (metadata !! "forceDuplicate")) then None
  else
    let message := newMessage now role content metadata in
    let pushed := messages ++ [message] in
    let maxHistory := maxChatHistory in
    let kept :=
      if Z.of_nat (length pushed) >? maxHistory
      then slice (- maxHistory) None pushed
      else pushed in
    Some (<[senderId := kept]> chatHistory, message).

Definition addMessage (now : Z) (senderId : string) (role content : Json)
    (metadata : Entry) : Async Repo (option Entry) :=
  acquireLock senderId;;
  tryFinally
    (tryCatch
       (chatHistory ← onDisk readChatHistory;
        match addMessage_body now senderId role content metadata chatHistory with
        | None => mret None
        | Some (chatHistory', message) =>
            onDisk (writeChatHistory chatHistory');;
            mret (Some message)
        end)
       (λ error, throw error))
    (releaseLock senderId).

Definition clearMessagesForSender (senderId : string) : Async Repo unit :=
  acquireLock senderId;;
  tryFinally
    (tryCatch
       (chatHistory ← onDisk readChatHistory;
        onDisk (writeChatHistory (delete senderId chatHistory)))
       (λ error, throw error))
    (releaseLock senderId).

(** The callback of [findIndex] in [storeContact]:
    [msg.type === 'contact' &&
     msg.contactName?.toLowerCase() === contactName.toLowerCase()].
    A [contactName] that is neither nullish nor a string has no
    [toLowerCase], and calling it throws. *)
Definition isContactNamed (contactName : string) (msg : Entry) : Exn + bool :=
  if strictEq (msg !! "type") (Some (JStr "contact")) then
    match msg !! "contactName" with
    | None | Some JNull => inr false
    | Some (JStr s) => inr (String.eqb (toLowerCase s) (toLowerCase contactName))
    | Some _ => inl TypeError
    end
  else inr false.

Definition newContact (now : Z) (contactName : string)
    (contactNumber relationship : Json) : Entry :=
  <["id" := JStr (pretty now)]>
  (<["type" := JStr "contact"]>
  (<["contactName" := JStr contactName]>
  (<["contactNumber" := contactNumber]>
  (<["relationship" := relationship]>
  (<["timestamp" := JStr (toISOString now)]>
  (<["addedBy" := JStr "user"]> ∅)))))).

Definition storeContact_body (now : Z) (userId contactName : string)
    (contactNumber relationship : Json) (chatHistory : History)
    : Exn + (History * Entry) :=
  let chatHistory := ensureSender userId chatHistory in
  let messages := default [] (chatHistory !! userId) in
  match findIndexE (isContactNamed contactName) messages with
  | inl e => inl e
  | inr existingContactIndex =>
      let contactInfo := newContact now contactName contactNumber relationship in
      let messages' :=
        match existingContactIndex with
        | Some i => <[i := contactInfo]> messages
        | None => messages ++ [contactInfo]
        end in
      inr (<[userId := messages']> chatHistory, contactInfo)
  end.

Definition storeContact (now : Z) (userId contactName : string)
    (contactNumber relationship : Json) : Async Repo Entry :=
  acquireLock userId;;
  tryFinally
    (tryCatch
       (chatHistory ← onDisk readChatHistory;
        match storeContact_body now userId contactName contactNumber
                relationship chatHistory with
        | inl e => throw e
        | inr (chatHistory', contactInfo) =>
            onDisk (writeChatHistory chatHistory');;
            mret contactInfo
        end)
       (λ error, throw error))
    (releaseLock userId).

Definition isEmotional (msg : Entry) : bool :=
  strictEq (msg !! "type") (Some (JStr "emotional_context")).

Definition newEmotionalEntry (now : Z) (context : Json) : Entry :=
  <["id" := JStr (pretty now)]>
  (<["type" := JStr "emotional_context"]>
  (<["context" := context]>
  (<["timestamp" := JStr (toISOString now)]> ∅))).

Definition storeEmotionalContext_body (now : Z) (userId : string)
    (context : Json) (chatHistory : History) : History :=
  let chatHistory := ensureSender userId chatHistory in
  let messages := default [] (chatHistory !! userId) ++ [newEmotionalEntry now context] in
  let emotionalEntries := List.filter isEmotional messages in
  let messages' :=
    if (10 <? length emotionalEntries)%nat then
      let toRemove :=
        slice 0 (Some (Z.of_nat (length emotionalEntries) - 10)) emotionalEntries in
      List.filter
        (λ msg, negb (existsb (λ remove, strictEq (remove !! "id") (msg !! "id")) toRemove))
        messages
    else messages in
  <[userId := messages']> chatHistory.

(** The [catch] of [storeEmotionalContext] logs the error and does not
    throw it again. *)
Definition storeEmotionalContext (now : Z) (userId : string) (context : Json)
    : Async Repo unit :=
  acquireLock userId;;
  tryFinally
    (tryCatch
       (chatHistory ← onDisk readChatHistory;
        onDisk (writeChatHistory
                  (storeEmotionalContext_body now userId context chatHistory)))
       (λ error, mret tt))
    (releaseLock userId).

End JsonDatabase.

(** *** Contacts and the conversation context *)

Section Queries.

Context `{!JsonCodec History, !Runtime, !Config}.

Definition isContact (msg : Entry) : bool :=
  strictEq (msg !! "type") (Some (JStr "contact")).

Definition getContacts (userId : string) : Async FS (list Entry) :=
  tryCatch
    (messages ← getMessagesForSender userId;
     mret (List.filter isContact messages))
    (λ error, mret []).

(** What [findContact] returns: a contact, [undefined] when no contact
    matches, [null] from its [catch]. *)
Inductive Found :=
  | Contact (contact : Entry)
  | Undefined
  | Null.

(** [c.contactName?.toLowerCase() === lowerName] *)
Definition hasName (lowerName : string) (c : Entry) : Exn + bool :=
  match c !! "contactName" with
  | None | Some JNull => inr false
  | Some (JStr s) => inr (String.eqb (toLowerCase s) lowerName)
  | Some _ => inl TypeError
  end.

(** [c.contactName?.toLowerCase().includes(lowerName) ||
     lowerName.includes(c.contactName?.toLowerCase())]; without a name the
    first test is skipped and the second looks for the text [undefined]. *)
Definition nameOverlaps (lowerName : string) (c : Entry) : Exn + bool :=
  match c !! "contactName" with
  | None | Some JNull => inr (includes lowerName "undefined")
  | Some (JStr s) =>
      inr (includes (toLowerCase s) lowerName || includes lowerName (toLowerCase s))
  | Some _ => inl TypeError
  end.

Definition findContact (userId contactName : string) : Async FS Found :=
  tryCatch
    (contacts ← getContacts userId;
     let lowerName := toLowerCase contactName in
     match findE (hasName lowerName) contacts with
     | inl e => throw e
     | inr (Some contact) => mret (Contact contact)
     | inr None =>
         match findE (nameOverlaps lowerName) contacts with
         | inl e => throw e
         | inr (Some contact) => mret (Contact contact)
         | inr None => mret Undefined
         end
     end)
    (λ error, mret Null).

(** A turn for the generation API, [{ role, parts: [{ text }] }]; the text
    is whatever the entry holds as its content. *)
Record Part := { text : option Json }.
Record ContextTurn := { role : string; parts : list Part }.

Definition systemTurns (systemPrompt : Json) : list ContextTurn :=
  [ {| role := "user"; parts := [ {| text := Some systemPrompt |} ] |};
    {| role := "model";
       parts := [ {| text := Some (JStr "I understand. I'm ready to help you as your WhatsApp AI assistant!") |} ] |} ].

Definition turnOf (msg : Entry) : ContextTurn :=
  {| role := if strictEq (msg !! "role") (Some (JStr "user")) then "user" else "model";
     parts := [ {| text := msg !! "content" |} ] |}.

(** [systemPrompt] is [config.systemPrompt]. *)
Definition getConversationContext (systemPrompt : Json) (senderId : string)
    (includeSystemPrompt : bool) : Async FS (list ContextTurn) :=
  tryCatch
    (messages ← getMessagesForSender senderId;
     let context := if includeSystemPrompt then systemTurns systemPrompt else [] in
     mret (context ++ (turnOf <$> messages)))
    (λ error, mret (if includeSystemPrompt then systemTurns systemPrompt else [])).

End Queries.

End JsonDatabase.

(** ** MemoryManager *)

Abbreviation Profile := (gmap string Json).
Abbreviation Memories := (gmap string Profile).

(** Own enumerable properties copied by [{ ...v }]: the properties of an
    object, the elements of an array and the characters of a string under
    their indices, nothing for the other values. *)
Definition indexed (l : list Json) : gmap string Json :=
  list_to_map (imap (λ i v, (pretty i, v)) l).

Definition chars (s : string) : list Json :=
  (λ c, JStr (String c EmptyString)) <$> String.list_ascii_of_string s.

Definition spread (v : option Json) : gmap string Json :=
  match v with
  | Some (JObj m) => m
  | Some (JArr l) => indexed l
  | Some (JStr s) => indexed (chars s)
  | _ => ∅
  end.

(** [typeof v === 'object'] *)
Definition typeofObject (v : option Json) : bool :=
  match v with
  | Some JNull | Some (JArr _) | Some (JObj _) => true
  | _ => false
  end.

Definition isArray (v : option Json) : bool :=
  match v with Some (JArr _) => true | _ => false end.

Fixpoint digitsValue (s : string) (acc : N) : option N :=
  match s with
  | EmptyString => Some acc
  | String c s' =>
      let n := N_of_ascii c in
      if ((48 <=? n) && (n <=? 57))%N
      then digitsValue s' (acc * 10 + (n - 48))%N
      else None
  end.

(** A property name that is an array index: the canonical decimal form of
    an integer below 2^32 - 1. *)
Definition arrayIndex (s : string) : option nat :=
  match s with
  | EmptyString => None
  | _ =>
      match digitsValue s 0 with
      | Some n =>
          if String.eqb (pretty n) s && (n <? 4294967295)%N
          then Some (N.to_nat n) else None
      | None => None
      end
  end.

(** [l[i] = v] on an array: an index past the end grows the array, and the
    holes left behind are written as [null] by [JSON.stringify]. *)
Definition setIndex (i : nat) (v : Json) (l : list Json) : list Json :=
  if (i <? length l)%nat then <[i := v]> l
  else l ++ replicate (i - length l) JNull ++ [v].

Definition obj (l : list (string * Json)) : Json := JObj (list_to_map l).

(** ** Property access on values read from JSON *)

(** [v[name]] on a value that is neither [null] nor [undefined]: an own
    property of an object, an element or the length of an array or of a
    string, nothing on a number or a boolean. *)
Definition getProp (v : Json) (name : string) : option Json :=
  match v with
  | JObj m => m !! name
  | JArr l =>
      if String.eqb name "length" then Some (JNum (Z.of_nat (length l)))
      else arrayIndex name ≫= λ i, l !! i
  | JStr s =>
      if String.eqb name "length" then Some (JNum (Z.of_nat (String.length s)))
      else arrayIndex name ≫= λ i, chars s !! i
  | _ => None
  end.


(** [a || b] *)
Definition orElse (a : option Json) (b : Json) : Json :=
  match a with
  | Some v => if truthy a then v else b
  | None => b
  end.




Module MemoryManager.
Section MemoryManager.

Context `{!JsonCodec Memories, !Runtime}.

Definition memoryFile : string := "data/user_memories.json".

Definition readMemories : Async FS Memories :=
  tryCatch
    (data ← FileUtils.readJsonFile memoryFile ∅;
     mret data)
    (λ error, mret ∅).

Definition writeMemories (data : Memories) : Async FS unit :=
  tryCatch
    (FileUtils.writeJsonFile memoryFile data)
    (λ error, throw error).

Definition createEmptyMemoryProfile (now : Z) : Profile :=
  list_to_map
    [ ("personalInfo",
        obj [ ("name", JNull); ("age", JNull); ("school", JNull); ("grade", JNull);
              ("subjects", JArr []); ("hobbies", JArr []); ("family", obj []);
              ("location", JNull) ]);
      ("relationships",
        obj [ ("friends", obj []); ("crushes", obj []); ("family", obj []);
              ("teachers", obj []) ]);
      ("preferences",
        obj [ ("favoriteSubjects", JArr []); ("dislikedSubjects", JArr []);
              ("favoriteFood", JArr []); ("favoriteMovies", JArr []);
              ("favoriteMusic", JArr []); ("favoriteColors", JArr []) ]);
      ("emotionalProfile",
        obj [ ("currentMood", JNull); ("stressLevel", JStr "normal");
              ("personalityTraits", JArr []); ("emotionalPatterns", JArr []);
              ("supportNeeds", JArr []) ]);
      ("academicInfo",
        obj [ ("stream", JNull); ("currentGrade", JNull); ("strongSubjects", JArr []);
              ("weakSubjects", JArr []); ("examSchedule", obj []);
              ("studyHabits", JArr []); ("academicGoals", JArr []) ]);
      ("lifeEvents",
        obj [ ("importantDates", obj []); ("achievements", JArr []);
              ("challenges", JArr []); ("goals", JArr []); ("recentEvents", JArr []) ]);
      ("conversationContext",
        obj [ ("lastTopics", JArr []); ("ongoingIssues", JArr []);
              ("promisesToKeep", JArr []); ("thingsToRemember", JArr []);
              ("lastInteraction", JNull) ]);
      ("contacts", obj []);
      ("createdAt", JStr (toISOString now));
      ("lastUpdated", JStr (toISOString now)) ].

Definition getUserMemory (now : Z) (userId : string) : Async FS Profile :=
  tryCatch
    (memories ← readMemories;
     mret (default (createEmptyMemoryProfile now) (memories !! userId)))
    (λ error, mret (createEmptyMemoryProfile now)).

(** [if (!memories[userId]) memories[userId] = this.createEmptyMemoryProfile()] *)
Definition profileOf (now : Z) (userId : string) (memories : Memories) : Profile :=
  default (createEmptyMemoryProfile now) (memories !! userId).

Definition touch (now : Z) (profile : Profile) : Profile :=
  <["lastUpdated" := JStr (toISOString now)]> profile.

Definition updateMemory_body (now : Z) (userId category : string) (data : Json)
    (merge : bool) (memories : Memories) : Memories * Profile :=
  let profile := profileOf now userId memories in
  let current := profile !! category in
  let value :=
    if merge && typeofObject current && negb (isArray current)
    then JObj (spread (Some data) ∪ spread current)
    else data in
  let profile := touch now (<[category := value]> profile) in
  (<[userId := profile]> memories, profile).

Definition updateMemory (now : Z) (userId category : string) (data : Json)
    (merge : bool) : Async Repo Profile :=
  acquireLock userId;;
  tryFinally
    (tryCatch
       (memories ← onDisk readMemories;
        let '(memories', profile) :=
          updateMemory_body now userId category data merge memories in
        onDisk (writeMemories memories');;
        mret profile)
       (λ error, throw error))
    (releaseLock userId).

Definition itemWithTimestamp (now : Z) (item : Json) : Json :=
  if typeofObject (Some item)
  then JObj (<["timestamp" := JStr (toISOString now)]> (spread (Some item)))
  else JObj (<["content" := item]> (<["timestamp" := JStr (toISOString now)]> ∅)).

(** [arr.unshift(item)] followed by the cut to [maxItems]. *)
Definition unshiftCapped (item : Json) (maxItems : Z) (arr : list Json) : list Json :=
  let arr := item :: arr in
  if Z.of_nat (length arr) >? maxItems then slice 0 (Some maxItems) arr else arr.

Definition arrayOr (v : option Json) : list Json :=
  match v with Some (JArr l) => l | _ => [] end.

(** The category after [category[subcategory]] has been made an array and
    the item put in front.  On an object the subcategory is a property.
    On an array it is an element when the name is an index; under any
    other name it is a property that [JSON.stringify] leaves out, and the
    stored array is as before (the name [length] first empties the array
    and then fails on [unshift]).  Any other truthy value is a primitive,
    on which the assignment throws in module code. *)
Definition addToCategory (now : Z) (subcategory : string) (item : Json)
    (maxItems : Z) (category : Json) : Exn + Json :=
  let item := itemWithTimestamp now item in
  match category with
  | JObj m =>
      inr (JObj (<[subcategory := JArr (unshiftCapped item maxItems (arrayOr (m !! subcategory)))]> m))
  | JArr l =>
      if String.eqb subcategory "length" then inl TypeError
      else
        match arrayIndex subcategory with
        | Some i => inr (JArr (setIndex i (JArr (unshiftCapped item maxItems (arrayOr (l !! i)))) l))
        | None => inr (JArr l)
        end
  | _ => inl TypeError
  end.

Definition addToMemoryArray_body (now : Z) (userId category subcategory : string)
    (item : Json) (maxItems : Z) (memories : Memories) : Exn + (Memories * Profile) :=
  let profile := profileOf now userId memories in
  let current :=
    if truthy (profile !! category) then default (JObj ∅) (profile !! category)
    else JObj ∅ in
  match addToCategory now subcategory item maxItems current with
  | inl e => inl e
  | inr value =>
      let profile := touch now (<[category := value]> profile) in
      inr (<[userId := profile]> memories, profile)
  end.

Definition addToMemoryArray (now : Z) (userId category subcategory : string)
    (item : Json) (maxItems : Z) : Async Repo Profile :=
  acquireLock userId;;
  tryFinally
    (tryCatch
       (memories ← onDisk readMemories;
        match addToMemoryArray_body now userId category subcategory item
                maxItems memories with
        | inl e => throw e
        | inr (memories', profile) =>
            onDisk (writeMemories memories');;
            mret profile
        end)
       (λ error, throw error))
    (releaseLock userId).

Definition clearUserMemory (userId : string) : Async Repo unit :=
  acquireLock userId;;
  tryFinally
    (tryCatch
       (memories ← onDisk readMemories;
        onDisk (writeMemories (delete userId memories)))
       (λ error, throw error))
    (releaseLock userId).

End MemoryManager.

(** *** The stores built on [updateMemory] *)

Section Stores.

Context `{!JsonCodec Memories, !Runtime}.






(** [storeEmotionalContext] of the memory manager: what it hands to
    [updateMemory]. *)
Definition emotionalData (now : Z) (context : Json) : Exn + Json :=
  match context with
  | JNull => inl TypeError
  | _ =>
      let data :=
        <["currentMood" := orElse (getProp context "mood") JNull]>
        (<["stressLevel" := orElse (getProp context "stressLevel") (JStr "normal")]>
        (<["lastEmotionalUpdate" := JStr (toISOString now)]> ∅)) in
      inr (JObj (match getProp context "traits" with
                 | Some traits =>
                     if truthy (Some traits) then <["personalityTraits" := traits]> data
                     else data
                 | None => data
                 end))
  end.

Definition storeEmotionalContext (now written : Z) (userId : string) (context : Json)
    : Async Repo Profile :=
  match emotionalData now context with
  | inl e => throw e
  | inr data => updateMemory written userId "emotionalProfile" data true
  end.








End Stores.

End MemoryManager.

(** ** AIMemoryManager: the operations the model asks for *)

Module AIMemoryManager.
Section AIMemoryManager.

Context `{!JsonCodec Memories, !Runtime}.









End AIMemoryManager.
End AIMemoryManager.

(** ** GeminiClient: the key pool *)

(** [clients], [keyUsageCount] and [keyLastUsed] are Maps keyed by the index
    of the API key; of [clients] only the keys matter, in insertion order.
    [cooldowns] holds the pending [setTimeout] restorations of
    [markKeyAsFailed] as (due time, key index). *)
Record Client := {
  clients : list nat;
  failedKeys : gset nat;
  keyUsageCount : gmap nat Z;
  keyLastUsed : gmap nat Z;
  cooldowns : list (Z * nat)
}.

Module GeminiClient.

Definition emptyClient : Client :=
  {| clients := []; failedKeys := ∅; keyUsageCount := ∅; keyLastUsed := ∅;
     cooldowns := [] |}.

(** One round of the [forEach] of [initializeClients]; [ok] tells whether
    [new GoogleGenerativeAI(apiKey)] returned. *)
Definition initializeKey (c : Client) (index : nat) (ok : bool) : Client :=
  if ok then
    {| clients := clients c ++ [index];
       failedKeys := failedKeys c;
       keyUsageCount := <[index := 0]> (keyUsageCount c);
       keyLastUsed := <[index := 0]> (keyLastUsed c);
       cooldowns := cooldowns c |}
  else
    {| clients := clients c;
       failedKeys := {[index]} ∪ failedKeys c;
       keyUsageCount := keyUsageCount c;
       keyLastUsed := keyLastUsed c;
       cooldowns := cooldowns c |}.

Fixpoint initializeFrom (index : nat) (oks : list bool) (c : Client) : Client :=
  match oks with
  | [] => c
  | ok :: oks' => initializeFrom (S index) oks' (initializeKey c index ok)
  end.

Definition initializeClients (oks : list bool) : Exn + Client :=
  let c := initializeFrom 0 oks emptyClient in
  if (length (clients c) =? 0)%nat
  then inl (Error "No valid Gemini API keys found")
  else inr c.

(** [this.keyUsageCount.get(keyIndex) || 0]; the lookup under [undefined]
    finds nothing. *)
Definition usage (c : Client) (keyIndex : option nat) : Z :=
  match keyIndex with
  | Some k => default 0 (keyUsageCount c !! k)
  | None => 0
  end.

(** The loop of [getLeastUsedKey] over the pair [(leastUsedKey, minUsage)]. *)
Definition leastUsedStep (c : Client) (acc : option nat * Z) (keyIndex : nat)
    : option nat * Z :=
  if usage c (Some keyIndex) <? acc.2 then (Some keyIndex, usage c (Some keyIndex))
  else acc.

(** [None] is [undefined], the first element of an empty array. *)
Definition getLeastUsedKey (availableKeys : option (list nat)) (c : Client)
    : option nat :=
  let keysToCheck := default (clients c) availableKeys in
  let leastUsedKey := head keysToCheck in
  (foldl (leastUsedStep c) (leastUsedKey, usage c leastUsedKey) keysToCheck).1.

Definition clearFailed (c : Client) : Client :=
  {| clients := clients c; failedKeys := ∅; keyUsageCount := keyUsageCount c;
     keyLastUsed := keyLastUsed c; cooldowns := cooldowns c |}.

Definition availableKeys (c : Client) : list nat :=
  List.filter (λ index, bool_decide (index ∉ failedKeys c)) (clients c).

Definition getNextKeyIndex (c : Client) : option nat * Client :=
  let availableKeys := availableKeys c in
  if (length availableKeys =? 0)%nat
  then (getLeastUsedKey None (clearFailed c), clearFailed c)
  else (getLeastUsedKey (Some availableKeys) c, c).

Definition isQuotaMessage (message : string) : bool :=
  includes message "quota" || includes message "rate limit".

Definition markKeyAsFailed (keyIndex : nat) (message : string) (now : Z)
    (c : Client) : Client :=
  {| clients := clients c;
     failedKeys := {[keyIndex]} ∪ failedKeys c;
     keyUsageCount := keyUsageCount c;
     keyLastUsed := <[keyIndex := now]> (keyLastUsed c);
     cooldowns :=
       if isQuotaMessage message
       then cooldowns c ++ [(now + 60000, keyIndex)]
       else cooldowns c |}.

Definition trackKeyUsage (keyIndex : nat) (now : Z) (c : Client) : Client :=
  {| clients := clients c;
     failedKeys := failedKeys c;
     keyUsageCount := <[keyIndex := usage c (Some keyIndex) + 1]> (keyUsageCount c);
     keyLastUsed := <[keyIndex := now]> (keyLastUsed c);
     cooldowns := cooldowns c |}.

(** The timers: a cooldown that is due puts its key back, and the rotation
    interval puts back every key not used for five minutes. *)
Definition fireCooldowns (now : Z) (c : Client) : Client :=
  let due := List.filter (λ t, t.1 <=? now) (cooldowns c) in
  {| clients := clients c;
     failedKeys := failedKeys c ∖ list_to_set (snd <$> due);
     keyUsageCount := keyUsageCount c;
     keyLastUsed := keyLastUsed c;
     cooldowns := List.filter (λ t, negb (t.1 <=? now)) (cooldowns c) |}.

Definition rotateKeys (now : Z) (c : Client) : Client :=
  let idle :=
    List.filter (λ kv, 300000 <? now - kv.2) (map_to_list (keyLastUsed c)) in
  {| clients := clients c;
     failedKeys := failedKeys c ∖ list_to_set (fst <$> idle);
     keyUsageCount := keyUsageCount c;
     keyLastUsed := keyLastUsed c;
     cooldowns := cooldowns c |}.

(** *** generateContent *)

(** A turn of the conversation, [{ role, parts: [{ text }, ...] }]. *)
Record Turn := { role : string; parts : list string }.

(** What [chat.sendMessage] followed by [result.text()] comes to. *)
Inductive Reply :=
  | Text (fullResponse : string)
  | Fails (error : Exn).

Inductive Event :=
  | Attempt (keyIndex : nat)
  | Sleep (delay : Z).

(** The key pool, the caller's array of turns (its last turn is shared
    with [aiHistory] and rewritten in place) and the log of attempts and
    backoff sleeps. *)
Record Gen := { pool : Client; conversation : list Turn; events : list Event }.

(** The generation service, by attempt number, chat history and message;
    the prompt texts ([getCurrentTimeContext] at a clock value,
    [createAISystemPrompt], and the fixed lines that follow the memory
    summary), which hold characters beyond the modelled code units; the
    clock when an attempt starts and when it fails; the text the runtime
    gives an exception that is not a plain [Error]. *)
Class Service := {
  sendMessage : nat → list Turn → string → Reply;
  getCurrentTimeContext : Z → string;
  createAISystemPrompt : string;
  memoryInstructions : string;
  startedAt : nat → Z;
  failedAt : nat → Z;
  runtimeMessage : Exn → string
}.

Section generateContent.

Context `{!Service}.

Definition nl : string := String "010"%char EmptyString.

Definition messageOf (error : Exn) : string :=
  match error with
  | Error m => m
  | _ => runtimeMessage error
  end.

Definition contextInfo (now : Z) (memorySummary : option string) : string :=
  let base :=
    String.append (getCurrentTimeContext now)
      (String.append nl (String.append nl createAISystemPrompt)) in
  match memorySummary with
  | Some summary =>
      if String.eqb summary "" then base
      else
        String.append base
          (String.append nl (String.append nl
             (String.append "=== USER MEMORY PROFILE ==="
                (String.append nl (String.append summary memoryInstructions)))))
  | None => base
  end.

(** From [const aiHistory = [...conversationHistory]] to the argument of
    [sendMessage]: the conversation as left behind, the history given to
    [startChat] and the text sent.  Reading [parts] of a missing last
    turn, or [text] of a missing first part, throws. *)
Definition prepare (info : string) (conversationHistory : list Turn)
    : Exn + (list Turn * list Turn * string) :=
  match last conversationHistory with
  | None => inl TypeError
  | Some lastMessage =>
      match parts lastMessage with
      | [] => inl TypeError
      | text :: rest =>
          if String.eqb (role lastMessage) "user" then
            let text' := String.append info (String.append nl (String.append nl text)) in
            let lastMessage' := {| role := role lastMessage; parts := text' :: rest |} in
            inr (removelast conversationHistory ++ [lastMessage'],
                 removelast conversationHistory, text')
          else
            inr (conversationHistory, removelast conversationHistory, text)
      end
  end.

(** The body of the [try] after [trackKeyUsage]. *)
Definition request (attempts : nat) (memorySummary : option string)
    (conversationHistory : list Turn) : list Turn * (Exn + string) :=
  match prepare (contextInfo (startedAt attempts) memorySummary) conversationHistory with
  | inl e => (conversationHistory, inl e)
  | inr (conversationHistory', history, text) =>
      (conversationHistory',
       match sendMessage attempts history text with
       | Fails e => inl e
       | Text fullResponse =>
           if String.eqb fullResponse "" || (String.length (trim fullResponse) =? 0)%nat
           then inl (Error "Empty response from Gemini API")
           else inr (trim fullResponse)
       end)
  end.

Definition quarantines (message : string) : bool :=
  includes message "API_KEY_INVALID" || includes message "quota"
  || includes message "rate limit".

(** The [while (attempts < maxRetries)] loop; [remaining] is
    [maxRetries - attempts]. *)
Fixpoint retryLoop (maxRetries : nat) (memorySummary : option string)
    (remaining attempts : nat) (lastError : option Exn) (g : Gen)
    : Outcome string * Gen :=
  match remaining with
  | O =>
      match lastError with
      | None => (Throws TypeError, g)
      | Some e =>
          (Throws (Error (String.append "Failed to generate content after "
                            (String.append (pretty maxRetries)
                               (String.append " attempts: " (messageOf e))))), g)
      end
  | S remaining' =>
      let '(keyIndex, c) := getNextKeyIndex (pool g) in
      match keyIndex with
      | None =>
          (Throws (Error "No available Gemini clients"),
           {| pool := c; conversation := conversation g; events := events g |})
      | Some keyIndex =>
          if bool_decide (keyIndex ∈ clients c) then
            let c := trackKeyUsage keyIndex (startedAt attempts) c in
            let '(conversation', result) :=
              request attempts memorySummary (conversation g) in
            let log := events g ++ [Attempt keyIndex] in
            match result with
            | inr text =>
                (Returns text,
                 {| pool := c; conversation := conversation'; events := log |})
            | inl error =>
                let attempts' := S attempts in
                let c :=
                  if quarantines (messageOf error)
                  then markKeyAsFailed keyIndex (messageOf error) (failedAt attempts) c
                  else c in
                let log :=
                  if (attempts' <? maxRetries)%nat
                  then log ++ [Sleep (2 ^ Z.of_nat attempts' * 1000)]
                  else log in
                retryLoop maxRetries memorySummary remaining' attempts' (Some error)
                  {| pool := c; conversation := conversation'; events := log |}
            end
          else
            (Throws (Error "No available Gemini clients"),
             {| pool := c; conversation := conversation g; events := events g |})
      end
  end.

Definition generateContent (conversationHistory : list Turn)
    (memorySummary : option string) (maxRetries : nat) (c : Client)
    : Outcome string * Gen :=
  retryLoop maxRetries memorySummary maxRetries 0 None
    {| pool := c; conversation := conversationHistory; events := [] |}.

Definition isAttempt (e : Event) : bool :=
  match e with Attempt _ => true | Sleep _ => false end.

(** The attempts a run has made. *)
Definition attemptsMade (g : Gen) : nat := length (List.filter isAttempt (events g)).

End generateContent.

End GeminiClient.

(** ** Interleaved repository operations *)

(** Every mutating operation of both repositories has one shape: take the
    lock of its key, read the document, change its own copy, write the copy
    through the temporary file, give the lock back in [finally].  A task is
    such an operation; [update] is its synchronous stretch between read and
    write, [None] when it returns without writing.  The event loop runs one
    stretch of one task at a time; the stretches end at the [await]s. *)
Module Tasks.
Section Tasks.

Context {Doc : Type}.

Record Task := { key : string; update : Doc → option Doc }.

Inductive Result := Wrote | Skipped | RenameFailed.

Inductive Status :=
  | Polling                  (* in the loop of [acquireLock] *)
  | Holding                  (* key marked, document not yet read *)
  | Read (copy : Doc)        (* document read *)
  | Staged                   (* temporary file written, not yet renamed *)
  | Settled (r : Result)     (* body over, [finally] not yet run *)
  | Released (r : Result).   (* lock given back *)

(** The document file, the temporary file beside it, the lock map, and the
    tasks with where each one stands. *)
Record World := {
  file : Doc;
  temp : option Doc;
  locks : gmap string bool;
  pool : list (Task * Status)
}.

Definition holds (st : Status) : bool :=
  match st with
  | Holding | Read _ | Staged | Settled _ => true
  | Polling | Released _ => false
  end.

Definition setStatus (i : nat) (t : Task) (st : Status) (w : World) : list (Task * Status) :=
  <[i := (t, st)]> (pool w).

(** One stretch of task [i]; [None] when the task cannot move: it does not
    exist, it is over, or it polls a key that is held. *)
Definition stepTask (i : nat) (w : World) : option World :=
  match pool w !! i with
  | None => None
  | Some (t, Polling) =>
      if has (key t) (locks w) then None
      else Some {| file := file w; temp := temp w;
                   locks := <[key t := true]> (locks w);
                   pool := setStatus i t Holding w |}
  | Some (t, Holding) =>
      Some {| file := file w; temp := temp w; locks := locks w;
              pool := setStatus i t (Read (file w)) w |}
  | Some (t, Read copy) =>
      match update t copy with
      | None =>
          Some {| file := file w; temp := temp w; locks := locks w;
                  pool := setStatus i t (Settled Skipped) w |}
      | Some copy' =>
          Some {| file := file w; temp := Some copy'; locks := locks w;
                  pool := setStatus i t Staged w |}
      end
  | Some (t, Staged) =>
      match temp w with
      | Some staged =>
          Some {| file := staged; temp := None; locks := locks w;
                  pool := setStatus i t (Settled Wrote) w |}
      | None =>
          Some {| file := file w; temp := None; locks := locks w;
                  pool := setStatus i t (Settled RenameFailed) w |}
      end
  | Some (t, Settled r) =>
      Some {| file := file w; temp := temp w;
              locks := delete (key t) (locks w);
              pool := setStatus i t (Released r) w |}
  | Some (t, Released _) => None
  end.

(** A schedule names the task that runs next; a task that cannot move
    leaves the world as it is. *)
Fixpoint run (schedule : list nat) (w : World) : World :=
  match schedule with
  | [] => w
  | i :: schedule' => run schedule' (default w (stepTask i w))
  end.

Definition start (d : Doc) (ts : list Task) : World :=
  {| file := d; temp := None; locks := ∅; pool := (λ t, (t, Polling)) <$> ts |}.



(** What a task makes of a document when it runs alone. *)
Definition apply (d : Doc) (t : Task) : Doc := default d (update t d).

End Tasks.
Arguments Task : clear implicits.
Arguments Status : clear implicits.
Arguments World : clear implicits.
End Tasks.

(** * Stating the properties

    What the properties below are stated with: the outcome of a read, the
    document a repository sees on disk, the operations as values, runs of
    calls, and the invariants of the interleaved tasks. *)

Section Reading.

Context {Doc : Type} `{!JsonCodec Doc}.

(** What the file at a path makes [readJsonFile] do. *)
Definition readOutcome (defaultValue : Doc) (n : option Node) : Outcome Doc :=
  match n with
  | None => Returns defaultValue
  | Some (File s) =>
      match JSON_parse s with
      | Some d => Returns d
      | None => Throws SyntaxError
      end
  | Some Directory => Throws (FsError EISDIR)
  | Some Inaccessible | Some (Unreadable _) => Throws (FsError EACCES)
  | Some Damaged => Throws (FsError EIO)
  end.

End Reading.

(** The outcome of an operation whose write came to [o]: a write that
    returned lets the operation return [a]. *)
Definition after {A} (o : Outcome unit) (a : A) : Outcome A :=
  match o with
  | Returns _ => Returns a
  | Throws e => Throws e
  | Hangs => Hangs
  end.

Definition withDisk (r : Repo) (d : FS) : Repo := {| disk := d; lockMap := lockMap r |}.

Section Documents.

Context {V : Type} `{!JsonCodec (gmap string V), !Runtime}.

(** The document a repository sees at a path: what [readJsonFile] returns
    with the default [{}], and [{}] again where it throws. *)
Definition load (path : string) (d : FS) : gmap string V :=
  match readOutcome ∅ (d !! path) with
  | Returns h => h
  | _ => ∅
  end.

(** The document that the file at [path] holds: the empty one where nothing
    is at the path, none where the file cannot be read or holds text that
    does not parse. *)
Definition stored (path : string) (d : FS) : option (gmap string V) :=
  match readOutcome ∅ (d !! path) with
  | Returns h => Some h
  | _ => None
  end.

(** A change [f] of the document seen at [path]: it throws, or returns [a]
    without writing, or writes a document and then returns [a]. *)
Definition transact {A} (path : string)
    (f : gmap string V → Exn + (option (gmap string V) * A)) : Async FS A := λ d,
  match f (load path d) with
  | inl e => (Throws e, d)
  | inr (None, a) => (Returns a, d)
  | inr (Some h', a) =>
      (after (FileUtils.writeJsonFile path h' d).1 a, (FileUtils.writeJsonFile path h' d).2)
  end.

(** The run of an operation from what it does to the document. *)
Definition runChange (path : string) (quiet : bool)
    (change : Exn + option (gmap string V)) (r : Repo) : Outcome unit * Repo :=
  match change with
  | inl e => (if quiet then Returns tt else Throws e, r)
  | inr None => (Returns tt, r)
  | inr (Some h') =>
      (if quiet then Returns tt else (FileUtils.writeJsonFile path h' (disk r)).1,
       withDisk r (FileUtils.writeJsonFile path h' (disk r)).2)
  end.

End Documents.

(** The last [n] elements of a list. *)
Definition lastn {A} (n : nat) (l : list A) : list A := drop (length l - n) l.

Inductive HistoryOp :=
  | AddMessage (now : Z) (role content : Json) (metadata : Entry)
  | StoreContact (now : Z) (contactName : string) (contactNumber relationship : Json)
  | StoreEmotionalContext (now : Z) (context : Json)
  | ClearMessagesForSender.

Inductive MemoryOp :=
  | UpdateMemory (now : Z) (category : string) (data : Json) (merge : bool)
  | AddToMemoryArray (now : Z) (category subcategory : string) (item : Json) (maxItems : Z)
  | ClearUserMemory.

(** The outcome of a call without the value it returns. *)
Definition forget {A} (res : Outcome A * Repo) : Outcome unit * Repo :=
  (match res.1 with
   | Returns _ => Returns tt
   | Throws e => Throws e
   | Hangs => Hangs
   end, res.2).

(** Only [storeEmotionalContext] has a [catch] that does not throw again. *)
Definition swallows (op : HistoryOp) : bool :=
  match op with StoreEmotionalContext _ _ => true | _ => false end.

Section Changes.

Context `{!JsonCodec History, !JsonCodec Memories, !Runtime, !Config}.

Definition addMessage_change (now : Z) (K : string) (role content : Json)
    (metadata : Entry) (h : History) : Exn + (option History * option Entry) :=
  match JsonDatabase.addMessage_body now K role content metadata h with
  | None => inr (None, None)
  | Some (h', message) => inr (Some h', Some message)
  end.

Definition storeContact_change (now : Z) (K contactName : string)
    (contactNumber relationship : Json) (h : History) : Exn + (option History * Entry) :=
  match JsonDatabase.storeContact_body now K contactName contactNumber relationship h with
  | inl e => inl e
  | inr (h', contactInfo) => inr (Some h', contactInfo)
  end.

Definition storeEmotionalContext_change (now : Z) (K : string) (context : Json)
    (h : History) : Exn + (option History * unit) :=
  inr (Some (JsonDatabase.storeEmotionalContext_body now K context h), tt).

Definition clearMessages_change (K : string) (h : History) : Exn + (option History * unit) :=
  inr (Some (delete K h), tt).

Definition updateMemory_change (now : Z) (K category : string) (data : Json)
    (merge : bool) (h : Memories) : Exn + (option Memories * Profile) :=
  inr (Some (MemoryManager.updateMemory_body now K category data merge h).1,
       (MemoryManager.updateMemory_body now K category data merge h).2).

Definition addToMemoryArray_change (now : Z) (K category subcategory : string)
    (item : Json) (maxItems : Z) (h : Memories) : Exn + (option Memories * Profile) :=
  match MemoryManager.addToMemoryArray_body now K category subcategory item maxItems h with
  | inl e => inl e
  | inr (h', profile) => inr (Some h', profile)
  end.

Definition clearUserMemory_change (K : string) (h : Memories) : Exn + (option Memories * unit) :=
  inr (Some (delete K h), tt).

(** Some entry among the last five of [old] has this role and content and
    was stamped less than five seconds before [now]: [now - t < 5000] for
    its timestamp [t], as the code compares them. *)
Definition Duplicate (now : Z) (role content : string) (old : list Entry) : Prop :=
  ∃ msg t, msg ∈ lastn 5 old
    ∧ msg !! "role" = Some (JStr role)
    ∧ msg !! "content" = Some (JStr content)
    ∧ JsonDatabase.getTime (msg !! "timestamp") = Some t
    ∧ now - t < 5000.

Definition runHistoryOp (K : string) (op : HistoryOp) (r : Repo) : Outcome unit * Repo :=
  match op with
  | AddMessage now role content metadata =>
      forget (JsonDatabase.addMessage now K role content metadata r)
  | StoreContact now contactName contactNumber relationship =>
      forget (JsonDatabase.storeContact now K contactName contactNumber relationship r)
  | StoreEmotionalContext now context =>
      forget (JsonDatabase.storeEmotionalContext now K context r)
  | ClearMessagesForSender =>
      forget (JsonDatabase.clearMessagesForSender K r)
  end.

Definition runMemoryOp (K : string) (op : MemoryOp) (r : Repo) : Outcome unit * Repo :=
  match op with
  | UpdateMemory now category data merge =>
      forget (MemoryManager.updateMemory now K category data merge r)
  | AddToMemoryArray now category subcategory item maxItems =>
      forget (MemoryManager.addToMemoryArray now K category subcategory item maxItems r)
  | ClearUserMemory =>
      forget (MemoryManager.clearUserMemory K r)
  end.

(** What the operation makes of the document it read: an exception of its
    own, nothing to write, or the document it writes. *)
Definition historyChange (K : string) (op : HistoryOp) (h : History) : Exn + option History :=
  match op with
  | AddMessage now role content metadata =>
      inr (fst <$> JsonDatabase.addMessage_body now K role content metadata h)
  | StoreContact now contactName contactNumber relationship =>
      match JsonDatabase.storeContact_body now K contactName contactNumber relationship h with
      | inl e => inl e
      | inr (h', _) => inr (Some h')
      end
  | StoreEmotionalContext now context =>
      inr (Some (JsonDatabase.storeEmotionalContext_body now K context h))
  | ClearMessagesForSender => inr (Some (delete K h))
  end.

Definition memoryChange (K : string) (op : MemoryOp) (h : Memories) : Exn + option Memories :=
  match op with
  | UpdateMemory now category data merge =>
      inr (Some (MemoryManager.updateMemory_body now K category data merge h).1)
  | AddToMemoryArray now category subcategory item maxItems =>
      match MemoryManager.addToMemoryArray_body now K category subcategory item maxItems h with
      | inl e => inl e
      | inr (h', _) => inr (Some h')
      end
  | ClearUserMemory => inr (Some (delete K h))
  end.

End Changes.

(** A run of calls of [addMessage] for one key, each on the document the one
    before wrote: the document at the end and the messages that were
    appended, in the order of the calls. *)
Fixpoint addMessages `{!Runtime, !Config} (K : string)
    (calls : list (Z * Json * Json * Entry)) (h : History) : History * list Entry :=
  match calls with
  | [] => (h, [])
  | (now, role, content, metadata) :: calls' =>
      match JsonDatabase.addMessage_body now K role content metadata h with
      | None => addMessages K calls' h
      | Some (h', message) =>
          ((addMessages K calls' h').1, message :: (addMessages K calls' h').2)
      end
  end.

(** The same for [addToMemoryArray] on one subcategory; the items as stored,
    stamped with the time of their call. *)
Fixpoint addItems `{!Runtime} (K category subcategory : string) (maxItems : Z)
    (items : list (Z * Json)) (h : Memories) : Exn + Memories :=
  match items with
  | [] => inr h
  | (now, item) :: items' =>
      match MemoryManager.addToMemoryArray_body now K category subcategory item maxItems h with
      | inl e => inl e
      | inr (h', _) => addItems K category subcategory maxItems items' h'
      end
  end.

Definition stamped `{!Runtime} (items : list (Z * Json)) : list Json :=
  (λ c, MemoryManager.itemWithTimestamp c.1 c.2) <$> items.

(** The array under [category.subcategory] of a profile. *)
Definition subArray (category subcategory : string) (p : Profile) : list Json :=
  match p !! category with
  | Some (JObj m) => MemoryManager.arrayOr (m !! subcategory)
  | _ => []
  end.

(** The category holds an object, or a falsy value that the code replaces
    by an empty object. *)
Definition objectOrFalsy (v : option Json) : Prop :=
  truthy v = false ∨ ∃ m, v = Some (JObj m).

Section TaskStates.

Context {Doc : Type}.
Implicit Types (w : Tasks.World Doc) (t : Tasks.Task Doc) (s : Tasks.Status Doc).

(** The tasks stay the ones started; a key is marked exactly while one task
    is between its acquire and its release; and no two such tasks share a
    key. *)
Record LockInv (ts : list (Tasks.Task Doc)) w : Prop := {
  inv_tasks : fst <$> Tasks.pool w = ts;
  inv_marked : ∀ k, is_Some (Tasks.locks w !! k) ↔
     ∃ i t s, Tasks.pool w !! i = Some (t, s) ∧ Tasks.holds s = true ∧ Tasks.key t = k;
  inv_exclusive : ∀ i j ti si tj sj,
     Tasks.pool w !! i = Some (ti, si) → Tasks.pool w !! j = Some (tj, sj) →
     Tasks.holds si = true → Tasks.holds sj = true →
     Tasks.key ti = Tasks.key tj → i = j
}.



Variable d0 : Doc.
Variable K : string.


End TaskStates.




(** The outcomes of the attempts [start], [start + 1], ... as the loop makes
    them, each on the conversation the one before left behind. *)
Fixpoint outcomes `{!GeminiClient.Service} (memorySummary : option string)
    (start n : nat) (conversation : list GeminiClient.Turn) : list (Exn + string) :=
  match n with
  | O => []
  | S n' =>
      (GeminiClient.request start memorySummary conversation).2
      :: outcomes memorySummary (S start) n'
           (GeminiClient.request start memorySummary conversation).1
  end.

(** The error that ends a run of [maxRetries] failed attempts. *)
Definition exhausted `{!GeminiClient.Service} (maxRetries : nat) (e : Exn) : Exn :=
  Error (String.append "Failed to generate content after "
           (String.append (pretty maxRetries)
              (String.append " attempts: " (GeminiClient.messageOf e)))).

Section Retries.

Import GeminiClient.

Context `{!Service}.

(** One failed attempt: the state with which the loop goes round again. *)
Definition afterFailure (maxRetries attempts : nat) (g : Gen) (keyIndex : nat)
    (c : Client) (conversation' : list Turn) (error : Exn) : Gen :=
  {| pool := if quarantines (messageOf error)
             then markKeyAsFailed keyIndex (messageOf error) (failedAt attempts)
                    (trackKeyUsage keyIndex (startedAt attempts) c)
             else trackKeyUsage keyIndex (startedAt attempts) c;
     conversation := conversation';
     events := if (S attempts <? maxRetries)%nat
               then (events g ++ [Attempt keyIndex]) ++ [Sleep (2 ^ Z.of_nat (S attempts) * 1000)]
               else events g ++ [Attempt keyIndex] |}.

End Retries.

(** The name under which a contact entry is looked for: its [contactName]
    in lower case. *)
Definition contactKey `{!Runtime} (msg : Entry) : option string :=
  if JsonDatabase.isContact msg then
    match msg !! "contactName" with
    | Some (JStr s) => Some (toLowerCase s)
    | _ => None
    end
  else None.

(** A value that [===] compares by what it holds. *)
Definition primitive (v : option Json) : bool :=
  match v with
  | Some (JArr _) | Some (JObj _) => false
  | _ => true
  end.

(** The attempts of a run that used the key [keyIndex]. *)
Definition onKey (keyIndex : nat) (e : GeminiClient.Event) : bool :=
  match e with
  | GeminiClient.Attempt k => bool_decide (k = keyIndex)
  | GeminiClient.Sleep _ => false
  end.

Definition attemptsOn (keyIndex : nat) (g : GeminiClient.Gen) : nat :=
  length (List.filter (onKey keyIndex) (GeminiClient.events g)).

(** The text of a user turn after the attempts [start], ..., [start + n - 1]
    have each put their context in front of it. *)
Fixpoint withContexts `{!GeminiClient.Service} (memorySummary : option string)
    (start n : nat) (text : string) : string :=
  match n with
  | O => text
  | S n' =>
      withContexts memorySummary (S start) n'
        (String.append
           (GeminiClient.contextInfo (GeminiClient.startedAt start) memorySummary)
           (String.append GeminiClient.nl (String.append GeminiClient.nl text)))
  end.

(** What a run returned, [d] when it did not return. *)
Definition returned {A} (d : A) (o : Outcome A) : A :=
  match o with Returns a => a | _ => d end.

(** ** A small world for the closed examples

    Times are written as their count of milliseconds, every path lies in
    [data] and every directory asked for is made.  The history codec knows
    four documents, each by a text that names the keys it holds; the
    examples below run the operations on these. *)
Module Sample.

Definition runtime : Runtime := {|
  dirname := λ _, "data";
  Date_parse := λ s, match s with
                     | EmptyString => None
                     | _ => Z.of_N <$> digitsValue s 0
                     end;
  toISOString := pretty;
  toLocaleString := pretty;
  toLowerCase := id;
  mkdirRejects := λ _ _, None
|}.

Definition config : Config := {|
  chatHistoryFile := "data/chat_history.json";
  maxChatHistory := 30
|}.

(** Alice said hi at time 1000, Bob said yo at time 2000. *)
Definition hi : Entry :=
  @JsonDatabase.newMessage runtime 1000 (JStr "user") (JStr "hi") ∅.

Definition yo : Entry :=
  @JsonDatabase.newMessage runtime 2000 (JStr "user") (JStr "yo") ∅.

Definition aliceSaidHi : History := {[ "alice" := [hi] ]}.

Definition bobSaidYo : History := {[ "bob" := [yo] ]}.

Definition both : History := <["bob" := [yo]]> aliceSaidHi.

Definition historyCodec : JsonCodec History := {|
  JSON_stringify := λ h,
    match h !! "alice", h !! "bob" with
    | Some _, Some _ => "alice+bob"
    | Some _, None => "alice"
    | None, Some _ => "bob"
    | None, None => "{}"
    end;
  JSON_parse := λ s,
    if String.eqb s "alice" then Some aliceSaidHi
    else if String.eqb s "bob" then Some bobSaidYo
    else if String.eqb s "alice+bob" then Some both
    else if String.eqb s "{}" then Some ∅
    else None
|}.

(** The memory codec knows the empty document. *)
Definition memoryCodec : JsonCodec Memories := {|
  JSON_stringify := λ _, "{}";
  JSON_parse := λ s, if String.eqb s "{}" then Some ∅ else None
|}.

Definition emptyRepo : Repo := {| disk := ∅; lockMap := ∅ |}.

(** The disk once [aliceSaidHi] has been written. *)
Definition diskWithHi : FS :=
  <["data/chat_history.json" := File "alice"]> (<["data" := Directory]> ∅).

Definition repoWithHi : Repo := {| disk := diskWithHi; lockMap := ∅ |}.

(** The same with a history file that has lost its permissions. *)
Definition repoWithHiUnreadable : Repo :=
  {| disk := <["data/chat_history.json" := Unreadable "alice"]> (<["data" := Directory]> ∅);
     lockMap := ∅ |}.

End Sample.

(** A disk on which nothing can be written: [data] cannot be entered. *)
Definition lockedOut : Repo := {| disk := {[ "data" := Inaccessible ]}; lockMap := ∅ |}.


(** Three lines into a history capped at two. *)
Definition capTwo : Config := {| chatHistoryFile := "data/chat_history.json"; maxChatHistory := 2 |}.

Definition threeCalls : list (Z * Json * Json * Entry) :=
  [ (1000, JStr "user", JStr "one", ∅);
    (2000, JStr "assistant", JStr "two", ∅);
    (3000, JStr "user", JStr "three", ∅) ].

(** Three keys, the first marked as failed, the other two used once each:
    the second is picked. *)
Definition threeKeys : Client :=
  GeminiClient.markKeyAsFailed 0 "quota exceeded" 5000
    (GeminiClient.trackKeyUsage 2 4000
       (GeminiClient.trackKeyUsage 1 3000
          (GeminiClient.initializeFrom 0 [true; true; true] GeminiClient.emptyClient))).

(** A service that runs into the quota twice and then answers. *)
Definition thirdTimeLucky : GeminiClient.Service := {|
  GeminiClient.sendMessage := λ attempt _ _,
    if (attempt <? 2)%nat then GeminiClient.Fails (Error "quota exceeded")
    else GeminiClient.Text "  hello there  ";
  GeminiClient.getCurrentTimeContext := λ now, pretty now;
  GeminiClient.createAISystemPrompt := "AI SYSTEM";
  GeminiClient.memoryInstructions := "";
  GeminiClient.startedAt := λ attempt, 1000 * Z.of_nat attempt;
  GeminiClient.failedAt := λ attempt, 1000 * Z.of_nat attempt + 500;
  GeminiClient.runtimeMessage := λ _, "Cannot read properties of undefined"
|}.

Definition twoKeys : Client :=
  GeminiClient.initializeFrom 0 [true; true] GeminiClient.emptyClient.

Definition askHello : list GeminiClient.Turn :=
  [ {| GeminiClient.role := "user"; GeminiClient.parts := ["hello"] |} ].

(** ** A JSON codec and a runtime for the closed examples *)
Module Node.

Definition dq : ascii := "034"%char.
Definition bs : ascii := "092"%char.

Definition hexDigit (n : N) : ascii :=
  if (n <? 10)%N then ascii_of_N (48 + n) else ascii_of_N (87 + n).

Fixpoint escape (s : string) : string :=
  match s with
  | EmptyString => EmptyString
  | String c s' =>
      let n := N_of_ascii c in
      if Ascii.eqb c dq then String bs (String dq (escape s'))
      else if Ascii.eqb c bs then String bs (String bs (escape s'))
      else if (n <? 32)%N then
        String bs (String "u" (String "0" (String "0"
          (String (hexDigit (n / 16)) (String (hexDigit (n mod 16)) (escape s'))))))
      else String c (escape s')
  end.

Definition quote (s : string) : string :=
  String dq (String.append (escape s) (String dq EmptyString)).

Fixpoint joinWith (sep : string) (l : list string) : string :=
  match l with
  | [] => EmptyString
  | [x] => x
  | x :: l' => String.append x (String.append sep (joinWith sep l'))
  end.

Definition block (opening closing indent : string) (lines : list string) : string :=
  match lines with
  | [] => String.append opening closing
  | _ =>
      String.append opening
        (String.append GeminiClient.nl
           (String.append (joinWith (String.append "," GeminiClient.nl) lines)
              (String.append GeminiClient.nl (String.append indent closing))))
  end.

(** [JSON.stringify(v, null, 2)], to a depth of [fuel]. *)
Fixpoint print (fuel : nat) (indent : string) (v : Json) : string :=
  match fuel with
  | O => "null"
  | S fuel' =>
      let inner := String.append indent "  " in
      match v with
      | JNull => "null"
      | JBool b => if b then "true" else "false"
      | JNum n => pretty n
      | JStr s => quote s
      | JArr l =>
          block "[" "]" indent ((λ x, String.append inner (print fuel' inner x)) <$> l)
      | JObj m =>
          block "{" "}" indent
            ((λ kv, String.append inner
                      (String.append (quote kv.1)
                         (String.append ": " (print fuel' inner kv.2))))
             <$> map_to_list m)
      end
  end.

Definition isSpace (c : ascii) : bool :=
  let n := N_of_ascii c in ((n =? 32) || (n =? 9) || (n =? 10) || (n =? 13))%N.

Fixpoint skip (s : string) : string :=
  match s with
  | String c s' => if isSpace c then skip s' else s
  | EmptyString => EmptyString
  end.

Definition hexValue (c : ascii) : option N :=
  let n := N_of_ascii c in
  if ((48 <=? n) && (n <=? 57))%N then Some (n - 48)%N
  else if ((97 <=? n) && (n <=? 102))%N then Some (n - 87)%N
  else if ((65 <=? n) && (n <=? 70))%N then Some (n - 55)%N
  else None.

(** The characters of a string literal after its opening quote, and what
    follows the closing one. *)
Fixpoint parseChars (s : string) : option (string * string) :=
  match s with
  | EmptyString => None
  | String c s' =>
      if Ascii.eqb c dq then Some (EmptyString, s')
      else if Ascii.eqb c bs then
        match s' with
        | String e s'' =>
            if Ascii.eqb e "u" then
              match s'' with
              | String a (String b (String h (String l rest))) =>
                  match hexValue a, hexValue b, hexValue h, hexValue l, parseChars rest with
                  | Some 0%N, Some 0%N, Some x, Some y, Some (t, after) =>
                      Some (String (ascii_of_N (16 * x + y)) t, after)
                  | _, _, _, _, _ => None
                  end
              | _ => None
              end
            else
              let plain :=
                if Ascii.eqb e "n" then Some "010"%char
                else if Ascii.eqb e "t" then Some "009"%char
                else if Ascii.eqb e "r" then Some "013"%char
                else if Ascii.eqb e "b" then Some "008"%char
                else if Ascii.eqb e "f" then Some "012"%char
                else if Ascii.eqb e dq || Ascii.eqb e bs || Ascii.eqb e "/" then Some e
                else None in
              match plain, parseChars s'' with
              | Some x, Some (t, after) => Some (String x t, after)
              | _, _ => None
              end
        | EmptyString => None
        end
      else
        match parseChars s' with
        | Some (t, after) => Some (String c t, after)
        | None => None
        end
  end.

Fixpoint digits (s : string) (acc : N) (seen : bool) : option (N * string) :=
  match s with
  | String c s' =>
      let n := N_of_ascii c in
      if ((48 <=? n) && (n <=? 57))%N then digits s' (acc * 10 + (n - 48))%N true
      else if seen then Some (acc, s) else None
  | EmptyString => if seen then Some (acc, EmptyString) else None
  end.

(** An integer; a fraction or an exponent is refused. *)
Definition parseNumber (s : string) : option (Json * string) :=
  let '(negative, body) :=
    match s with
    | String "-" s' => (true, s')
    | _ => (false, s)
    end in
  match digits body 0 false with
  | Some (n, rest) =>
      match rest with
      | String "." _ | String "e" _ | String "E" _ => None
      | _ => Some (JNum (if negative then - Z.of_N n else Z.of_N n), rest)
      end
  | None => None
  end.

Fixpoint stripPrefix (p s : string) : option string :=
  match p, s with
  | EmptyString, _ => Some s
  | String a p', String b s' => if Ascii.eqb a b then stripPrefix p' s' else None
  | _, _ => None
  end.

Fixpoint parseValue (fuel : nat) (s : string) : option (Json * string) :=
  match fuel with
  | O => None
  | S fuel' =>
      match skip s with
      | String c rest =>
          if Ascii.eqb c "{" then
            match skip rest with
            | String "}" after => Some (JObj ∅, after)
            | _ => parseMembers fuel' rest ∅
            end
          else if Ascii.eqb c "[" then
            match skip rest with
            | String "]" after => Some (JArr [], after)
            | _ => parseElements fuel' rest []
            end
          else if Ascii.eqb c dq then
            match parseChars rest with
            | Some (t, after) => Some (JStr t, after)
            | None => None
            end
          else if Ascii.eqb c "n" then (λ after, (JNull, after)) <$> stripPrefix "ull" rest
          else if Ascii.eqb c "t" then (λ after, (JBool true, after)) <$> stripPrefix "rue" rest
          else if Ascii.eqb c "f" then (λ after, (JBool false, after)) <$> stripPrefix "alse" rest
          else parseNumber (String c rest)
      | EmptyString => None
      end
  end
with parseMembers (fuel : nat) (s : string) (acc : gmap string Json) : option (Json * string) :=
  match fuel with
  | O => None
  | S fuel' =>
      match skip s with
      | String c rest =>
          if Ascii.eqb c dq then
            match parseChars rest with
            | Some (k, after) =>
                match skip after with
                | String ":" after =>
                    match parseValue fuel' after with
                    | Some (v, after) =>
                        match skip after with
                        | String "," after => parseMembers fuel' after (<[k := v]> acc)
                        | String "}" after => Some (JObj (<[k := v]> acc), after)
                        | _ => None
                        end
                    | None => None
                    end
                | _ => None
                end
            | None => None
            end
          else None
      | EmptyString => None
      end
  end
with parseElements (fuel : nat) (s : string) (acc : list Json) : option (Json * string) :=
  match fuel with
  | O => None
  | S fuel' =>
      match parseValue fuel' s with
      | Some (v, after) =>
          match skip after with
          | String "," after => parseElements fuel' after (acc ++ [v])
          | String "]" after => Some (JArr (acc ++ [v]), after)
          | _ => None
          end
      | None => None
      end
  end.

(** [JSON.parse] on texts that hold integers only. *)
Definition parse (s : string) : option Json :=
  match parseValue (2 * String.length s + 2) s with
  | Some (v, after) =>
      match skip after with
      | EmptyString => Some v
      | _ => None
      end
  | None => None
  end.

Definition asObject (v : Json) : option (gmap string Json) :=
  match v with JObj m => Some m | _ => None end.

Definition asEntries (v : Json) : option (list Entry) :=
  match v with JArr l => mapM asObject l | _ => None end.

(** Every property of an object read with [read], or nothing. *)
Definition readAll {A} (read : Json → option A) (m : gmap string Json) : option (gmap string A) :=
  map_fold (λ k v acc, h ← acc; a ← read v; Some (<[k := a]> h)) (Some ∅) m.

Definition history : JsonCodec History := {|
  JSON_stringify := λ h, print 100 "" (JObj ((λ l, JArr (JObj <$> l)) <$> h));
  JSON_parse := λ s, v ← parse s; m ← asObject v; readAll asEntries m
|}.

Definition memories : JsonCodec Memories := {|
  JSON_stringify := λ h, print 100 "" (JObj (JObj <$> h));
  JSON_parse := λ s, v ← parse s; m ← asObject v; readAll asObject m
|}.

Definition lowerChar (c : ascii) : ascii :=
  let n := N_of_ascii c in
  if ((65 <=? n) && (n <=? 90))%N then ascii_of_N (n + 32) else c.

Fixpoint lower (s : string) : string :=
  match s with
  | EmptyString => EmptyString
  | String c s' => String (lowerChar c) (lower s')
  end.

(** What precedes the last [/], if there is one. *)
Fixpoint beforeLastSlash (s : string) : option string :=
  match s with
  | EmptyString => None
  | String c s' =>
      match beforeLastSlash s' with
      | Some d => Some (String c d)
      | None => if Ascii.eqb c "/" then Some EmptyString else None
      end
  end.

(** Times are written as their count of milliseconds. *)
Definition runtime : Runtime := {|
  dirname := λ p, match beforeLastSlash p with
                  | Some EmptyString => "/"
                  | Some d => d
                  | None => "."
                  end;
  Date_parse := λ s, match s with
                     | EmptyString => None
                     | _ => Z.of_N <$> digitsValue s 0
                     end;
  toISOString := pretty;
  toLocaleString := pretty;
  toLowerCase := lower;
  mkdirRejects := λ _ _, None
|}.

End Node.


(** ** Samples over that codec *)
Module World.

(** A repository whose history file holds [h], with nobody at work. *)
Definition holdingHistory (h : History) : Repo :=
  {| disk := <["data/chat_history.json" := File (@JSON_stringify _ Node.history h)]>
               (<["data" := Directory]> ∅);
     lockMap := ∅ |}.


(** A directory stands where the history file should be. *)
Definition directoryInTheWay : FS :=
  {[ "data" := Directory; "data/chat_history.json" := Directory ]}.

Definition notes : FS := {[ "notes.txt" := File "keep" ]}.

(** Alice's line, Bob's number and ten moods. *)
Definition bob : Entry :=
  @JsonDatabase.newContact Node.runtime 3000 "Bob" (JStr "0771234567") (JStr "friend").

Definition tenMoods : list Entry :=
  (λ i, @JsonDatabase.newEmotionalEntry Node.runtime (Z.of_nat i) (JStr "calm")) <$> seq 1 10.

Definition aliceWithMoods : History := {[ "alice" := Sample.hi :: tenMoods ]}.

Definition aliceKnowsBob : History := {[ "alice" := [Sample.hi; bob] ]}.

(** A history file that was cut short, and the same for the memories. *)
Definition cutShort : Repo :=
  {| disk := {[ "data" := Directory; "data/chat_history.json" := File "{ alice: [" ]};
     lockMap := ∅ |}.

(** The runtime of [Node] on a disk that is full: no directory is made. *)
Definition diskFull : Runtime := {|
  dirname := @dirname Node.runtime;
  Date_parse := @Date_parse Node.runtime;
  toISOString := @toISOString Node.runtime;
  toLocaleString := @toLocaleString Node.runtime;
  toLowerCase := @toLowerCase Node.runtime;
  mkdirRejects := λ _ _, Some ENOSPC
|}.

(** A cap of minus two. *)
Definition minusTwo : Config :=
  {| chatHistoryFile := "data/chat_history.json"; maxChatHistory := -2 |}.

Definition ann : gmap string Json := {[ "name" := JStr "Ann" ]}.








(** A memory file that was cut short. *)
Definition memoriesCutShort : Repo :=
  {| disk := {[ "data" := Directory; "data/user_memories.json" := File "{ alice: {" ]};
     lockMap := ∅ |}.

End World.

(** * Properties *)

(** ** FileUtils: reading and writing a document *)

Section FileUtilsFacts.

Context {Doc : Type} `{!JsonCodec Doc, !Runtime}.

Lemma readJsonFile_eq (p : string) (v : Doc) (d : FS) :
  FileUtils.readJsonFile p v d = (readOutcome v (d !! p), d).
Proof.
  unfold FileUtils.readJsonFile, tryCatch, mbind, Async_bind, bind, fs.readFile,
    FileUtils.parseJson, readOutcome.
  destruct (d !! p) as [[s| | | |u]|]; simpl; try reflexivity.
  destruct (JSON_parse s); reflexivity.
Qed.

Lemma writeJsonFile_returns (p : string) (doc : Doc) (d d' : FS) :
  FileUtils.writeJsonFile p doc d = (Returns tt, d') →
  d' !! p = Some (File (JSON_stringify doc)).
Proof.
  unfold FileUtils.writeJsonFile, tryCatch, mbind, Async_bind, bind.
  destruct (FileUtils.ensureDir (dirname p) d) as [[[]|e|] d1]; simpl; try discriminate.
  unfold fs.writeFile.
  set (tmp := String.append p ".tmp").
  destruct (d1 !! tmp) as [[s| | | |u]|] eqn:Htmp; simpl; try discriminate.
  all: unfold fs.rename; rewrite lookup_insert_eq.
  all: destruct (<[tmp:=File (JSON_stringify doc)]> d1 !! p) as [[s'| | | |u']|];
    simpl; try discriminate.
  all: intros [= <-]; apply lookup_insert_eq.
Qed.

End FileUtilsFacts.

(** C3: a document written with [writeJsonFile] is what [readJsonFile] then
    returns from the same path, for every document that the JSON codec
    carries through unchanged (a well-formed one), whatever default the read
    is given: the text reaches the path through the temporary sibling file
    and the rename, and the read finds exactly that text. *)
Theorem write_then_read_roundtrip {Doc : Type} `{!JsonCodec Doc, !Runtime}
    (p : string) (doc v : Doc) (d d' : FS) :
  JSON_parse (JSON_stringify doc) = Some doc →
  FileUtils.writeJsonFile p doc d = (Returns tt, d') →
  FileUtils.readJsonFile p v d' = (Returns doc, d').
Proof.
  intros Hwf Hw.
  rewrite readJsonFile_eq.
  rewrite (writeJsonFile_returns _ _ _ _ Hw). simpl.
  by rewrite Hwf.
Qed.

(** C4: [readJsonFile] hands back the default it was given exactly when
    nothing exists at the path; a file whose text does not parse makes it
    throw the parse error, any other failure of the read makes it throw that
    failure, whose code is not ENOENT, and a file that parses is returned as
    parsed.  Nothing on disk is changed or repaired. *)
Theorem readJsonFile_default_iff_missing {Doc : Type} `{!JsonCodec Doc}
    (p : string) (d : FS) (a b : Doc) :
  a ≠ b →
  (d !! p = None ↔ ∀ v, FileUtils.readJsonFile p v d = (Returns v, d))
  ∧ (∀ v s, d !! p = Some (File s) →
       FileUtils.readJsonFile p v d =
         (match JSON_parse s with Some doc => Returns doc | None => Throws SyntaxError end, d))
  ∧ (∀ v n, d !! p = Some n → (∀ s, n ≠ File s) →
       ∃ code, code ≠ ENOENT
               ∧ FileUtils.readJsonFile p v d = (Throws (FsError code), d)).
Proof.
  intros Hab. repeat split.
  - intros Hnone v. rewrite readJsonFile_eq, Hnone. reflexivity.
  - intros Hall.
    pose proof (Hall a) as Ha. pose proof (Hall b) as Hb.
    rewrite readJsonFile_eq in Ha, Hb.
    destruct (d !! p) as [[s| | | |u]|]; simpl in *; try discriminate; [|reflexivity].
    destruct (JSON_parse s); congruence.
  - intros v s Hs. rewrite readJsonFile_eq, Hs. reflexivity.
  - intros v n Hn Hnot. rewrite readJsonFile_eq, Hn.
    destruct n as [s| | | |u]; simpl.
    + by destruct (Hnot s).
    + exists EISDIR. split; [discriminate|reflexivity].
    + exists EACCES. split; [discriminate|reflexivity].
    + exists EIO. split; [discriminate|reflexivity].
    + exists EACCES. split; [discriminate|reflexivity].
Qed.

(** ** Running an operation that nobody interleaves with *)

Lemma tryCatch_rethrow {S A} (m : Async S A) (s : S) :
  tryCatch m (λ error, throw error) s = m s.
Proof. unfold tryCatch, throw. by destruct (m s) as [[a|e|] s']. Qed.

Lemma has_free (K : string) (m : gmap string bool) : m !! K = None → has K m = false.
Proof.
  intros HK. unfold has. apply bool_decide_eq_false. rewrite HK. by intros [? ?].
Qed.

Lemma has_held (K : string) (m : gmap string bool) : is_Some (m !! K) → has K m = true.
Proof. intros HK. unfold has. by apply bool_decide_eq_true. Qed.

Lemma unlock_lock (K : string) (m : gmap string bool) :
  m !! K = None → delete K (<[K := true]> m) = m.
Proof. intros HK. rewrite delete_insert_eq. by apply delete_id. Qed.

Lemma fs_ops_settle `{!Runtime} :
  (∀ p d, (fs.access p d).1 ≠ Hangs) ∧ (∀ p d, (fs.mkdir p d).1 ≠ Hangs)
  ∧ (∀ p s d, (fs.writeFile p s d).1 ≠ Hangs) ∧ (∀ p q d, (fs.rename p q d).1 ≠ Hangs).
Proof.
  repeat split; intros.
  - unfold fs.access. by destruct (d !! p) as [[]|].
  - unfold fs.mkdir. destruct (d !! p) as [[]|]; try done.
    by destruct (mkdirRejects d p).
  - unfold fs.writeFile. by destruct (d !! p) as [[]|].
  - unfold fs.rename. by destruct (d !! p) as [[]|]; destruct (d !! q) as [[]|].
Qed.

Lemma writeJsonFile_settles {Doc : Type} `{!JsonCodec Doc, !Runtime}
    (p : string) (doc : Doc) (d : FS) :
  (FileUtils.writeJsonFile p doc d).1 ≠ Hangs.
Proof.
  destruct fs_ops_settle as (Ha & Hm & Hw & Hr).
  unfold FileUtils.writeJsonFile, FileUtils.ensureDir, tryCatch, mbind, Async_bind, bind, throw.
  pose proof (Ha (dirname p) d) as Ha'.
  destruct (fs.access (dirname p) d) as [[[]|e|] d0]; simpl in *; try done.
  - pose proof (Hw (String.append p ".tmp") (JSON_stringify doc) d0) as Hw'.
    destruct (fs.writeFile _ _ d0) as [[[]|e|] d1]; simpl in *; try done.
    pose proof (Hr (String.append p ".tmp") p d1) as Hr'.
    by destruct (fs.rename _ _ d1) as [[[]|e|] d2].
  - destruct e as [[]| | |]; simpl; try done.
    pose proof (Hm (dirname p) d0) as Hm'.
    destruct (fs.mkdir (dirname p) d0) as [[[]|e|] d1]; simpl in *; try done.
    pose proof (Hw (String.append p ".tmp") (JSON_stringify doc) d1) as Hw'.
    destruct (fs.writeFile _ _ d1) as [[[]|e|] d2]; simpl in *; try done.
    pose proof (Hr (String.append p ".tmp") p d2) as Hr'.
    by destruct (fs.rename _ _ d2) as [[[]|e|] d3].
Qed.

Lemma withDisk_same (r : Repo) : withDisk r (disk r) = r.
Proof. by destruct r. Qed.

(** An operation of the shape [acquireLock; try { body } catch { throw }
    finally { releaseLock }] whose body only touches the disk. *)
Lemma critical_run {A} (K : string) (body : Async Repo A) (m : Async FS A) (r : Repo) :
  lockMap r !! K = None →
  (∀ r', body r' = ((m (disk r')).1, withDisk r' (m (disk r')).2)) →
  (m (disk r)).1 ≠ Hangs →
  (acquireLock K;; tryFinally (tryCatch body (λ error, throw error)) (releaseLock K)) r
  = ((m (disk r)).1, withDisk r (m (disk r)).2).
Proof.
  intros HK Hbody Hsettles.
  unfold mbind, Async_bind, bind, acquireLock. rewrite (has_free _ _ HK).
  unfold tryFinally. rewrite tryCatch_rethrow, Hbody. simpl.
  destruct (m (disk r)) as [[a|e|] d']; simpl in *; try done.
  all: unfold releaseLock, modify, withDisk; simpl; by rewrite (unlock_lock _ _ HK).
Qed.

(** The same with a [catch] that swallows the error. *)
Lemma critical_run_quiet (K : string) (body : Async Repo unit) (m : Async FS unit) (r : Repo) :
  lockMap r !! K = None →
  (∀ r', body r' = ((m (disk r')).1, withDisk r' (m (disk r')).2)) →
  (m (disk r)).1 ≠ Hangs →
  (acquireLock K;; tryFinally (tryCatch body (λ error, mret tt)) (releaseLock K)) r
  = (Returns tt, withDisk r (m (disk r)).2).
Proof.
  intros HK Hbody Hsettles.
  unfold mbind, Async_bind, bind, acquireLock. rewrite (has_free _ _ HK).
  unfold tryFinally, tryCatch. rewrite Hbody. simpl.
  destruct (m (disk r)) as [[[]|e|] d']; simpl in *; try done.
  all: unfold releaseLock, modify, withDisk; simpl; by rewrite (unlock_lock _ _ HK).
Qed.

(** A held key makes the operation poll for ever. *)
Lemma critical_held {A} (K : string) (rest : Async Repo A) (r : Repo) :
  is_Some (lockMap r !! K) → (acquireLock K;; rest) r = (Hangs, r).
Proof.
  intros HK. unfold mbind, Async_bind, bind, acquireLock. by rewrite (has_held _ _ HK).
Qed.

(** ** Read-modify-write of one keyed document *)

Section Transactions.

Context {V : Type} `{!JsonCodec (gmap string V), !Runtime}.

Lemma transact_settles {A} (path : string)
    (f : gmap string V → Exn + (option (gmap string V) * A)) (d : FS) :
  (transact path f d).1 ≠ Hangs.
Proof.
  unfold transact. destruct (f (load path d)) as [e|[[h'|] a]]; simpl; try done.
  pose proof (writeJsonFile_settles path h' d) as Hs.
  by destruct (FileUtils.writeJsonFile path h' d) as [[[]|e|] d'].
Qed.

Lemma length_append (s t : string) :
  String.length (String.append s t) = (String.length s + String.length t)%nat.
Proof. induction s as [|c s IH]; simpl; [done|]. by rewrite IH. Qed.

Lemma append_tmp_ne (p : string) : String.append p ".tmp" ≠ p.
Proof.
  intros Heq. apply (f_equal String.length) in Heq.
  rewrite length_append in Heq. simpl in Heq. lia.
Qed.

(** A write that does not return leaves the document seen at the path as it
    was: the rename is the only step that touches the path, save for a
    directory made at the path itself, which reads as [{}] like the missing
    file before it. *)
Lemma writeJsonFile_fails_load (p : string) (doc : gmap string V) (d d' : FS) (e : Exn) :
  FileUtils.writeJsonFile p doc d = (Throws e, d') → load p d' = load p d.
Proof.
  unfold FileUtils.writeJsonFile, FileUtils.ensureDir.
  rewrite tryCatch_rethrow. unfold tryCatch, mbind, Async_bind, bind, throw.
  set (tmp := String.append p ".tmp").
  assert (Htmp : tmp ≠ p) by apply append_tmp_ne.
  assert (Hdir : ∀ d1, (d1 = d ∨ (d !! dirname p = None ∧ d1 = <[dirname p := Directory]> d)) →
            load p d1 = load p d).
  { intros d1 [->|[Hnone ->]]; [done|]. unfold load.
    destruct (decide (dirname p = p)) as [Heq|Hne].
    - rewrite Heq in *. rewrite lookup_insert_eq, Hnone. done.
    - by rewrite lookup_insert_ne. }
  assert (Hstep : ∀ d1, load p d1 = load p d →
            ∀ o, (let '(o1, d2) := fs.writeFile tmp (JSON_stringify doc) d1 in
                  match o1 with
                  | Returns _ => fs.rename tmp p d2
                  | Throws e1 => (Throws e1, d2)
                  | Hangs => (Hangs, d2)
                  end) = (Throws o, d') → load p d' = load p d).
  { intros d1 Hd1 o. unfold fs.writeFile.
    assert (Hafter : load p (<[tmp := File (JSON_stringify doc)]> d1) = load p d).
    { unfold load in *. by rewrite lookup_insert_ne. }
    destruct (d1 !! tmp) as [[s| | | |u]|] eqn:Ht; simpl;
      try (intros [= <- <-]; done).
    all: unfold fs.rename; rewrite lookup_insert_eq.
    all: destruct (<[tmp:=File (JSON_stringify doc)]> d1 !! p) as [[s'| | | |u']|];
      simpl; try discriminate; intros [= <- <-]; done. }
  unfold fs.access.
  destruct (d !! dirname p) as [[s| | | |u]|] eqn:Hacc; simpl.
  - apply (Hstep d); auto.
  - apply (Hstep d); auto.
  - by intros [= <- <-].
  - by intros [= <- <-].
  - apply (Hstep d); auto.
  - unfold fs.mkdir. rewrite Hacc.
    destruct (mkdirRejects d (dirname p)); simpl.
    + by intros [= <- <-].
    + apply (Hstep (<[dirname p := Directory]> d)). apply Hdir. by right.
Qed.

(** The document seen after a transaction: the one written when the write
    returned and the codec carries it through, the old one otherwise. *)
Lemma transact_load {A} (path : string)
    (f : gmap string V → Exn + (option (gmap string V) * A)) (d : FS) :
  load path (transact path f d).2 =
    match f (load path d) with
    | inr (Some h', _) =>
        match (FileUtils.writeJsonFile path h' d).1 with
        | Returns _ => default ∅ (JSON_parse (JSON_stringify h'))
        | _ => load path d
        end
    | _ => load path d
    end.
Proof.
  unfold transact. destruct (f (load path d)) as [e|[[h'|] a]]; simpl; try done.
  destruct (FileUtils.writeJsonFile path h' d) as [[[]|e|] d'] eqn:Hw; simpl.
  - unfold load at 1. rewrite (writeJsonFile_returns _ _ _ _ Hw). simpl.
    by destruct (JSON_parse (JSON_stringify h')).
  - by apply (writeJsonFile_fails_load _ _ _ _ _ Hw).
  - pose proof (writeJsonFile_settles path h' d) as Hs. rewrite Hw in Hs. done.
Qed.

End Transactions.

(** ** The operations of JsonDatabase as transactions *)

Section JsonDatabaseFacts.

Context `{!JsonCodec History, !Runtime, !Config}.

Lemma readChatHistory_eq (d : FS) :
  JsonDatabase.readChatHistory d = (Returns (load chatHistoryFile d), d).
Proof.
  unfold JsonDatabase.readChatHistory, tryCatch, mbind, Async_bind, bind, load.
  rewrite readJsonFile_eq. unfold readOutcome.
  destruct (d !! chatHistoryFile) as [[s| | | |u]|]; simpl; try done.
  by destruct (JSON_parse s).
Qed.

Lemma writeChatHistory_eq (h : History) (d : FS) :
  JsonDatabase.writeChatHistory h d = FileUtils.writeJsonFile chatHistoryFile h d.
Proof. unfold JsonDatabase.writeChatHistory. apply tryCatch_rethrow. Qed.

Ltac body_as_transaction :=
  intros r'; unfold mbind, Async_bind, bind, onDisk, mret, Async_ret, ret, throw;
  rewrite readChatHistory_eq; unfold transact; cbv beta iota.

Lemma addMessage_run (now : Z) (K : string) (role content : Json) (metadata : Entry)
    (r : Repo) :
  lockMap r !! K = None →
  JsonDatabase.addMessage now K role content metadata r =
    ((transact chatHistoryFile (addMessage_change now K role content metadata) (disk r)).1,
     withDisk r (transact chatHistoryFile (addMessage_change now K role content metadata) (disk r)).2).
Proof.
  intros HK. unfold JsonDatabase.addMessage.
  apply critical_run; [done| |apply transact_settles].
  body_as_transaction. unfold addMessage_change.
  destruct (JsonDatabase.addMessage_body _ _ _ _ _ _) as [[h' m]|]; simpl.
  - rewrite writeChatHistory_eq.
    by destruct (FileUtils.writeJsonFile _ h' _) as [[[]|e|] d'].
  - reflexivity.
Qed.

Lemma storeContact_run (now : Z) (K contactName : string) (contactNumber relationship : Json)
    (r : Repo) :
  lockMap r !! K = None →
  JsonDatabase.storeContact now K contactName contactNumber relationship r =
    ((transact chatHistoryFile
        (storeContact_change now K contactName contactNumber relationship) (disk r)).1,
     withDisk r (transact chatHistoryFile
        (storeContact_change now K contactName contactNumber relationship) (disk r)).2).
Proof.
  intros HK. unfold JsonDatabase.storeContact.
  apply critical_run; [done| |apply transact_settles].
  body_as_transaction. unfold storeContact_change.
  destruct (JsonDatabase.storeContact_body _ _ _ _ _ _) as [e|[h' c]]; simpl.
  - reflexivity.
  - rewrite writeChatHistory_eq.
    by destruct (FileUtils.writeJsonFile _ h' _) as [[[]|e|] d'].
Qed.

Lemma clearMessagesForSender_run (K : string) (r : Repo) :
  lockMap r !! K = None →
  JsonDatabase.clearMessagesForSender K r =
    ((transact chatHistoryFile (clearMessages_change K) (disk r)).1,
     withDisk r (transact chatHistoryFile (clearMessages_change K) (disk r)).2).
Proof.
  intros HK. unfold JsonDatabase.clearMessagesForSender.
  apply critical_run; [done| |apply transact_settles].
  body_as_transaction. unfold clearMessages_change.
  rewrite writeChatHistory_eq.
  by destruct (FileUtils.writeJsonFile _ _ _) as [[[]|e|] d'].
Qed.

Lemma storeEmotionalContext_run (now : Z) (K : string) (context : Json) (r : Repo) :
  lockMap r !! K = None →
  JsonDatabase.storeEmotionalContext now K context r =
    (Returns tt,
     withDisk r (transact chatHistoryFile
                   (storeEmotionalContext_change now K context) (disk r)).2).
Proof.
  intros HK. unfold JsonDatabase.storeEmotionalContext.
  apply critical_run_quiet; [done| |apply transact_settles].
  body_as_transaction. unfold storeEmotionalContext_change.
  rewrite writeChatHistory_eq.
  by destruct (FileUtils.writeJsonFile _ _ _) as [[[]|e|] d'].
Qed.

End JsonDatabaseFacts.

(** ** The operations of MemoryManager as transactions *)

Section MemoryManagerFacts.

Context `{!JsonCodec Memories, !Runtime}.

Lemma readMemories_eq (d : FS) :
  MemoryManager.readMemories d = (Returns (load MemoryManager.memoryFile d), d).
Proof.
  unfold MemoryManager.readMemories, tryCatch, mbind, Async_bind, bind, load.
  rewrite readJsonFile_eq. unfold readOutcome.
  destruct (d !! MemoryManager.memoryFile) as [[s| | | |u]|]; simpl; try done.
  by destruct (JSON_parse s).
Qed.

Lemma writeMemories_eq (h : Memories) (d : FS) :
  MemoryManager.writeMemories h d = FileUtils.writeJsonFile MemoryManager.memoryFile h d.
Proof. unfold MemoryManager.writeMemories. apply tryCatch_rethrow. Qed.

Ltac body_as_transaction :=
  intros r'; unfold mbind, Async_bind, bind, onDisk, mret, Async_ret, ret, throw;
  rewrite readMemories_eq; unfold transact; cbv beta iota.

Lemma updateMemory_run (now : Z) (K category : string) (data : Json) (merge : bool)
    (r : Repo) :
  lockMap r !! K = None →
  MemoryManager.updateMemory now K category data merge r =
    ((transact MemoryManager.memoryFile
        (updateMemory_change now K category data merge) (disk r)).1,
     withDisk r (transact MemoryManager.memoryFile
        (updateMemory_change now K category data merge) (disk r)).2).
Proof.
  intros HK. unfold MemoryManager.updateMemory.
  apply critical_run; [done| |apply transact_settles].
  body_as_transaction. unfold updateMemory_change.
  destruct (MemoryManager.updateMemory_body now K category data merge
              (load MemoryManager.memoryFile (disk r'))) as [h' profile]; simpl.
  rewrite writeMemories_eq.
  by destruct (FileUtils.writeJsonFile _ h' _) as [[[]|e|] d'].
Qed.

Lemma addToMemoryArray_run (now : Z) (K category subcategory : string) (item : Json)
    (maxItems : Z) (r : Repo) :
  lockMap r !! K = None →
  MemoryManager.addToMemoryArray now K category subcategory item maxItems r =
    ((transact MemoryManager.memoryFile
        (addToMemoryArray_change now K category subcategory item maxItems) (disk r)).1,
     withDisk r (transact MemoryManager.memoryFile
        (addToMemoryArray_change now K category subcategory item maxItems) (disk r)).2).
Proof.
  intros HK. unfold MemoryManager.addToMemoryArray.
  apply critical_run; [done| |apply transact_settles].
  body_as_transaction. unfold addToMemoryArray_change.
  destruct (MemoryManager.addToMemoryArray_body now K category subcategory item maxItems
              (load MemoryManager.memoryFile (disk r'))) as [e|[h' profile]]; simpl.
  - reflexivity.
  - rewrite writeMemories_eq.
    by destruct (FileUtils.writeJsonFile _ h' _) as [[[]|e|] d'].
Qed.

Lemma clearUserMemory_run (K : string) (r : Repo) :
  lockMap r !! K = None →
  MemoryManager.clearUserMemory K r =
    ((transact MemoryManager.memoryFile (clearUserMemory_change K) (disk r)).1,
     withDisk r (transact MemoryManager.memoryFile (clearUserMemory_change K) (disk r)).2).
Proof.
  intros HK. unfold MemoryManager.clearUserMemory.
  apply critical_run; [done| |apply transact_settles].
  body_as_transaction. unfold clearUserMemory_change.
  rewrite writeMemories_eq.
  by destruct (FileUtils.writeJsonFile _ _ _) as [[[]|e|] d'].
Qed.

End MemoryManagerFacts.

(** ** Slices *)

Lemma slice_neg {A} (n : Z) (l : list A) :
  0 < n → slice (- n) None l = lastn (Z.to_nat n) l.
Proof.
  intros Hn. unfold slice, relIndex, lastn.
  destruct (Z.ltb_spec (- n) 0) as [_|?]; [|lia].
  replace (Z.to_nat (Z.max (Z.of_nat (length l) + - n) 0))
    with (length l - Z.to_nat n)%nat by lia.
  apply take_ge. rewrite length_drop. lia.
Qed.

Lemma slice_front {A} (n : Z) (l : list A) :
  0 ≤ n → slice 0 (Some n) l = take (Z.to_nat n) l.
Proof.
  intros Hn. unfold slice, relIndex.
  destruct (Z.ltb_spec 0 0) as [?|_]; [lia|].
  destruct (Z.ltb_spec n 0) as [?|_]; [lia|].
  rewrite (Z.min_l 0) by lia. simpl. rewrite Z.sub_0_r.
  destruct (decide (n ≤ Z.of_nat (length l))) as [Hle|Hgt].
  - rewrite Z.min_l by lia. done.
  - rewrite Z.min_r by lia. rewrite Nat2Z.id.
    change (drop (Z.to_nat 0) l) with l.
    rewrite (take_ge l (length l)) by lia.
    rewrite (take_ge l (Z.to_nat n)) by lia. done.
Qed.

Lemma lastn_all {A} (n : nat) (l : list A) : (length l ≤ n)%nat → lastn n l = l.
Proof. intros Hle. unfold lastn. by replace (length l - n)%nat with 0%nat by lia. Qed.

Lemma lastn_length {A} (n : nat) (l : list A) : length (lastn n l) = Nat.min n (length l).
Proof. unfold lastn. rewrite length_drop. lia. Qed.

Lemma lastn_app {A} (n : nat) (l1 l2 : list A) :
  (n ≤ length l2)%nat → lastn n (l1 ++ l2) = lastn n l2.
Proof.
  intros Hle. unfold lastn. rewrite length_app.
  replace (length l1 + length l2 - n)%nat with (length l1 + (length l2 - n))%nat by lia.
  by rewrite drop_app_add.
Qed.

Lemma lastn_snoc {A} (n : nat) (l : list A) (x : A) :
  (0 < n)%nat → lastn n (lastn n l ++ [x]) = lastn n (l ++ [x]).
Proof.
  intros Hn.
  destruct (decide (length l ≤ n)%nat) as [Hle|Hgt].
  - by rewrite (lastn_all n l).
  - unfold lastn. rewrite !length_app, length_drop. simpl.
    rewrite !drop_app_le by (rewrite ?length_drop; lia).
    rewrite drop_drop. f_equal. f_equal. lia.
Qed.

(** ** addMessage: duplicates and appends *)

Lemma strictEq_string (v : option Json) (s : string) :
  strictEq v (Some (JStr s)) = true ↔ v = Some (JStr s).
Proof.
  destruct v as [[| | |x| |]|]; simpl; try (split; [discriminate|congruence]).
  rewrite String.eqb_eq. split; congruence.
Qed.

Section AddMessage.

Context `{!JsonCodec History, !Runtime, !Config}.

Lemma sameMessage_spec (now : Z) (role content : string) (msg : Entry) :
  JsonDatabase.sameMessage now (JStr role) (JStr content) msg = true ↔
  msg !! "role" = Some (JStr role) ∧ msg !! "content" = Some (JStr content)
  ∧ ∃ t, JsonDatabase.getTime (msg !! "timestamp") = Some t ∧ now - t < 5000.
Proof.
  unfold JsonDatabase.sameMessage, JsonDatabase.stampedWithin5s.
  rewrite !andb_true_iff, !strictEq_string.
  destruct (JsonDatabase.getTime (msg !! "timestamp")) as [t|].
  - rewrite Z.ltb_lt. split.
    + intros [[Hc Hr] Ht]. eauto.
    + intros (Hr & Hc & t' & [= <-] & Ht). auto.
  - split; [intros [_ ?]; discriminate|].
    intros (_ & _ & t' & ? & _). discriminate.
Qed.

Lemma isDuplicate_spec (now : Z) (role content : string) (old : list Entry) :
  existsb (JsonDatabase.sameMessage now (JStr role) (JStr content)) (lastn 5 old) = true
  ↔ Duplicate now role content old.
Proof.
  rewrite existsb_exists. unfold Duplicate. split.
  - intros (msg & Hin & Hsame). apply sameMessage_spec in Hsame as (Hr & Hc & t & Ht & Hlt).
    exists msg, t. rewrite list_elem_of_In. auto.
  - intros (msg & t & Hin & Hr & Hc & Ht & Hlt). exists msg.
    rewrite <- list_elem_of_In. split; [done|]. apply sameMessage_spec. eauto.
Qed.

Lemma ensureSender_lookup (K : string) (h : History) :
  default [] (JsonDatabase.ensureSender K h !! K) = default [] (h !! K).
Proof.
  unfold JsonDatabase.ensureSender. destruct (h !! K) eqn:HK; simpl.
  - by rewrite HK.
  - by rewrite lookup_insert_eq.
Qed.

Lemma insert_ensureSender (K : string) (l : list Entry) (h : History) :
  <[K := l]> (JsonDatabase.ensureSender K h) = <[K := l]> h.
Proof.
  unfold JsonDatabase.ensureSender. destruct (h !! K); [done|].
  by rewrite insert_insert_eq.
Qed.

(** What [addMessage] does to the document it read. *)
Lemma addMessage_body_eq (now : Z) (K : string) (role content : Json) (metadata : Entry)
    (h : History) :
  0 < maxChatHistory →
  JsonDatabase.addMessage_body now K role content metadata h =
    if existsb (JsonDatabase.sameMessage now role content) (lastn 5 (default [] (h !! K)))
       && negb (truthy (metadata !! "forceDuplicate"))
    then None
    else Some (<[K := lastn (Z.to_nat maxChatHistory)
                         (default [] (h !! K)
                          ++ [JsonDatabase.newMessage now role content metadata])]> h,
               JsonDatabase.newMessage now role content metadata).
Proof.
  intros Hmax. unfold JsonDatabase.addMessage_body.
  rewrite ensureSender_lookup.
  change (-5) with (- (5)). rewrite slice_neg by lia.
  change (Z.to_nat 5) with 5%nat.
  destruct (existsb _ _ && negb _); [done|].
  rewrite insert_ensureSender. f_equal. f_equal. f_equal.
  set (pushed := default [] (h !! K) ++ _).
  destruct (Z.gtb_spec (Z.of_nat (length pushed)) maxChatHistory) as [Hgt|Hle].
  - by rewrite slice_neg.
  - rewrite lastn_all; [done|lia].
Qed.

End AddMessage.

(** C5: [addMessage(K, r, c, metadata)], entered with the lock of [K] free.
    When one of the last five entries stored for [K] has role [r], content
    [c] and a timestamp less than five seconds before now, and
    [metadata.forceDuplicate] is not set, the call returns [null] and leaves
    disk and lock map as they were.  Otherwise, once the write returns, the
    call returns the one new entry, which is the last of the entries now kept
    for [K]: the old ones followed by the new one, cut from the old end to
    [maxChatHistory]; this is the document then read back, wherever the
    codec carries it through. *)
Theorem addMessage_dedup `{!JsonCodec History, !Runtime, !Config}
    (now : Z) (K role content : string) (metadata : Entry) (r : Repo) :
  lockMap r !! K = None →
  0 < maxChatHistory →
  let h := load chatHistoryFile (disk r) in
  let old := default [] (h !! K) in
  let message := JsonDatabase.newMessage now (JStr role) (JStr content) metadata in
  let kept := lastn (Z.to_nat maxChatHistory) (old ++ [message]) in
  (Duplicate now role content old → truthy (metadata !! "forceDuplicate") = false →
     JsonDatabase.addMessage now K (JStr role) (JStr content) metadata r = (Returns None, r))
  ∧ (¬ Duplicate now role content old ∨ truthy (metadata !! "forceDuplicate") = true →
     ∀ d', FileUtils.writeJsonFile chatHistoryFile (<[K := kept]> h) (disk r) = (Returns tt, d') →
       JsonDatabase.addMessage now K (JStr role) (JStr content) metadata r
         = (Returns (Some message), withDisk r d')
       ∧ last kept = Some message
       ∧ (∃ evicted, old ++ [message] = evicted ++ kept)
       ∧ (JSON_parse (JSON_stringify (<[K := kept]> h)) = Some (<[K := kept]> h) →
          load chatHistoryFile d' = <[K := kept]> h)).
Proof.
  intros HK Hmax h old message kept. split.
  - intros Hdup Hforce.
    rewrite addMessage_run by done. unfold transact, addMessage_change.
    rewrite addMessage_body_eq by done. fold h old.
    apply isDuplicate_spec in Hdup. rewrite Hdup, Hforce. simpl.
    by rewrite withDisk_same.
  - intros Hnot d' Hw.
    assert (Hcond : existsb (JsonDatabase.sameMessage now (JStr role) (JStr content)) (lastn 5 old)
                    && negb (truthy (metadata !! "forceDuplicate")) = false).
    { apply andb_false_iff. destruct Hnot as [Hnd|Hf].
      - left. apply not_true_is_false. by rewrite isDuplicate_spec.
      - right. by rewrite Hf. }
    repeat split.
    + rewrite addMessage_run by done. unfold transact, addMessage_change.
      rewrite addMessage_body_eq by done. fold h old. rewrite Hcond.
      fold message kept. by rewrite Hw.
    + unfold kept, lastn. rewrite length_app. simpl.
      rewrite drop_app_le by lia. rewrite last_snoc. done.
    + exists (take (length (old ++ [message]) - Z.to_nat maxChatHistory) (old ++ [message])).
      unfold kept, lastn. by rewrite take_drop.
    + intros Hwf. unfold load. rewrite (writeJsonFile_returns _ _ _ _ Hw). simpl.
      by rewrite Hwf.
Qed.

Lemma write_then_read_roundtrip_witness :
  @JSON_parse _ Sample.historyCodec
     (@JSON_stringify _ Sample.historyCodec Sample.aliceSaidHi)
   = Some Sample.aliceSaidHi
  ∧ @FileUtils.writeJsonFile _ Sample.historyCodec Sample.runtime
      "data/chat_history.json" Sample.aliceSaidHi ∅ = (Returns tt, Sample.diskWithHi)
  ∧ @FileUtils.readJsonFile _ Sample.historyCodec
      "data/chat_history.json" ∅ Sample.diskWithHi = (Returns Sample.aliceSaidHi, Sample.diskWithHi).
Proof.
  assert (Hw : @FileUtils.writeJsonFile _ Sample.historyCodec Sample.runtime
      "data/chat_history.json" Sample.aliceSaidHi ∅ = (Returns tt, Sample.diskWithHi))
    by (vm_compute; reflexivity).
  split; [reflexivity|]. split; [exact Hw|].
  exact (@write_then_read_roundtrip _ Sample.historyCodec Sample.runtime
           "data/chat_history.json" Sample.aliceSaidHi ∅ ∅ Sample.diskWithHi eq_refl Hw).
Defined.

Lemma readJsonFile_default_iff_missing_witness :
  Sample.aliceSaidHi ≠ ∅
  ∧ ((∅ : FS) !! "data/chat_history.json" = None
     ↔ ∀ v : History,
         @FileUtils.readJsonFile _ Sample.historyCodec
           "data/chat_history.json" v ∅ = (Returns v, ∅)).
Proof.
  assert (H : Sample.aliceSaidHi ≠ ∅).
  { intros Heq. apply (f_equal (λ m : History, m !! "alice")) in Heq. discriminate Heq. }
  split; [exact H|].
  exact (proj1 (@readJsonFile_default_iff_missing _ Sample.historyCodec
                  "data/chat_history.json" ∅ Sample.aliceSaidHi ∅ H)).
Defined.

Lemma addMessage_dedup_witness :
  lockMap Sample.repoWithHi !! "alice" = None
  ∧ 0 < @maxChatHistory Sample.config
  ∧ @JsonDatabase.addMessage Sample.historyCodec Sample.runtime Sample.config
      3000 "alice" (JStr "user") (JStr "hi") ∅ Sample.repoWithHi
    = (Returns None, Sample.repoWithHi).
Proof.
  assert (Hlock : lockMap Sample.repoWithHi !! "alice" = None) by reflexivity.
  assert (Hmax : 0 < @maxChatHistory Sample.config) by reflexivity.
  split; [exact Hlock|]. split; [exact Hmax|].
  apply (proj1 (@addMessage_dedup Sample.historyCodec Sample.runtime
                  Sample.config 3000 "alice" "user" "hi" ∅ Sample.repoWithHi Hlock Hmax)).
  - exists Sample.hi, 1000. repeat split; try reflexivity.
    vm_compute. left.
  - reflexivity.
Defined.

(** ** The mutating operations, one by one *)

Section Operations.

Context `{!JsonCodec History, !JsonCodec Memories, !Runtime, !Config}.

Lemma runHistoryOp_eq (K : string) (op : HistoryOp) (r : Repo) :
  lockMap r !! K = None →
  runHistoryOp K op r =
    runChange chatHistoryFile (swallows op)
      (historyChange K op (load chatHistoryFile (disk r))) r.
Proof.
  intros HK. destruct op as [now role content md|now cn num rel|now ctx|]; simpl.
  - rewrite addMessage_run by done. unfold forget, transact, addMessage_change, runChange.
    destruct (JsonDatabase.addMessage_body _ _ _ _ _ _) as [[h' m]|]; simpl.
    + by destruct (FileUtils.writeJsonFile _ h' _) as [[[]|e|] d'].
    + by rewrite withDisk_same.
  - rewrite storeContact_run by done.
    unfold forget, transact, storeContact_change, runChange.
    destruct (JsonDatabase.storeContact_body _ _ _ _ _ _) as [e|[h' c]]; simpl.
    + by rewrite withDisk_same.
    + by destruct (FileUtils.writeJsonFile _ h' _) as [[[]|e|] d'].
  - rewrite storeEmotionalContext_run by done.
    unfold forget, transact, storeEmotionalContext_change, runChange. simpl. done.
  - rewrite clearMessagesForSender_run by done.
    unfold forget, transact, clearMessages_change, runChange. simpl.
    by destruct (FileUtils.writeJsonFile _ _ _) as [[[]|e|] d'].
Qed.

Lemma runMemoryOp_eq (K : string) (op : MemoryOp) (r : Repo) :
  lockMap r !! K = None →
  runMemoryOp K op r =
    runChange MemoryManager.memoryFile false
      (memoryChange K op (load MemoryManager.memoryFile (disk r))) r.
Proof.
  intros HK. destruct op as [now cat data merge|now cat sub item maxItems|]; simpl.
  - rewrite updateMemory_run by done.
    unfold forget, transact, updateMemory_change, runChange. simpl.
    by destruct (FileUtils.writeJsonFile _ _ _) as [[[]|e|] d'].
  - rewrite addToMemoryArray_run by done.
    unfold forget, transact, addToMemoryArray_change, runChange.
    destruct (MemoryManager.addToMemoryArray_body now K cat sub item maxItems _)
      as [e|[h' p]]; simpl.
    + by rewrite withDisk_same.
    + by destruct (FileUtils.writeJsonFile _ h' _) as [[[]|e|] d'].
  - rewrite clearUserMemory_run by done.
    unfold forget, transact, clearUserMemory_change, runChange. simpl.
    by destruct (FileUtils.writeJsonFile _ _ _) as [[[]|e|] d'].
Qed.

End Operations.

(** ** Which failures of the store reach the caller *)

(** C1 as amended: entered with the lock of its key free, each of
    [addMessage], [storeContact], [clearMessagesForSender], [updateMemory],
    [addToMemoryArray] and [clearUserMemory] throws to its caller the very
    error that the write of its document throws, and the lock map is then as
    before the call, the key released.  A failure of the read, a parse
    failure included, does not reach the caller: [readChatHistory] and
    [readMemories] return the empty document in its place, and the
    operation goes on from there. *)
Theorem write_errors_propagate
    `{!JsonCodec History, !JsonCodec Memories, !Runtime, !Config}
    (K : string) (r : Repo) :
  lockMap r !! K = None →
  (∀ op h' e d',
     swallows op = false →
     historyChange K op (load chatHistoryFile (disk r)) = inr (Some h') →
     FileUtils.writeJsonFile chatHistoryFile h' (disk r) = (Throws e, d') →
     runHistoryOp K op r = (Throws e, withDisk r d'))
  ∧ (∀ op h' e d',
     memoryChange K op (load MemoryManager.memoryFile (disk r)) = inr (Some h') →
     FileUtils.writeJsonFile MemoryManager.memoryFile h' (disk r) = (Throws e, d') →
     runMemoryOp K op r = (Throws e, withDisk r d'))
  ∧ (∀ e, (FileUtils.readJsonFile chatHistoryFile (∅ : History) (disk r)).1 = Throws e →
     JsonDatabase.readChatHistory (disk r) = (Returns ∅, disk r))
  ∧ (∀ e, (FileUtils.readJsonFile MemoryManager.memoryFile (∅ : Memories) (disk r)).1 = Throws e →
     MemoryManager.readMemories (disk r) = (Returns ∅, disk r)).
Proof.
  intros HK. repeat split.
  - intros op h' e d' Hq Hch Hw.
    rewrite runHistoryOp_eq by done. rewrite Hch, Hq. simpl. by rewrite Hw.
  - intros op h' e d' Hch Hw.
    rewrite runMemoryOp_eq by done. rewrite Hch. simpl. by rewrite Hw.
  - intros e He. rewrite readChatHistory_eq. unfold load.
    rewrite readJsonFile_eq in He. simpl in He. by rewrite He.
  - intros e He. rewrite readMemories_eq. unfold load.
    rewrite readJsonFile_eq in He. simpl in He. by rewrite He.
Qed.

Lemma write_errors_propagate_witness :
  lockMap lockedOut !! "alice" = None
  ∧ @runHistoryOp Sample.historyCodec Sample.runtime Sample.config
      "alice" (AddMessage 1000 (JStr "user") (JStr "hi") ∅) lockedOut
    = (Throws (FsError EACCES), lockedOut).
Proof.
  assert (Hlock : lockMap lockedOut !! "alice" = None) by reflexivity.
  split; [exact Hlock|].
  refine (proj1 (@write_errors_propagate Sample.historyCodec
                   Sample.memoryCodec Sample.runtime Sample.config
                   "alice" lockedOut Hlock)
            (AddMessage 1000 (JStr "user") (JStr "hi") ∅) Sample.aliceSaidHi
            (FsError EACCES) (disk lockedOut) eq_refl _ _).
  - vm_compute. reflexivity.
  - vm_compute. reflexivity.
Defined.

(** C1 as claimed fails.  The history file holds text that is not JSON:
    [readJsonFile] throws the parse error, and [readChatHistory] and
    [readMemories] return [{}].  The directory cannot be entered:
    [writeJsonFile] throws EACCES, and [storeEmotionalContext] returns. *)
Lemma errors_propagate_counterexample :
  let codec := Sample.historyCodec in
  let codec' := Sample.memoryCodec in
  let broken : FS :=
    <["data/user_memories.json" := File "{ not json"]>
      (<["data/chat_history.json" := File "{ not json"]> ∅) in
  (@FileUtils.readJsonFile _ codec "data/chat_history.json" ∅ broken).1 = Throws SyntaxError
  ∧ (@JsonDatabase.readChatHistory codec Sample.config broken).1 = Returns ∅
  ∧ (@FileUtils.readJsonFile _ codec' "data/user_memories.json" ∅ broken).1 = Throws SyntaxError
  ∧ (@MemoryManager.readMemories codec' broken).1 = Returns ∅
  ∧ (@FileUtils.writeJsonFile _ codec Sample.runtime "data/chat_history.json"
       (@JsonDatabase.storeEmotionalContext_body Sample.runtime 1000 "alice" JNull ∅)
       (disk lockedOut)).1 = Throws (FsError EACCES)
  ∧ (@JsonDatabase.storeEmotionalContext codec Sample.runtime Sample.config
       1000 "alice" JNull lockedOut).1 = Returns tt.
Proof. vm_compute. repeat split; reflexivity. Qed.

(** ** The steps of a write *)

Section WriteSteps.

Context {Doc : Type} `{!JsonCodec Doc, !Runtime}.

Lemma ensureDir_cases (p : string) (d : FS) :
  (FileUtils.ensureDir p d = (Returns tt, d) ∧ is_Some (d !! p))
  ∨ (FileUtils.ensureDir p d = (Returns tt, <[p := Directory]> d) ∧ d !! p = None)
  ∨ (∃ e, FileUtils.ensureDir p d = (Throws e, d)).
Proof.
  unfold FileUtils.ensureDir, tryCatch, fs.access, fs.mkdir, throw.
  destruct (d !! p) as [[s| | | |u]|] eqn:Hd; simpl; rewrite ?Hd; simpl; eauto.
  destruct (mkdirRejects d p); eauto.
Qed.

Lemma writeFile_cases (p s : string) (d : FS) :
  fs.writeFile p s d = (Returns tt, <[p := File s]> d)
  ∨ (∃ e, fs.writeFile p s d = (Throws e, d)).
Proof.
  unfold fs.writeFile. destruct (d !! p) as [[]|]; eauto.
Qed.

Lemma rename_cases (src dst : string) (d : FS) :
  (∃ n, d !! src = Some n ∧ fs.rename src dst d = (Returns tt, <[dst := n]> (delete src d)))
  ∨ (∃ e, fs.rename src dst d = (Throws e, d)).
Proof.
  unfold fs.rename.
  destruct (d !! src) as [[]|]; destruct (d !! dst) as [[]|]; eauto.
Qed.

Lemma writeJsonFile_steps (p : string) (doc : Doc) (d : FS) :
  let tmp := String.append p ".tmp" in
  ∃ d1, (d1 = d ∨ (d !! dirname p = None ∧ d1 = <[dirname p := Directory]> d))
    ∧ ((∃ e, FileUtils.writeJsonFile p doc d = (Throws e, d) ∧ d1 = d)
       ∨ (∃ e, FileUtils.writeJsonFile p doc d = (Throws e, d1))
       ∨ (∃ e, FileUtils.writeJsonFile p doc d
               = (Throws e, <[tmp := File (JSON_stringify doc)]> d1))
       ∨ (is_Some (d1 !! dirname p)
          ∧ FileUtils.writeJsonFile p doc d
          = (Returns tt, <[p := File (JSON_stringify doc)]>
                           (delete tmp (<[tmp := File (JSON_stringify doc)]> d1))))).
Proof.
  intros tmp. unfold FileUtils.writeJsonFile. rewrite tryCatch_rethrow.
  unfold mbind, Async_bind, bind. fold tmp.
  destruct (ensureDir_cases (dirname p) d) as [[-> Hs]|[[-> Hn]|[e ->]]].
  - exists d. split; [by left|].
    destruct (writeFile_cases tmp (JSON_stringify doc) d) as [->|[e ->]]; [|eauto].
    destruct (rename_cases tmp p (<[tmp := File (JSON_stringify doc)]> d))
      as [(n & Hn & ->)|[e ->]]; [|eauto 6].
    rewrite lookup_insert_eq in Hn. injection Hn as <-. right; right; right. done.
  - exists (<[dirname p := Directory]> d). split; [by right|].
    destruct (writeFile_cases tmp (JSON_stringify doc) (<[dirname p := Directory]> d))
      as [->|[e ->]]; [|eauto].
    destruct (rename_cases tmp p
                (<[tmp := File (JSON_stringify doc)]> (<[dirname p := Directory]> d)))
      as [(n & Hn' & ->)|[e ->]]; [|eauto 6].
    rewrite lookup_insert_eq in Hn'. injection Hn' as <-. right; right; right.
    split; [|done]. rewrite lookup_insert_eq. eauto.
  - exists d. split; [by left|]. left. eauto.
Qed.

(** A write that throws has not touched the path: only the rename does. *)
Lemma writeJsonFile_throws_path (p : string) (doc : Doc) (d d' : FS) (e : Exn) :
  dirname p ≠ p →
  FileUtils.writeJsonFile p doc d = (Throws e, d') →
  d' !! p = d !! p.
Proof.
  intros Hdir Hw.
  assert (Htmp : String.append p ".tmp" ≠ p) by apply append_tmp_ne.
  destruct (writeJsonFile_steps p doc d) as (d1 & Hd1 & Hcases).
  assert (H1 : d1 !! p = d !! p).
  { destruct Hd1 as [->|[_ ->]]; [done|]. by rewrite lookup_insert_ne. }
  destruct Hcases as [(e' & He & _)|[(e' & He)|[(e' & He)|[_ He]]]];
    rewrite He in Hw; try discriminate; injection Hw as <- <-.
  - done.
  - done.
  - by rewrite lookup_insert_ne.
Qed.

End WriteSteps.

(** ** What an operation leaves alone *)

Lemma load_after_write {V} `{!JsonCodec (gmap string V), !Runtime}
    (path : string) (h' : gmap string V) (d : FS) :
  load path (FileUtils.writeJsonFile path h' d).2 =
    match (FileUtils.writeJsonFile path h' d).1 with
    | Returns _ => default ∅ (JSON_parse (JSON_stringify h'))
    | _ => load path d
    end.
Proof.
  destruct (FileUtils.writeJsonFile path h' d) as [[[]|e|] d'] eqn:Hw; simpl.
  - unfold load. rewrite (writeJsonFile_returns _ _ _ _ Hw). simpl.
    by destruct (JSON_parse (JSON_stringify h')).
  - by apply (writeJsonFile_fails_load _ _ _ _ _ Hw).
  - pose proof (writeJsonFile_settles path h' d) as Hs. rewrite Hw in Hs. done.
Qed.

(** The document seen after a run: the one written, if the write returned,
    and the one seen before in every other case. *)
Lemma load_after_runChange {V} `{!JsonCodec (gmap string V), !Runtime}
    (path : string) (quiet : bool) (change : Exn + option (gmap string V)) (r : Repo) :
  (∀ h', change = inr (Some h') → JSON_parse (JSON_stringify h') = Some h') →
  load path (disk (runChange path quiet change r).2) = load path (disk r)
  ∨ ∃ h', change = inr (Some h') ∧ load path (disk (runChange path quiet change r).2) = h'.
Proof.
  intros Hwf. destruct change as [e|[h'|]]; simpl; [by left| |by left].
  rewrite load_after_write.
  destruct (FileUtils.writeJsonFile path h' (disk r)).1; [|by left..].
  right. exists h'. by rewrite (Hwf h' eq_refl).
Qed.

Section Stored.

Context {V : Type} `{!JsonCodec (gmap string V), !Runtime}.

(** Where the file holds a document, that is the document the repository
    reads. *)
Lemma stored_load (path : string) (d : FS) (h : gmap string V) :
  stored path d = Some h → load path d = h.
Proof.
  unfold stored, load. destruct (readOutcome ∅ (d !! path)); [|done..].
  by intros [= ->].
Qed.

Lemma stored_after_write (path : string) (h h' : gmap string V) (d : FS) :
  dirname path ≠ path →
  stored path d = Some h →
  stored path (FileUtils.writeJsonFile path h' d).2 =
    match (FileUtils.writeJsonFile path h' d).1 with
    | Returns _ => JSON_parse (JSON_stringify h')
    | _ => Some h
    end.
Proof.
  intros Hdir Hst.
  pose proof (writeJsonFile_settles path h' d) as Hsettles.
  destruct (FileUtils.writeJsonFile path h' d) as [[[]|e|] d'] eqn:Hw; simpl in *.
  - unfold stored, readOutcome. rewrite (writeJsonFile_returns _ _ _ _ Hw).
    by destruct (JSON_parse (JSON_stringify h')).
  - unfold stored in *. by rewrite (writeJsonFile_throws_path _ _ _ _ _ Hdir Hw).
  - done.
Qed.

(** The document the file holds after a run: the one written, if the write
    returned, and the one it held before in every other case. *)
Lemma stored_after_runChange (path : string) (quiet : bool)
    (change : Exn + option (gmap string V)) (h : gmap string V) (r : Repo) :
  dirname path ≠ path →
  stored path (disk r) = Some h →
  (∀ h', change = inr (Some h') → JSON_parse (JSON_stringify h') = Some h') →
  stored path (disk (runChange path quiet change r).2) = Some h
  ∨ ∃ h', change = inr (Some h')
          ∧ stored path (disk (runChange path quiet change r).2) = Some h'.
Proof.
  intros Hdir Hst Hwf. destruct change as [e|[h'|]]; simpl; [by left| |by left].
  rewrite (stored_after_write path h h') by done.
  destruct (FileUtils.writeJsonFile path h' (disk r)).1; [|by left..].
  right. exists h'. by rewrite (Hwf h' eq_refl).
Qed.

End Stored.

Section Frame.

Context `{!JsonCodec History, !JsonCodec Memories, !Runtime, !Config}.

Lemma ensureSender_other (K K' : string) (h : History) :
  K' ≠ K → JsonDatabase.ensureSender K h !! K' = h !! K'.
Proof.
  intros Hne. unfold JsonDatabase.ensureSender.
  destruct (h !! K); [done|]. by rewrite lookup_insert_ne.
Qed.

Lemma historyChange_frame (K K' : string) (op : HistoryOp) (h h' : History) :
  K' ≠ K → historyChange K op h = inr (Some h') → h' !! K' = h !! K'.
Proof.
  intros Hne. destruct op as [now role content md|now cn num rel|now ctx|]; simpl.
  - unfold JsonDatabase.addMessage_body.
    destruct (existsb _ _ && negb _); simpl; [discriminate|].
    intros [= <-]. rewrite lookup_insert_ne by done. by apply ensureSender_other.
  - unfold JsonDatabase.storeContact_body.
    destruct (findIndexE _ _) as [e|i]; [discriminate|].
    intros [= <-]. rewrite lookup_insert_ne by done. by apply ensureSender_other.
  - unfold JsonDatabase.storeEmotionalContext_body.
    intros [= <-]. rewrite lookup_insert_ne by done. by apply ensureSender_other.
  - intros [= <-]. by rewrite lookup_delete_ne.
Qed.

Lemma memoryChange_frame (K K' : string) (op : MemoryOp) (h h' : Memories) :
  K' ≠ K → memoryChange K op h = inr (Some h') → h' !! K' = h !! K'.
Proof.
  intros Hne. destruct op as [now cat data merge|now cat sub item maxItems|]; simpl.
  - intros [= <-]. by rewrite lookup_insert_ne.
  - unfold MemoryManager.addToMemoryArray_body.
    destruct (MemoryManager.addToCategory _ _ _ _ _) as [e|v]; [discriminate|].
    intros [= <-]. by rewrite lookup_insert_ne.
  - intros [= <-]. by rewrite lookup_delete_ne.
Qed.

End Frame.

(** C10 as amended: the history file and the memory file each hold a
    document, that is, nothing is at the path or the file there can be read
    and its text parses.  Then an operation on the key [K], entered with the
    lock of [K] free and run on its own, leaves the file holding a document,
    and under every other key that document holds what the file held before,
    for each of [addMessage], [storeContact], [storeEmotionalContext],
    [clearMessagesForSender], [updateMemory], [addToMemoryArray] and
    [clearUserMemory]; and clearing a key that the document does not hold
    leaves the file holding the same document.  The document the operation
    writes is taken to pass the codec unchanged, and the directory of each
    file to differ from the file. *)
Theorem other_keys_unchanged
    `{!JsonCodec History, !JsonCodec Memories, !Runtime, !Config}
    (K K' : string) (r : Repo) :
  lockMap r !! K = None →
  K' ≠ K →
  dirname chatHistoryFile ≠ chatHistoryFile →
  dirname MemoryManager.memoryFile ≠ MemoryManager.memoryFile →
  (∀ op (h : History),
     stored chatHistoryFile (disk r) = Some h →
     (∀ h', historyChange K op h = inr (Some h') →
            JSON_parse (JSON_stringify h') = Some h') →
     ∃ h1 : History,
       stored chatHistoryFile (disk (runHistoryOp K op r).2) = Some h1
       ∧ h1 !! K' = h !! K')
  ∧ (∀ op (h : Memories),
     stored MemoryManager.memoryFile (disk r) = Some h →
     (∀ h', memoryChange K op h = inr (Some h') →
            JSON_parse (JSON_stringify h') = Some h') →
     ∃ h1 : Memories,
       stored MemoryManager.memoryFile (disk (runMemoryOp K op r).2) = Some h1
       ∧ h1 !! K' = h !! K')
  ∧ (∀ h : History, stored chatHistoryFile (disk r) = Some h → h !! K = None →
     JSON_parse (JSON_stringify h) = Some h →
     stored chatHistoryFile (disk (runHistoryOp K ClearMessagesForSender r).2) = Some h)
  ∧ (∀ h : Memories, stored MemoryManager.memoryFile (disk r) = Some h → h !! K = None →
     JSON_parse (JSON_stringify h) = Some h →
     stored MemoryManager.memoryFile (disk (runMemoryOp K ClearUserMemory r).2) = Some h).
Proof.
  intros HK Hne Hdir Hdir'. split_and!.
  - intros op h Hst Hwf. rewrite runHistoryOp_eq by done.
    rewrite (stored_load _ _ _ Hst).
    destruct (stored_after_runChange chatHistoryFile (swallows op) _ h r Hdir Hst Hwf)
      as [->|(h' & Hch & ->)]; [by exists h|].
    exists h'. split; [done|]. by apply (historyChange_frame K K' op).
  - intros op h Hst Hwf. rewrite runMemoryOp_eq by done.
    rewrite (stored_load _ _ _ Hst).
    destruct (stored_after_runChange MemoryManager.memoryFile false _ h r Hdir' Hst Hwf)
      as [->|(h' & Hch & ->)]; [by exists h|].
    exists h'. split; [done|]. by apply (memoryChange_frame K K' op).
  - intros h Hst Hnone Hwf. rewrite runHistoryOp_eq by done. simpl.
    rewrite (stored_load _ _ _ Hst), (delete_id h K Hnone).
    rewrite (stored_after_write chatHistoryFile h h) by done. rewrite Hwf.
    by destruct (FileUtils.writeJsonFile chatHistoryFile h (disk r)).1.
  - intros h Hst Hnone Hwf. rewrite runMemoryOp_eq by done. simpl.
    rewrite (stored_load _ _ _ Hst), (delete_id h K Hnone).
    rewrite (stored_after_write MemoryManager.memoryFile h h) by done. rewrite Hwf.
    by destruct (FileUtils.writeJsonFile MemoryManager.memoryFile h (disk r)).1.
Qed.

Lemma bob_writes :
  @historyChange Sample.runtime Sample.config "bob"
     (AddMessage 2000 (JStr "user") (JStr "yo") ∅) Sample.aliceSaidHi
  = inr (Some Sample.both).
Proof. vm_compute. reflexivity. Qed.

Lemma both_text : @JSON_stringify _ Sample.historyCodec Sample.both = "alice+bob".
Proof. vm_compute. reflexivity. Qed.

(** Alice has said hi, and Bob says yo: the file then holds both. *)
Lemma other_keys_unchanged_witness :
  lockMap Sample.repoWithHi !! "bob" = None
  ∧ "alice" ≠ "bob"
  ∧ @dirname Sample.runtime "data/chat_history.json" ≠ "data/chat_history.json"
  ∧ @dirname Sample.runtime "data/user_memories.json" ≠ "data/user_memories.json"
  ∧ @stored _ Sample.historyCodec "data/chat_history.json" (disk Sample.repoWithHi)
    = Some Sample.aliceSaidHi
  ∧ ∃ h1 : History,
      @stored _ Sample.historyCodec "data/chat_history.json"
        (disk (@runHistoryOp Sample.historyCodec Sample.runtime Sample.config "bob"
                 (AddMessage 2000 (JStr "user") (JStr "yo") ∅) Sample.repoWithHi).2)
      = Some h1
      ∧ h1 !! "alice" = Sample.aliceSaidHi !! "alice".
Proof.
  assert (Hlock : lockMap Sample.repoWithHi !! "bob" = None) by reflexivity.
  assert (Hne : "alice" ≠ "bob") by discriminate.
  assert (Hdir : @dirname Sample.runtime "data/chat_history.json" ≠ "data/chat_history.json")
    by discriminate.
  assert (Hdir' : @dirname Sample.runtime "data/user_memories.json" ≠ "data/user_memories.json")
    by discriminate.
  assert (Hst : @stored _ Sample.historyCodec "data/chat_history.json"
                  (disk Sample.repoWithHi) = Some Sample.aliceSaidHi) by reflexivity.
  split; [exact Hlock|]. split; [exact Hne|]. split; [exact Hdir|]. split; [exact Hdir'|].
  split; [exact Hst|].
  refine (proj1 (@other_keys_unchanged Sample.historyCodec Sample.memoryCodec
                   Sample.runtime Sample.config "bob" "alice" Sample.repoWithHi
                   Hlock Hne Hdir Hdir')
            (AddMessage 2000 (JStr "user") (JStr "yo") ∅) Sample.aliceSaidHi Hst _).
  intros h' Hch. rewrite bob_writes in Hch. injection Hch as <-.
  rewrite both_text. reflexivity.
Defined.

(** C10 as claimed fails.  The history file holds Alice's line and has lost
    its permissions: [readChatHistory] catches EACCES and returns [{}], and
    [addMessage] for Bob, entered with Bob's lock free and run on its own,
    returns after it has written a document that holds Bob's line only over
    the file.  What was stored under Alice's key is gone. *)
Lemma other_keys_lost_counterexample :
  let codec := Sample.historyCodec in
  let r := Sample.repoWithHiUnreadable in
  let run := @JsonDatabase.addMessage codec Sample.runtime Sample.config 2000 "bob"
               (JStr "user") (JStr "yo") ∅ r in
  lockMap r !! "bob" = None
  ∧ disk r !! "data/chat_history.json" = Some (Unreadable "alice")
  ∧ @JSON_parse _ codec "alice" = Some Sample.aliceSaidHi
  ∧ Sample.aliceSaidHi !! "alice" = Some [Sample.hi]
  ∧ run.1 = Returns (Some Sample.yo)
  ∧ disk run.2 !! "data/chat_history.json" = Some (File "bob")
  ∧ @JSON_parse _ codec "bob" = Some Sample.bobSaidYo
  ∧ Sample.bobSaidYo !! "alice" = None
  ∧ lockMap run.2 = lockMap r.
Proof. cbv zeta. repeat split; vm_compute; reflexivity. Qed.

(** ** Capped arrays *)

Lemma lastn_lastn_app {A} (n : nat) (l k : list A) :
  lastn n (lastn n l ++ k) = lastn n (l ++ k).
Proof.
  destruct (decide (length l ≤ n)%nat) as [Hle|Hgt].
  - by rewrite (lastn_all n l).
  - unfold lastn. rewrite !length_app, length_drop.
    destruct (decide (length k ≤ n)%nat) as [Hk|Hk].
    + rewrite !drop_app_le by (rewrite ?length_drop; lia).
      rewrite drop_drop. f_equal. f_equal. lia.
    + rewrite !drop_app_ge by (rewrite ?length_drop; lia).
      rewrite length_drop. f_equal. lia.
Qed.

Lemma take_cons_take {A} (n : nat) (x : A) (l : list A) :
  take n (x :: take n l) = take n (x :: l).
Proof.
  destruct n as [|n]; [done|]. simpl. f_equal.
  rewrite take_take. f_equal. lia.
Qed.

Section Capped.

Context `{!Runtime, !Config}.

Lemma addMessages_stored (K : string) (calls : list (Z * Json * Json * Entry)) (h : History) :
  0 < maxChatHistory →
  (addMessages K calls h).2 ≠ [] →
  (addMessages K calls h).1 !! K =
    Some (lastn (Z.to_nat maxChatHistory) (default [] (h !! K) ++ (addMessages K calls h).2)).
Proof.
  intros Hmax. revert h.
  induction calls as [|[[[now role] content] md] calls IH]; intros h; simpl; [done|].
  rewrite addMessage_body_eq by done.
  destruct (existsb _ _ && negb _); simpl; [apply IH|].
  intros _.
  set (m := JsonDatabase.newMessage now role content md).
  set (h' := <[K := _]> h).
  destruct (decide ((addMessages K calls h').2 = [])) as [Hnil|Hcons].
  - rewrite Hnil.
    assert (Hsame : (addMessages K calls h').1 = h').
    { clear -Hnil. revert h' Hnil. induction calls as [|[[[n r] c] d] calls IH];
        intros h'; simpl; [done|].
      destruct (JsonDatabase.addMessage_body n K r c d h') as [[h'' m']|]; simpl;
        [discriminate|apply IH]. }
    rewrite Hsame. unfold h'. by rewrite lookup_insert_eq.
  - rewrite (IH h' Hcons). unfold h' at 1. rewrite lookup_insert_eq. simpl.
    f_equal. rewrite lastn_lastn_app. by rewrite <- app_assoc.
Qed.

Lemma unshiftCapped_eq (item : Json) (maxItems : Z) (arr : list Json) :
  0 ≤ maxItems →
  MemoryManager.unshiftCapped item maxItems arr = take (Z.to_nat maxItems) (item :: arr).
Proof.
  intros Hmax. unfold MemoryManager.unshiftCapped.
  destruct (Z.gtb_spec (Z.of_nat (length (item :: arr))) maxItems) as [Hgt|Hle].
  - by apply slice_front.
  - rewrite take_ge; [done|lia].
Qed.

Lemma addToMemoryArray_body_object (now : Z) (K category subcategory : string)
    (item : Json) (maxItems : Z) (h : Memories) :
  0 ≤ maxItems →
  category ≠ "lastUpdated" →
  objectOrFalsy (MemoryManager.profileOf now K h !! category) →
  ∃ h' p,
    MemoryManager.addToMemoryArray_body now K category subcategory item maxItems h
      = inr (h', p)
    ∧ h' !! K = Some p
    ∧ (∃ m, p !! category = Some (JObj m))
    ∧ subArray category subcategory p =
        take (Z.to_nat maxItems)
          (MemoryManager.itemWithTimestamp now item
           :: subArray category subcategory (MemoryManager.profileOf now K h)).
Proof.
  intros Hmax Hcat Hok. unfold MemoryManager.addToMemoryArray_body.
  set (p0 := MemoryManager.profileOf now K h) in *.
  assert (Hcur : ∃ m, (if truthy (p0 !! category) then default (JObj ∅) (p0 !! category)
                       else JObj ∅) = JObj m
                 ∧ MemoryManager.arrayOr (m !! subcategory) = subArray category subcategory p0).
  { unfold subArray. destruct Hok as [Hf|[m Hm]].
    - rewrite Hf. exists ∅. split; [done|].
      destruct (p0 !! category) as [[| | | | |m]|]; simpl in *; try done.
    - rewrite Hm. simpl. by exists m. }
  destruct Hcur as (m & -> & Harr). simpl.
  eexists _, _. split; [reflexivity|].
  split; [by rewrite lookup_insert_eq|].
  unfold MemoryManager.touch, subArray.
  rewrite lookup_insert_ne by done. rewrite lookup_insert_eq.
  split; [by eexists|].
  rewrite lookup_insert_eq. simpl. rewrite unshiftCapped_eq by done. by rewrite Harr.
Qed.

Lemma addItems_from (K category subcategory : string) (maxItems : Z)
    (items : list (Z * Json)) (h : Memories) (p : Profile) (arr : list Json) :
  0 ≤ maxItems →
  category ≠ "lastUpdated" →
  h !! K = Some p →
  (∃ m, p !! category = Some (JObj m)) →
  subArray category subcategory p = take (Z.to_nat maxItems) arr →
  ∃ h' p',
    addItems K category subcategory maxItems items h = inr h'
    ∧ h' !! K = Some p'
    ∧ subArray category subcategory p' =
        take (Z.to_nat maxItems) (rev (stamped items) ++ arr).
Proof.
  intros Hmax Hcat. revert h p arr.
  induction items as [|[now item] items IH]; intros h p arr HK Hobj Harr.
  - exists h, p. by repeat split.
  - assert (Hp : MemoryManager.profileOf now K h = p).
    { unfold MemoryManager.profileOf. by rewrite HK. }
    destruct (addToMemoryArray_body_object now K category subcategory item maxItems h
                Hmax Hcat) as (h1 & p1 & Hstep & HK1 & Hobj1 & Harr1).
    { rewrite Hp. by right. }
    simpl. rewrite Hstep.
    rewrite Hp, Harr, take_cons_take in Harr1.
    destruct (IH h1 p1 _ HK1 Hobj1 Harr1) as (h' & p' & Hrun & HK' & Harr').
    exists h', p'. repeat split; [done..|].
    rewrite Harr'. unfold stamped. simpl. rewrite <- app_assoc. done.
Qed.

End Capped.

(** C6: a capped array keeps the newest.  After more appended messages than
    [maxChatHistory], the history of a key holds exactly [maxChatHistory]
    entries, the most recent ones in the order of their insertion, newest
    last.  After more calls of [addToMemoryArray] than [maxItems] on a
    subcategory of a category that holds an object (or a falsy value, which
    the code replaces by one), the array holds exactly [maxItems] items, the
    most recent ones, newest first.  In both, what is dropped is older than
    everything kept. *)
Theorem capped_arrays_keep_newest `{!Runtime, !Config} (K : string) :
  0 < maxChatHistory →
  (∀ calls h,
     (Z.to_nat maxChatHistory < length (addMessages K calls h).2)%nat →
     (addMessages K calls h).1 !! K
       = Some (lastn (Z.to_nat maxChatHistory) (addMessages K calls h).2)
     ∧ length (lastn (Z.to_nat maxChatHistory) (addMessages K calls h).2)
       = Z.to_nat maxChatHistory)
  ∧ (∀ category subcategory maxItems items h,
     0 ≤ maxItems →
     category ≠ "lastUpdated" →
     (∀ now, objectOrFalsy (MemoryManager.profileOf now K h !! category)) →
     (Z.to_nat maxItems < length items)%nat →
     ∃ h' p,
       addItems K category subcategory maxItems items h = inr h'
       ∧ h' !! K = Some p
       ∧ subArray category subcategory p = take (Z.to_nat maxItems) (rev (stamped items))
       ∧ length (subArray category subcategory p) = Z.to_nat maxItems).
Proof.
  intros Hmax. split.
  - intros calls h HM. split.
    + rewrite addMessages_stored; [|done|].
      * f_equal. apply lastn_app. lia.
      * intros Hnil. rewrite Hnil in HM. simpl in HM. lia.
    + rewrite lastn_length. lia.
  - intros category subcategory maxItems items h Hmax' Hcat Hok HM.
    destruct items as [|[now item] items]; [simpl in HM; lia|].
    destruct (addToMemoryArray_body_object now K category subcategory item maxItems h
                Hmax' Hcat (Hok now)) as (h1 & p1 & Hstep & HK1 & Hobj1 & Harr1).
    destruct (addItems_from K category subcategory maxItems items h1 p1 _
                Hmax' Hcat HK1 Hobj1 Harr1) as (h' & p' & Hrun & HK' & Harr').
    exists h', p'. simpl. rewrite Hstep.
    assert (Hlen : length (rev (stamped items) ++ [MemoryManager.itemWithTimestamp now item])
                   = S (length items)).
    { rewrite length_app, length_rev. unfold stamped. rewrite length_fmap. simpl. lia. }
    assert (Heq : subArray category subcategory p' =
                  take (Z.to_nat maxItems) (rev (stamped ((now, item) :: items)))).
    { rewrite Harr'. unfold stamped at 2. simpl.
      change ((λ c : Z * Json, MemoryManager.itemWithTimestamp c.1 c.2) <$> items)
        with (stamped items).
      replace (rev (stamped items) ++
               MemoryManager.itemWithTimestamp now item
               :: subArray category subcategory (MemoryManager.profileOf now K h))
        with ((rev (stamped items) ++ [MemoryManager.itemWithTimestamp now item])
              ++ subArray category subcategory (MemoryManager.profileOf now K h))
        by (by rewrite <- app_assoc).
      rewrite take_app_le; [done|]. rewrite Hlen. simpl in HM. lia. }
    repeat split; [done..| |].
    + exact Heq.
    + rewrite Heq. rewrite length_take. unfold stamped. simpl.
      rewrite length_app, length_rev, length_fmap. simpl in *. lia.
Qed.

Lemma capped_arrays_keep_newest_witness :
  0 < @maxChatHistory capTwo
  ∧ (@addMessages Sample.runtime capTwo "alice" threeCalls ∅).1 !! "alice"
    = Some [ @JsonDatabase.newMessage Sample.runtime 2000 (JStr "assistant") (JStr "two") ∅;
             @JsonDatabase.newMessage Sample.runtime 3000 (JStr "user") (JStr "three") ∅ ].
Proof.
  assert (Hmax : 0 < @maxChatHistory capTwo) by reflexivity.
  split; [exact Hmax|].
  refine (proj1 (proj1 (@capped_arrays_keep_newest Sample.runtime capTwo "alice" Hmax)
                   threeCalls ∅ _)).
  vm_compute. lia.
Defined.

(** ** The lock under interleaving *)

Section LockFacts.

Context {Doc : Type}.
Implicit Types (w : Tasks.World Doc) (t : Tasks.Task Doc) (s : Tasks.Status Doc).

Lemma lookup_setStatus w i j t s s' :
  Tasks.pool w !! i = Some (t, s) →
  Tasks.setStatus i t s' w !! j = if decide (i = j) then Some (t, s') else Tasks.pool w !! j.
Proof.
  intros Hi. unfold Tasks.setStatus. destruct (decide (i = j)) as [<-|Hne].
  - apply list_lookup_insert_eq. by eapply lookup_lt_Some.
  - by apply list_lookup_insert_ne.
Qed.

Lemma fst_setStatus w i t s s' :
  Tasks.pool w !! i = Some (t, s) → fst <$> Tasks.setStatus i t s' w = fst <$> Tasks.pool w.
Proof.
  intros Hi. unfold Tasks.setStatus. rewrite list_fmap_insert. simpl.
  apply list_insert_id. rewrite list_lookup_fmap, Hi. done.
Qed.

Lemma start_inv (d : Doc) ts : LockInv ts (Tasks.start d ts).
Proof.
  split; simpl.
  - rewrite <- list_fmap_compose. simpl. apply list_fmap_id.
  - intros k. rewrite lookup_empty. split; [by intros [? ?]|].
    intros (i & t & s & Hi & Hs & _). rewrite list_lookup_fmap in Hi.
    destruct (ts !! i); simplify_eq/=.
  - intros i j ti si tj sj Hi _ Hs. rewrite list_lookup_fmap in Hi.
    destruct (ts !! i); simplify_eq/=.
Qed.

(** A stretch that keeps the task inside (or outside) its critical section
    and does not touch the lock map. *)
Lemma inv_same_holds ts w i t s s' (f : Doc) (tmp : option Doc) :
  LockInv ts w →
  Tasks.pool w !! i = Some (t, s) →
  Tasks.holds s' = Tasks.holds s →
  LockInv ts {| Tasks.file := f; Tasks.temp := tmp; Tasks.locks := Tasks.locks w;
                Tasks.pool := Tasks.setStatus i t s' w |}.
Proof.
  intros [Htasks Hmarked Hexcl] Hi Hholds. split; simpl.
  - by rewrite (fst_setStatus w i t s s').
  - intros k. rewrite Hmarked. split.
    + intros (j & tj & sj & Hj & Hs & Hk). destruct (decide (i = j)) as [<-|Hne].
      * exists i, t, s'. rewrite (lookup_setStatus w i i t s s') by done.
        rewrite decide_True by done. simplify_eq. by rewrite Hholds.
      * exists j, tj, sj. rewrite (lookup_setStatus w i j t s s') by done.
        by rewrite decide_False.
    + intros (j & tj & sj & Hj & Hs & Hk).
      rewrite (lookup_setStatus w i j t s s') in Hj by done.
      destruct (decide (i = j)) as [<-|Hne]; simplify_eq.
      * exists i, tj, s. by rewrite <- Hholds.
      * by exists j, tj, sj.
  - intros j1 j2 t1 s1 t2 s2 H1 H2 Hs1 Hs2 Hk.
    rewrite (lookup_setStatus w i j1 t s s') in H1 by done.
    rewrite (lookup_setStatus w i j2 t s s') in H2 by done.
    destruct (decide (i = j1)) as [<-|Hne1], (decide (i = j2)) as [<-|Hne2];
      simplify_eq; try done.
    all: eapply Hexcl; eauto; congruence.
Qed.

Lemma step_inv ts w w' i :
  LockInv ts w → Tasks.stepTask i w = Some w' → LockInv ts w'.
Proof.
  intros Hinv. pose proof Hinv as [Htasks Hmarked Hexcl].
  unfold Tasks.stepTask.
  destruct (Tasks.pool w !! i) as [[t s]|] eqn:Hi; [|discriminate].
  destruct s as [| |copy| |r|r].
  - (* acquire *)
    destruct (has (Tasks.key t) (Tasks.locks w)) eqn:Hhas; [discriminate|].
    intros [= <-].
    assert (Hfree : Tasks.locks w !! Tasks.key t = None).
    { unfold has in Hhas. apply bool_decide_eq_false in Hhas.
      by apply eq_None_not_Some. }
    assert (Hnone : ∀ j tj sj, Tasks.pool w !! j = Some (tj, sj) →
              Tasks.holds sj = true → Tasks.key tj ≠ Tasks.key t).
    { intros j tj sj Hj Hs Hk.
      assert (is_Some (Tasks.locks w !! Tasks.key t)) as [? ?]
        by (apply Hmarked; eauto 6). congruence. }
    split; simpl.
    + by rewrite (fst_setStatus w i t Tasks.Polling).
    + intros k. rewrite lookup_insert. destruct (decide (Tasks.key t = k)) as [<-|Hk].
      * split; [|by eauto]. intros _. exists i, t, Tasks.Holding.
        rewrite (lookup_setStatus w i i t Tasks.Polling) by done.
        by rewrite decide_True.
      * rewrite Hmarked. split.
        -- intros (j & tj & sj & Hj & Hs & Hkj). exists j, tj, sj.
           rewrite (lookup_setStatus w i j t Tasks.Polling) by done.
           destruct (decide (i = j)) as [<-|]; simplify_eq/=; done.
        -- intros (j & tj & sj & Hj & Hs & Hkj).
           rewrite (lookup_setStatus w i j t Tasks.Polling) in Hj by done.
           destruct (decide (i = j)) as [<-|]; simplify_eq/=. eauto 6.
    + intros j1 j2 t1 s1 t2 s2 H1 H2 Hs1 Hs2 Hk.
      rewrite (lookup_setStatus w i j1 t Tasks.Polling) in H1 by done.
      rewrite (lookup_setStatus w i j2 t Tasks.Polling) in H2 by done.
      destruct (decide (i = j1)) as [<-|Hne1], (decide (i = j2)) as [<-|Hne2];
        simplify_eq; try done.
      * by destruct (Hnone _ _ _ H2 Hs2).
      * by destruct (Hnone _ _ _ H1 Hs1).
      * eapply Hexcl; eauto.
  - intros [= <-]. by apply (inv_same_holds ts w i t Tasks.Holding).
  - destruct (Tasks.update t copy); intros [= <-];
      by apply (inv_same_holds ts w i t (Tasks.Read copy)).
  - destruct (Tasks.temp w); intros [= <-];
      by apply (inv_same_holds ts w i t Tasks.Staged).
  - (* release *)
    intros [= <-]. split; simpl.
    + by rewrite (fst_setStatus w i t (Tasks.Settled r)).
    + intros k. rewrite lookup_delete. destruct (decide (Tasks.key t = k)) as [<-|Hk].
      * split; [by intros [? ?]|].
        intros (j & tj & sj & Hj & Hs & Hkj).
        rewrite (lookup_setStatus w i j t (Tasks.Settled r)) in Hj by done.
        destruct (decide (i = j)) as [<-|Hne]; simplify_eq/=.
        destruct Hne. eapply Hexcl; eauto.
      * rewrite Hmarked. split.
        -- intros (j & tj & sj & Hj & Hs & Hkj). exists j, tj, sj.
           rewrite (lookup_setStatus w i j t (Tasks.Settled r)) by done.
           destruct (decide (i = j)) as [<-|]; simplify_eq/=; done.
        -- intros (j & tj & sj & Hj & Hs & Hkj).
           rewrite (lookup_setStatus w i j t (Tasks.Settled r)) in Hj by done.
           destruct (decide (i = j)) as [<-|]; simplify_eq/=. eauto 6.
    + intros j1 j2 t1 s1 t2 s2 H1 H2 Hs1 Hs2 Hk.
      rewrite (lookup_setStatus w i j1 t (Tasks.Settled r)) in H1 by done.
      rewrite (lookup_setStatus w i j2 t (Tasks.Settled r)) in H2 by done.
      destruct (decide (i = j1)) as [<-|Hne1], (decide (i = j2)) as [<-|Hne2];
        simplify_eq/=; try done.
      eapply Hexcl; eauto.
  - discriminate.
Qed.

Lemma run_inv ts (schedule : list nat) w :
  LockInv ts w → LockInv ts (Tasks.run schedule w).
Proof.
  revert w. induction schedule as [|i schedule IH]; intros w Hinv; simpl; [done|].
  apply IH. destruct (Tasks.stepTask i w) as [w'|] eqn:Hstep; simpl; [|done].
  by eapply step_inv.
Qed.

End LockFacts.

(** C7: in every world that a schedule reaches from the start, no two tasks
    are inside the critical section of one key; a task that polls a key
    which no task holds takes it at its next turn, whichever other keys are
    held at that moment; and [releaseLock] of a key that is not marked
    changes nothing. *)
Theorem lock_one_holder_per_key {Doc : Type} (d : Doc) (ts : list (Tasks.Task Doc))
    (schedule : list nat) :
  let w := Tasks.run schedule (Tasks.start d ts) in
  (∀ i j ti si tj sj,
     Tasks.pool w !! i = Some (ti, si) → Tasks.pool w !! j = Some (tj, sj) →
     Tasks.holds si = true → Tasks.holds sj = true →
     Tasks.key ti = Tasks.key tj → i = j)
  ∧ (∀ i t,
     Tasks.pool w !! i = Some (t, Tasks.Polling) →
     (∀ j tj sj, Tasks.pool w !! j = Some (tj, sj) → Tasks.holds sj = true →
                 Tasks.key tj ≠ Tasks.key t) →
     ∃ w', Tasks.stepTask i w = Some w'
           ∧ Tasks.pool w' !! i = Some (t, Tasks.Holding)
           ∧ Tasks.locks w' = <[Tasks.key t := true]> (Tasks.locks w))
  ∧ (∀ k (r : Repo), lockMap r !! k = None → releaseLock k r = (Returns tt, r)).
Proof.
  intros w.
  assert (Hinv : LockInv ts w) by apply run_inv, start_inv.
  destruct Hinv as [Htasks Hmarked Hexcl]. repeat split.
  - exact Hexcl.
  - intros i t Hi Hnone. unfold Tasks.stepTask. rewrite Hi.
    assert (Hfree : Tasks.locks w !! Tasks.key t = None).
    { apply eq_None_not_Some. intros Hsome. apply Hmarked in Hsome.
      destruct Hsome as (j & tj & sj & Hj & Hs & Hk). by destruct (Hnone j tj sj). }
    rewrite (has_free _ _ Hfree). eexists. split; [reflexivity|]. simpl. split; [|done].
    rewrite (lookup_setStatus w i i t Tasks.Polling) by done. by rewrite decide_True.
  - intros k r Hk. unfold releaseLock, modify. rewrite (delete_id _ _ Hk). by destruct r.
Qed.

(** ** Operations on one key are serialized *)

Section Serial.

Context {Doc : Type}.
Implicit Types (w : Tasks.World Doc) (t : Tasks.Task Doc) (s : Tasks.Status Doc).
Implicit Types (pool : list (Tasks.Task Doc * Tasks.Status Doc)).




Variable d0 : Doc.
Variable K : string.




End Serial.

Section SerialSteps.

Context {Doc : Type}.
Implicit Types (w : Tasks.World Doc) (t : Tasks.Task Doc) (s : Tasks.Status Doc).
Variable d0 : Doc.
Variable K : string.




End SerialSteps.

(** ** Two keys, one file *)

Section Race.

Context {Doc : Type}.
Implicit Types (t : Tasks.Task Doc) (d : Doc).






End Race.





(** ** The key pool *)

Section PoolFacts.

Import GeminiClient.

Implicit Types (c : Client).

Lemma leastUsed_fold c (l : list nat) (b : nat) :
  ∃ k, foldl (leastUsedStep c) (Some b, usage c (Some b)) l = (Some k, usage c (Some k))
    ∧ k ∈ b :: l
    ∧ (∀ j, j ∈ b :: l → usage c (Some k) ≤ usage c (Some j))
    ∧ (k ≠ b → usage c (Some k) < usage c (Some b))
    ∧ (StronglySorted lt (b :: l) →
       ∀ j, j ∈ b :: l → usage c (Some j) = usage c (Some k) → (k ≤ j)%nat).
Proof.
  revert b. induction l as [|j0 l IH]; intros b.
  - exists b. cbn [foldl]. split; [done|]. split; [by left|]. split; [|split].
    + intros j Hj. apply list_elem_of_singleton in Hj. subst. lia.
    + done.
    + intros _ j Hj _. apply list_elem_of_singleton in Hj. subst. lia.
  - cbn [foldl]. unfold leastUsedStep at 2. cbn [snd].
    destruct (Z.ltb_spec (usage c (Some j0)) (usage c (Some b))) as [Hlt|Hge].
    + destruct (IH j0) as (k & Hfold & Hin & Hmin & Hne & Htie).
      exists k. split; [done|]. split; [by right|]. split; [|split].
      * intros j Hj. apply elem_of_cons in Hj as [->|Hj]; [|by apply Hmin].
        specialize (Hmin j0 ltac:(by left)). lia.
      * intros _. specialize (Hmin j0 ltac:(by left)). lia.
      * intros Hsorted j Hj Heq. apply elem_of_cons in Hj as [->|Hj].
        -- specialize (Hmin j0 ltac:(by left)). lia.
        -- apply Htie; [|done..]. by inversion Hsorted.
    + destruct (IH b) as (k & Hfold & Hin & Hmin & Hne & Htie).
      exists k. split; [done|]. split; [|split; [|split]].
      * apply elem_of_cons in Hin as [->|Hin]; [by left|by right; right].
      * intros j Hj. apply elem_of_cons in Hj as [->|Hj].
        { apply Hmin. by left. }
        apply elem_of_cons in Hj as [->|Hj].
        { specialize (Hmin b ltac:(by left)).
          destruct (decide (k = b)) as [->|Hkb]; [done|]. specialize (Hne Hkb). lia. }
        apply Hmin. by right.
      * done.
      * intros Hsorted j Hj Heq.
        assert (Hsorted' : StronglySorted lt (b :: l)).
        { inversion Hsorted as [|? ? Hs Hall]; subst. inversion Hs; subst.
          constructor; [done|]. by inversion Hall. }
        apply elem_of_cons in Hj as [->|Hj].
        { apply Htie; [done|by left|done]. }
        apply elem_of_cons in Hj as [->|Hj].
        { destruct (decide (k = b)) as [->|Hkb].
          - inversion Hsorted as [|? ? _ Hall]; subst. inversion Hall; subst. lia.
          - specialize (Hne Hkb). lia. }
        apply Htie; [done|by right|done].
Qed.

(** The key [getLeastUsedKey] picks from a non-empty array of candidates. *)
Lemma getLeastUsedKey_spec c (given : option (list nat)) (b : nat) (l : list nat) :
  default (clients c) given = b :: l →
  ∃ k, getLeastUsedKey given c = Some k
    ∧ k ∈ b :: l
    ∧ (∀ j, j ∈ b :: l → usage c (Some k) ≤ usage c (Some j))
    ∧ (StronglySorted lt (b :: l) →
       ∀ j, j ∈ b :: l → usage c (Some j) = usage c (Some k) → (k ≤ j)%nat).
Proof.
  intros Hkeys. unfold getLeastUsedKey. rewrite Hkeys. cbn [head foldl].
  unfold leastUsedStep at 2. cbn [snd]. rewrite Z.ltb_irrefl.
  destruct (leastUsed_fold c l b) as (k & -> & Hin & Hmin & _ & Htie).
  exists k. by repeat split.
Qed.

Lemma filter_sorted (f : nat → bool) (l : list nat) :
  StronglySorted lt l → StronglySorted lt (List.filter f l).
Proof.
  induction 1 as [|x l Hs IH Hall]; simpl; [constructor|].
  destruct (f x); [|done]. constructor; [done|].
  rewrite Forall_forall in *. intros y Hy.
  apply list_elem_of_In, filter_In in Hy as [Hy _]. apply Hall. by apply list_elem_of_In.
Qed.

Lemma availableKeys_spec c (k : nat) :
  k ∈ availableKeys c ↔ k ∈ clients c ∧ k ∉ failedKeys c.
Proof.
  unfold availableKeys. rewrite !list_elem_of_In, filter_In, bool_decide_eq_true. done.
Qed.

End PoolFacts.

Section PoolStates.

Import GeminiClient.

Implicit Types (c : Client).

Lemma sorted_snoc (l : list nat) (x : nat) :
  StronglySorted lt l → (∀ y, y ∈ l → (y < x)%nat) → StronglySorted lt (l ++ [x]).
Proof.
  induction 1 as [|y l Hs IH Hall]; intros Hlt; simpl.
  - repeat constructor.
  - constructor.
    + apply IH. intros z Hz. apply Hlt. by right.
    + apply Forall_app. split; [done|]. constructor; [|constructor].
      apply Hlt. by left.
Qed.

Lemma initializeFrom_sorted (index : nat) (oks : list bool) c :
  StronglySorted lt (clients c) →
  (∀ k, k ∈ clients c → (k < index)%nat) →
  StronglySorted lt (clients (initializeFrom index oks c)).
Proof.
  revert index c. induction oks as [|ok oks IH]; intros index c Hs Hlt; simpl; [done|].
  apply IH; destruct ok; simpl.
  - by apply sorted_snoc.
  - done.
  - intros k Hk. apply elem_of_app in Hk as [Hk|Hk].
    + specialize (Hlt k Hk). lia.
    + apply list_elem_of_singleton in Hk. lia.
  - intros k Hk. specialize (Hlt k Hk). lia.
Qed.

(** The constructor leaves a pool with at least one client, the clients in
    the order of their indices. *)
Lemma initializeClients_spec (oks : list bool) c0 :
  initializeClients oks = inr c0 → clients c0 ≠ [] ∧ StronglySorted lt (clients c0).
Proof.
  unfold initializeClients.
  destruct (Nat.eqb_spec (length (clients (initializeFrom 0 oks emptyClient))) 0)
    as [Hz|Hnz]; [discriminate|].
  intros [= <-]. split.
  - intros Hnil. by rewrite Hnil in Hnz.
  - apply initializeFrom_sorted; simpl; [constructor|]. intros k Hk. by inversion Hk.
Qed.

Lemma availableKeys_nil c :
  availableKeys c = [] ↔ ∀ j, j ∈ clients c → j ∈ failedKeys c.
Proof.
  split.
  - intros Hnil j Hj. destruct (decide (j ∈ failedKeys c)) as [|Hnot]; [done|].
    assert (j ∈ availableKeys c) as Hin by (by apply availableKeys_spec).
    rewrite Hnil in Hin. by inversion Hin.
  - intros Hall. destruct (availableKeys c) as [|k l] eqn:Hav; [done|].
    assert (k ∈ availableKeys c) as Hin by (rewrite Hav; by left).
    apply availableKeys_spec in Hin as [Hk Hnot]. by destruct (Hnot (Hall k Hk)).
Qed.

End PoolStates.

(** C8: in every state of a pool that the constructor has set up,
    [getNextKeyIndex] returns a client.  While some client is not marked as
    failed, it returns the one of them with the lowest usage count, the
    lowest index among equals, and leaves the pool as it is.  When every
    client is marked, it clears all the marks and returns the least used
    client of all, again the lowest index among equals. *)
Theorem selection_least_used (oks : list bool) (c0 c : Client) :
  GeminiClient.initializeClients oks = inr c0 →
  clients c = clients c0 →
  ∃ k, (GeminiClient.getNextKeyIndex c).1 = Some k
    ∧ k ∈ clients c
    ∧ ((∃ j, j ∈ clients c ∧ j ∉ failedKeys c) →
       (k ∉ failedKeys c)
       ∧ (∀ j, j ∈ clients c → j ∉ failedKeys c →
            GeminiClient.usage c (Some k) ≤ GeminiClient.usage c (Some j)
            ∧ (GeminiClient.usage c (Some j) = GeminiClient.usage c (Some k) → (k ≤ j)%nat))
       ∧ (GeminiClient.getNextKeyIndex c).2 = c)
    ∧ ((∀ j, j ∈ clients c → j ∈ failedKeys c) →
       (∀ j, j ∈ clients c →
            GeminiClient.usage c (Some k) ≤ GeminiClient.usage c (Some j)
            ∧ (GeminiClient.usage c (Some j) = GeminiClient.usage c (Some k) → (k ≤ j)%nat))
       ∧ failedKeys (GeminiClient.getNextKeyIndex c).2 = ∅
       ∧ (GeminiClient.getNextKeyIndex c).2 = GeminiClient.clearFailed c).
Proof.
  intros Hinit Hclients.
  destruct (initializeClients_spec oks c0 Hinit) as [Hne Hsorted].
  rewrite <- Hclients in Hne, Hsorted.
  unfold GeminiClient.getNextKeyIndex.
  destruct (GeminiClient.availableKeys c) as [|b l] eqn:Hav; cbn [length Nat.eqb].
  - (* every client is marked *)
    pose proof (proj1 (availableKeys_nil c) Hav) as Hall.
    destruct (clients c) as [|b l] eqn:Hcl; [done|].
    destruct (getLeastUsedKey_spec (GeminiClient.clearFailed c) None b l)
      as (k & Hget & Hin & Hmin & Htie); [by simpl; rewrite Hcl|].
    exists k. split; [done|]. split; [done|]. split.
    + intros (j & Hj & Hnot). by destruct (Hnot (Hall j Hj)).
    + intros _. split; [|done]. intros j Hj. split; [by apply Hmin|by apply Htie].
  - (* some client is not marked *)
    destruct (getLeastUsedKey_spec c (Some (b :: l)) b l)
      as (k & Hget & Hin & Hmin & Htie); [done|].
    assert (Hsorted' : StronglySorted lt (b :: l)).
    { rewrite <- Hav. unfold GeminiClient.availableKeys. by apply filter_sorted. }
    assert (Hmem : ∀ j, j ∈ b :: l ↔ j ∈ clients c ∧ j ∉ failedKeys c).
    { intros j. rewrite <- Hav. apply availableKeys_spec. }
    exists k. split; [done|]. split; [by apply Hmem|]. split.
    + intros _. split; [by apply Hmem|]. split; [|done].
      intros j Hj Hnot. assert (j ∈ b :: l) by (by apply Hmem).
      split; [by apply Hmin|by apply Htie].
    + intros Hall. apply Hmem in Hin as [Hk Hnot]. by destruct (Hnot (Hall k Hk)).
Qed.

Lemma selection_least_used_witness :
  GeminiClient.initializeClients [true; true; true]
    = inr (GeminiClient.initializeFrom 0 [true; true; true] GeminiClient.emptyClient)
  ∧ clients threeKeys
    = clients (GeminiClient.initializeFrom 0 [true; true; true] GeminiClient.emptyClient)
  ∧ ∃ k, (GeminiClient.getNextKeyIndex threeKeys).1 = Some k ∧ k ∈ clients threeKeys.
Proof.
  assert (H1 : GeminiClient.initializeClients [true; true; true]
    = inr (GeminiClient.initializeFrom 0 [true; true; true] GeminiClient.emptyClient))
    by reflexivity.
  assert (H2 : clients threeKeys
    = clients (GeminiClient.initializeFrom 0 [true; true; true] GeminiClient.emptyClient))
    by reflexivity.
  split; [exact H1|]. split; [exact H2|].
  destruct (selection_least_used _ _ threeKeys H1 H2) as (k & Hk & Hin & _).
  exists k. by split.
Defined.

Example selection_example : (GeminiClient.getNextKeyIndex threeKeys).1 = Some 1%nat.
Proof. vm_compute. reflexivity. Qed.

(** ** The retry loop *)

Section RetryFacts.

Import GeminiClient.

Context `{!Service}.
Implicit Types (c : Client) (g : Gen).

Lemma getNextKeyIndex_valid c :
  clients c ≠ [] →
  ∃ k, (getNextKeyIndex c).1 = Some k
    ∧ k ∈ clients (getNextKeyIndex c).2
    ∧ clients (getNextKeyIndex c).2 = clients c.
Proof.
  intros Hne. unfold getNextKeyIndex.
  destruct (availableKeys c) as [|b l] eqn:Hav; cbn [length Nat.eqb].
  - destruct (clients c) as [|b l] eqn:Hcl; [done|].
    destruct (getLeastUsedKey_spec (clearFailed c) None b l)
      as (k & Hget & Hin & _); [by simpl; rewrite Hcl|].
    exists k. simpl. by rewrite Hcl.
  - destruct (getLeastUsedKey_spec c (Some (b :: l)) b l) as (k & Hget & Hin & _); [done|].
    exists k. simpl. split; [done|]. split; [|done].
    rewrite <- Hav in Hin. by apply availableKeys_spec in Hin as [? _].
Qed.

Lemma attemptsMade_snoc g (e : Event) (c' : Client) (conv : list Turn) :
  attemptsMade {| pool := c'; conversation := conv; events := events g ++ [e] |}
  = (attemptsMade g + if isAttempt e then 1 else 0)%nat.
Proof.
  unfold attemptsMade. simpl. rewrite List.filter_app, length_app. simpl.
  by destruct (isAttempt e).
Qed.

Lemma retryLoop_step (maxRetries : nat) (ms : option string) (remaining attempts : nat)
    (lastError : option Exn) g :
  clients (pool g) ≠ [] →
  ∃ k c,
    getNextKeyIndex (pool g) = (Some k, c) ∧ clients c = clients (pool g)
    ∧ retryLoop maxRetries ms (S remaining) attempts lastError g =
      match (request attempts ms (conversation g)).2 with
      | inr text =>
          (Returns text,
           {| pool := trackKeyUsage k (startedAt attempts) c;
              conversation := (request attempts ms (conversation g)).1;
              events := events g ++ [Attempt k] |})
      | inl error =>
          retryLoop maxRetries ms remaining (S attempts) (Some error)
            (afterFailure maxRetries attempts g k c
               (request attempts ms (conversation g)).1 error)
      end.
Proof.
  intros Hne. destruct (getNextKeyIndex_valid (pool g) Hne) as (k & Hk & Hin & Hcl).
  destruct (getNextKeyIndex (pool g)) as [ok c] eqn:Hnext. simpl in Hk, Hin, Hcl. subst ok.
  exists k, c. split; [done|]. split; [done|].
  cbn [retryLoop]. rewrite Hnext. rewrite bool_decide_eq_true_2 by done.
  destruct (request attempts ms (conversation g)) as [conv' [e|text]]; reflexivity.
Qed.

Lemma afterFailure_attempts (maxRetries attempts : nat) g k c conv e :
  attemptsMade (afterFailure maxRetries attempts g k c conv e) = S (attemptsMade g).
Proof.
  unfold afterFailure, attemptsMade. simpl.
  destruct (S attempts <? maxRetries)%nat;
    rewrite ?List.filter_app, ?length_app; simpl; lia.
Qed.

Lemma afterFailure_clients (maxRetries attempts : nat) g k c conv e :
  clients (pool (afterFailure maxRetries attempts g k c conv e)) = clients c.
Proof. unfold afterFailure. simpl. by destruct (quarantines (messageOf e)). Qed.

Lemma retryLoop_exhausts (maxRetries : nat) (ms : option string) (remaining : nat) :
  ∀ attempts lastError g es,
    clients (pool g) ≠ [] →
    outcomes ms attempts remaining (conversation g) = inl <$> es →
    ∃ g', retryLoop maxRetries ms remaining attempts lastError g =
            (match (if last es is Some e then Some e else lastError) with
             | Some e => Throws (exhausted maxRetries e)
             | None => Throws TypeError
             end, g')
          ∧ attemptsMade g' = (attemptsMade g + remaining)%nat.
Proof.
  induction remaining as [|remaining IH]; intros attempts lastError g es Hne Hout.
  - destruct es; [|discriminate]. exists g. simpl. split; [|lia].
    by destruct lastError.
  - destruct (retryLoop_step maxRetries ms remaining attempts lastError g Hne)
      as (k & c & Hnext & Hcl & ->).
    simpl in Hout. destruct es as [|e es]; [discriminate|]. simpl in Hout.
    injection Hout as Hr Hrest. rewrite Hr.
    destruct (IH (S attempts) (Some e)
                (afterFailure maxRetries attempts g k c
                   (request attempts ms (conversation g)).1 e) es)
      as (g' & -> & Hcount).
    + rewrite afterFailure_clients. congruence.
    + done.
    + exists g'. split.
      * destruct es as [|e' es]; [done|]. simpl.
        destruct (last (e' :: es)) eqn:Hlast; [done|].
        by apply last_None in Hlast.
      * rewrite Hcount, afterFailure_attempts. lia.
Qed.

Lemma retryLoop_succeeds (maxRetries : nat) (ms : option string) (es : list Exn) :
  ∀ remaining attempts lastError g text,
    clients (pool g) ≠ [] →
    (length es < remaining)%nat →
    outcomes ms attempts (S (length es)) (conversation g) = (inl <$> es) ++ [inr text] →
    ∃ g', retryLoop maxRetries ms remaining attempts lastError g = (Returns text, g')
          ∧ attemptsMade g' = (attemptsMade g + S (length es))%nat.
Proof.
  induction es as [|e es IH]; intros remaining attempts lastError g text Hne Hlt Hout.
  - destruct remaining as [|remaining]; [simpl in Hlt; lia|].
    destruct (retryLoop_step maxRetries ms remaining attempts lastError g Hne)
      as (k & c & Hnext & Hcl & ->).
    simpl in Hout. injection Hout as Hr. rewrite Hr.
    eexists. split; [reflexivity|]. rewrite attemptsMade_snoc. simpl. lia.
  - destruct remaining as [|remaining]; [simpl in Hlt; lia|].
    destruct (retryLoop_step maxRetries ms remaining attempts lastError g Hne)
      as (k & c & Hnext & Hcl & ->).
    cbn [outcomes length fmap list_fmap app] in Hout.
    injection Hout as Hr Hrest. rewrite Hr.
    destruct (IH remaining (S attempts) (Some e)
                (afterFailure maxRetries attempts g k c
                   (request attempts ms (conversation g)).1 e) text)
      as (g' & -> & Hcount).
    + rewrite afterFailure_clients. congruence.
    + simpl in Hlt. lia.
    + done.
    + exists g'. split; [done|]. rewrite Hcount, afterFailure_attempts. simpl. lia.
Qed.

End RetryFacts.

Lemma length_zero_empty (s : string) : (String.length s =? 0)%nat = true ↔ s = "".
Proof. destruct s; simpl; split; try done. Qed.

Lemma blank_test (full : string) :
  String.eqb full "" || (String.length (trim full) =? 0)%nat = true ↔ trim full = "".
Proof.
  rewrite orb_true_iff, String.eqb_eq, length_zero_empty. split; [|by right].
  intros [->|H]; done.
Qed.

(** An attempt succeeds exactly when the request can be put together and the
    service answers with a text that is not blank; what it yields is that
    text trimmed. *)
Lemma request_succeeds_iff `{!GeminiClient.Service} (i : nat) (ms : option string)
    (conv : list GeminiClient.Turn) (text : string) :
  (GeminiClient.request i ms conv).2 = inr text ↔
  ∃ conv' history message full,
    GeminiClient.prepare (GeminiClient.contextInfo (GeminiClient.startedAt i) ms) conv
      = inr (conv', history, message)
    ∧ GeminiClient.sendMessage i history message = GeminiClient.Text full
    ∧ trim full ≠ ""
    ∧ text = trim full.
Proof.
  unfold GeminiClient.request.
  destruct (GeminiClient.prepare _ conv) as [e|[[conv' history] message]]; simpl.
  - split; [discriminate|]. intros (? & ? & ? & ? & ? & _). discriminate.
  - destruct (GeminiClient.sendMessage i history message) as [full|e] eqn:Hsend.
    + destruct (String.eqb full "" || (String.length (trim full) =? 0)%nat) eqn:Hblank.
      * apply blank_test in Hblank. split; [discriminate|].
        intros (? & ? & ? & full' & [= <- <- <-] & Hs & Hne & _).
        rewrite Hsend in Hs. injection Hs as <-. done.
      * assert (trim full ≠ "") as Hne.
        { intros Heq. apply blank_test in Heq. congruence. }
        split.
        -- intros [= <-]. by exists conv', history, message, full.
        -- intros (? & ? & ? & full' & [= <- <- <-] & Hs & _ & ->).
           rewrite Hsend in Hs. by injection Hs as <-.
    + split; [discriminate|].
      intros (? & ? & ? & full' & [= <- <- <-] & Hs & _). rewrite Hsend in Hs. discriminate.
Qed.

(** C9: a pool that the constructor has set up, and [maxRetries = R ≥ 1].
    If each of the [R] attempts fails, by an exception or by a reply that is
    empty or blank, [generateContent] makes exactly [R] attempts and throws
    the error whose message ends with the message of the last of these
    failures.  If the attempts before the [k]-th fail and the [k]-th, with
    [k ≤ R], gets a reply that is not blank, it returns that reply trimmed,
    after exactly [k] attempts. *)
Theorem generateContent_attempts `{!GeminiClient.Service}
    (oks : list bool) (c0 c : Client) (conv : list GeminiClient.Turn)
    (ms : option string) (R : nat) :
  GeminiClient.initializeClients oks = inr c0 →
  clients c = clients c0 →
  (1 ≤ R)%nat →
  (∀ es, outcomes ms 0 R conv = inl <$> es →
     ∃ e g, last es = Some e
       ∧ GeminiClient.generateContent conv ms R c = (Throws (exhausted R e), g)
       ∧ GeminiClient.attemptsMade g = R)
  ∧ (∀ es text,
     (length es < R)%nat →
     outcomes ms 0 (S (length es)) conv = (inl <$> es) ++ [inr text] →
     ∃ g, GeminiClient.generateContent conv ms R c = (Returns text, g)
       ∧ GeminiClient.attemptsMade g = S (length es)
       ∧ ∃ full, text = trim full ∧ text ≠ "")
  ∧ (∀ i conv' e,
     (GeminiClient.request i ms conv').2 = inl e →
     ∀ conv'' history message,
       GeminiClient.prepare (GeminiClient.contextInfo (GeminiClient.startedAt i) ms) conv'
         = inr (conv'', history, message) →
       GeminiClient.sendMessage i history message = GeminiClient.Fails e
       ∨ ∃ full, GeminiClient.sendMessage i history message = GeminiClient.Text full
                 ∧ trim full = "" ∧ e = Error "Empty response from Gemini API").
Proof.
  intros Hinit Hclients HR.
  destruct (initializeClients_spec oks c0 Hinit) as [Hne _]. rewrite <- Hclients in Hne.
  repeat apply conj.
  - intros es Hout.
    destruct (retryLoop_exhausts R ms R 0 None
                {| GeminiClient.pool := c; GeminiClient.conversation := conv;
                   GeminiClient.events := [] |} es Hne Hout) as (g & Hrun & Hcount).
    assert (Hlen : length es = R).
    { apply (f_equal length) in Hout. rewrite length_fmap in Hout. rewrite <- Hout.
      clear. generalize 0%nat. generalize conv. induction R as [|n IH]; intros; simpl; [done|].
      by rewrite IH. }
    destruct (last es) as [e|] eqn:Hlast.
    + exists e, g. by repeat split.
    + apply last_None in Hlast. subst es. simpl in Hlen. lia.
  - intros es text Hlt Hout.
    destruct (retryLoop_succeeds R ms es R 0 None
                {| GeminiClient.pool := c; GeminiClient.conversation := conv;
                   GeminiClient.events := [] |} text Hne Hlt Hout) as (g & Hrun & Hcount).
    exists g. split; [done|]. split; [done|].
    assert (Hlast : ∃ i conv', (GeminiClient.request i ms conv').2 = inr text).
    { clear -Hout. revert Hout. generalize 0%nat. generalize conv.
      induction es as [|e es IH]; intros conv0 start Hout.
      - simpl in Hout. injection Hout as Hr. eauto.
      - cbn [outcomes length fmap list_fmap app] in Hout.
        injection Hout as _ Hrest. by apply (IH _ _ Hrest). }
    destruct Hlast as (i & conv' & Hreq).
    apply request_succeeds_iff in Hreq as (_ & _ & _ & full & _ & _ & Hnb & ->).
    by exists full.
  - intros i conv' e Hreq conv'' history message Hprep.
    unfold GeminiClient.request in Hreq. rewrite Hprep in Hreq. simpl in Hreq.
    destruct (GeminiClient.sendMessage i history message) as [full|e'].
    + right. exists full. split; [done|].
      destruct (String.eqb full "" || (String.length (trim full) =? 0)%nat) eqn:Hblank;
        [|discriminate].
      apply blank_test in Hblank. injection Hreq as <-. done.
    + left. by injection Hreq as <-.
Qed.

Lemma thirdTimeLucky_outcomes :
  @outcomes thirdTimeLucky None 0 3 askHello
  = (inl <$> [Error "quota exceeded"; Error "quota exceeded"]) ++ [inr "hello there"].
Proof. vm_compute. reflexivity. Qed.

Lemma generateContent_attempts_witness :
  GeminiClient.initializeClients [true; true] = inr twoKeys
  ∧ clients twoKeys = clients twoKeys
  ∧ (1 ≤ 3)%nat
  ∧ ∃ g, @GeminiClient.generateContent thirdTimeLucky askHello None 3 twoKeys
           = (Returns "hello there", g)
         ∧ GeminiClient.attemptsMade g = 3%nat.
Proof.
  assert (H1 : GeminiClient.initializeClients [true; true] = inr twoKeys) by reflexivity.
  assert (H2 : clients twoKeys = clients twoKeys) by reflexivity.
  assert (H3 : (1 ≤ 3)%nat) by lia.
  split; [exact H1|]. split; [exact H2|]. split; [exact H3|].
  destruct (proj1 (proj2 (@generateContent_attempts thirdTimeLucky [true; true] twoKeys
                            twoKeys askHello None 3 H1 H2 H3))
              [Error "quota exceeded"; Error "quota exceeded"] "hello there"
              ltac:(simpl; lia) thirdTimeLucky_outcomes) as (g & Hrun & Hcount & _).
  exists g. by split.
Defined.

(** With two attempts allowed the same run is exhausted, and both keys are
    marked as failed on the way. *)
Example exhausted_after_two :
  (@GeminiClient.generateContent thirdTimeLucky askHello None 2 twoKeys).1
  = Throws (Error "Failed to generate content after 2 attempts: quota exceeded").
Proof. vm_compute. reflexivity. Qed.

(** * Further properties *)

(** ** More on [FileUtils] *)

(** X1: [ensureDir] accepts whatever exists at the path, a regular file
    included, and then changes nothing.  When it returns, the path exists,
    nothing that existed before has been changed, and a second call returns
    without changing anything.  When it throws, the error is the one that
    [fs.access] threw, if that is not ENOENT, and else the one with which
    [fs.mkdir] rejected the making of the missing directory; the path is as it
    was and so is everything that existed.  It always settles. *)
Theorem ensureDir_keeps_what_exists `{!Runtime} (dirPath : string) (d : FS) :
  match FileUtils.ensureDir dirPath d with
  | (Returns _, d') =>
      is_Some (d' !! dirPath)
      ∧ (is_Some (d !! dirPath) → d' = d)
      ∧ (∀ q n, d !! q = Some n → d' !! q = Some n)
      ∧ FileUtils.ensureDir dirPath d' = (Returns tt, d')
  | (Throws e, d') =>
      d' !! dirPath = d !! dirPath
      ∧ (∀ q n, d !! q = Some n → d' !! q = Some n)
      ∧ (((fs.access dirPath d).1 = Throws e ∧ e ≠ FsError ENOENT)
         ∨ ((fs.access dirPath d).1 = Throws (FsError ENOENT)
            ∧ (fs.mkdir dirPath d).1 = Throws e))
  | (Hangs, _) => False
  end.
Proof.
  unfold FileUtils.ensureDir, tryCatch, fs.access, fs.mkdir, throw.
  destruct (d !! dirPath) as [[s| | | |u]|] eqn:Hd; simpl; rewrite ?Hd; simpl.
  all: try (split_and!; eauto; try (left; split; [done|discriminate]); done).
  destruct (mkdirRejects d dirPath) as [code|]; simpl.
  - split_and!; [done|done|]. right. done.
  - split_and!.
    + rewrite lookup_insert_eq. eauto.
    + by intros [n Hn].
    + intros q n Hq. rewrite lookup_insert_ne; [done|]. intros ->. congruence.
    + by rewrite lookup_insert_eq.
Qed.

Section WriteFacts.
Context {Doc : Type} `{!JsonCodec Doc, !Runtime}.

(** X2: when [writeJsonFile] throws, the file at the path is as it was before
    the call (still missing if it was missing), and so is everything else that
    existed, except possibly the temporary sibling [path.tmp].  The directory of
    the path is taken to differ from the path. *)
Theorem writeJsonFile_failure_keeps_file (filePath : string) (data : Doc) (d d' : FS) (e : Exn) :
  dirname filePath ≠ filePath →
  FileUtils.writeJsonFile filePath data d = (Throws e, d') →
  d' !! filePath = d !! filePath
  ∧ (∀ q n, q ≠ String.append filePath ".tmp" → d !! q = Some n → d' !! q = Some n).
Proof.
  intros Hdir Hw.
  assert (Htmp : String.append filePath ".tmp" ≠ filePath) by apply append_tmp_ne.
  destruct (writeJsonFile_steps filePath data d) as (d1 & Hd1 & Hcases).
  assert (H1 : ∀ q, q ≠ dirname filePath → d1 !! q = d !! q).
  { intros q Hq. destruct Hd1 as [->|[_ ->]]; [done|]. by rewrite lookup_insert_ne. }
  assert (H2 : ∀ q n, d !! q = Some n → d1 !! q = Some n).
  { intros q n Hq. destruct Hd1 as [->|[Hnone ->]]; [done|].
    rewrite lookup_insert_ne; [done|]. intros <-. congruence. }
  destruct Hcases as [(e' & He & _)|[(e' & He)|[(e' & He)|[_ He]]]];
    rewrite He in Hw; try discriminate; injection Hw as <- <-.
  - done.
  - split; [by apply H1|]. intros q n _. by apply H2.
  - split.
    + rewrite lookup_insert_ne by done. by apply H1.
    + intros q n Hq Hq'. rewrite lookup_insert_ne by done. by apply H2.
Qed.

(** X3: when [writeJsonFile] returns, the path holds the text of the document,
    the temporary sibling [path.tmp] is gone, the directory of the path exists
    (when it is neither the path nor the sibling), and every other entry that
    existed is as it was. *)
Theorem writeJsonFile_footprint (filePath : string) (data : Doc) (d d' : FS) :
  FileUtils.writeJsonFile filePath data d = (Returns tt, d') →
  d' !! filePath = Some (File (JSON_stringify data))
  ∧ d' !! String.append filePath ".tmp" = None
  ∧ (dirname filePath ≠ filePath → dirname filePath ≠ String.append filePath ".tmp" →
     is_Some (d' !! dirname filePath))
  ∧ (∀ q n, q ≠ filePath → q ≠ String.append filePath ".tmp" →
     d !! q = Some n → d' !! q = Some n).
Proof.
  intros Hw.
  assert (Htmp : String.append filePath ".tmp" ≠ filePath) by apply append_tmp_ne.
  destruct (writeJsonFile_steps filePath data d) as (d1 & Hd1 & Hcases).
  destruct Hcases as [(e' & He & _)|[(e' & He)|[(e' & He)|[Hdir He]]]];
    rewrite He in Hw; try discriminate; injection Hw as <-.
  split_and!.
  - by rewrite lookup_insert_eq.
  - rewrite lookup_insert_ne by done. by rewrite lookup_delete_eq.
  - intros H1 H2. rewrite lookup_insert_ne by done. rewrite lookup_delete_ne by done.
    by rewrite lookup_insert_ne.
  - intros q n H1 H2 Hq. rewrite lookup_insert_ne by done. rewrite lookup_delete_ne by done.
    rewrite lookup_insert_ne by done.
    destruct Hd1 as [->|[Hnone ->]]; [done|].
    rewrite lookup_insert_ne; [done|]. intros <-. congruence.
Qed.

End WriteFacts.

(** ** Reading the history *)

Section Readers.
Context `{!JsonCodec History, !Runtime, !Config}.

Lemma getMessagesForSender_eq (K : string) (d : FS) :
  JsonDatabase.getMessagesForSender K d
  = (Returns (default [] (load chatHistoryFile d !! K)), d).
Proof.
  unfold JsonDatabase.getMessagesForSender, tryCatch, mbind, Async_bind, bind.
  by rewrite readChatHistory_eq.
Qed.

(** X4: [getMessagesForSender] never throws and never changes the disk.  It
    returns the entries stored under the sender when the history file parses
    (none when the sender has no key), and the empty list when the file is
    missing, does not parse, or cannot be read. *)
Theorem getMessagesForSender_never_throws (senderId : string) (d : FS) :
  ∃ messages,
    JsonDatabase.getMessagesForSender senderId d = (Returns messages, d)
    ∧ (∀ s h, d !! chatHistoryFile = Some (File s) → JSON_parse s = Some h →
         messages = default [] (h !! senderId))
    ∧ (d !! chatHistoryFile = None → messages = [])
    ∧ (∀ s, d !! chatHistoryFile = Some (File s) → JSON_parse s = None → messages = [])
    ∧ (∀ n, d !! chatHistoryFile = Some n → (∀ s, n ≠ File s) → messages = []).
Proof.
  rewrite getMessagesForSender_eq. eexists. split; [done|].
  unfold load, readOutcome. repeat split.
  - intros s h -> Hp. by rewrite Hp.
  - by intros ->.
  - intros s -> Hp. by rewrite Hp.
  - intros n -> Hn. destruct n; try done. by destruct (Hn contents).
Qed.

(** X5: after [clearMessagesForSender] has returned for a sender, entered with
    the sender's lock free, [getMessagesForSender] returns the empty list for
    that sender; the file holds the document without the sender's key and the
    lock map is as before.  The document written is one that the JSON codec
    carries through unchanged. *)
Theorem clearMessagesForSender_then_get (senderId : string) (r r' : Repo) :
  lockMap r !! senderId = None →
  (let h := delete senderId (load chatHistoryFile (disk r)) in
   JSON_parse (JSON_stringify h) = Some h) →
  JsonDatabase.clearMessagesForSender senderId r = (Returns tt, r') →
  JsonDatabase.getMessagesForSender senderId (disk r') = (Returns [], disk r')
  ∧ disk r' !! chatHistoryFile
    = Some (File (JSON_stringify (delete senderId (load chatHistoryFile (disk r)))))
  ∧ lockMap r' = lockMap r.
Proof.
  intros HK Hwf. rewrite clearMessagesForSender_run by done.
  unfold transact, clearMessages_change. cbv beta iota.
  destruct (FileUtils.writeJsonFile chatHistoryFile
              (delete senderId (load chatHistoryFile (disk r))) (disk r))
    as [[[]|e|] d'] eqn:Hw; simpl; try discriminate.
  intros [= <-]. simpl.
  pose proof (writeJsonFile_returns _ _ _ _ Hw) as Hfile.
  rewrite getMessagesForSender_eq. repeat split; [|done].
  unfold load at 1. rewrite Hfile. simpl. simpl in Hwf. rewrite Hwf.
  by rewrite lookup_delete_eq.
Qed.

End Readers.

(** ** Emotional entries in the history *)

(** ** Lists *)

Lemma filter_filter_comm {A} (f g : A → bool) (l : list A) :
  List.filter f (List.filter g l) = List.filter g (List.filter f l).
Proof.
  induction l as [|x l IH]; simpl; [done|].
  destruct (g x) eqn:Hg, (f x) eqn:Hf; simpl; rewrite ?Hg, ?Hf, IH; done.
Qed.

Lemma filter_none {A} (f : A → bool) (l : list A) :
  (∀ x, x ∈ l → f x = false) → List.filter f l = [].
Proof.
  induction l as [|x l IH]; intros Hall; simpl; [done|].
  rewrite (Hall x) by apply list_elem_of_here.
  apply IH. intros y Hy. apply Hall. by apply list_elem_of_further.
Qed.

Lemma filter_length_le {A} (f : A → bool) (l : list A) :
  (length (List.filter f l) ≤ length l)%nat.
Proof. induction l as [|x l IH]; simpl; [done|]. destruct (f x); simpl; lia. Qed.

Lemma filter_all {A} (f : A → bool) (l : list A) :
  (∀ x, x ∈ l → f x = true) → List.filter f l = l.
Proof.
  induction l as [|x l IH]; intros Hall; simpl; [done|].
  rewrite (Hall x) by apply list_elem_of_here. f_equal.
  apply IH. intros y Hy. apply Hall. by apply list_elem_of_further.
Qed.

Lemma filter_sublist' {A} (f : A → bool) (l : list A) : sublist (List.filter f l) l.
Proof.
  induction l as [|x l IH]; simpl; [constructor|].
  destruct (f x); by constructor.
Qed.

Lemma strictEq_refl (v : option Json) : primitive v = true → strictEq v v = true.
Proof.
  destruct v as [[|b|n|s|l|m]|]; simpl; try done; intros _.
  - by destruct b.
  - apply Z.eqb_refl.
  - apply String.eqb_refl.
Qed.

Section Emotional.

Context `{!JsonCodec History, !Runtime, !Config}.

(** X6: after the update of [JsonDatabase.storeEmotionalContext] at most ten
    entries of type emotional_context are stored for the user; what is stored
    is, in order, a sub-list of the old entries followed by the new one; and
    with fewer than ten emotional entries stored before, nothing is removed.
    The ids of the stored emotional entries are primitive values, as the code
    writes them. *)
Theorem storeEmotionalContext_keeps_ten (now : Z) (userId : string) (context : Json)
    (chatHistory : History) :
  let old := default [] (chatHistory !! userId) in
  let stored :=
    default [] (JsonDatabase.storeEmotionalContext_body now userId context chatHistory
                  !! userId) in
  (∀ msg, msg ∈ old → JsonDatabase.isEmotional msg = true → primitive (msg !! "id") = true) →
  (length (List.filter JsonDatabase.isEmotional stored) ≤ 10)%nat
  ∧ sublist stored (old ++ [JsonDatabase.newEmotionalEntry now context])
  ∧ ((length (List.filter JsonDatabase.isEmotional old) < 10)%nat →
     stored = old ++ [JsonDatabase.newEmotionalEntry now context]).
Proof.
  intros old stored Hprim. subst stored.
  unfold JsonDatabase.storeEmotionalContext_body.
  rewrite lookup_insert_eq. simpl. rewrite ensureSender_lookup. fold old.
  set (new := JsonDatabase.newEmotionalEntry now context).
  set (messages := old ++ [new]).
  set (E := List.filter JsonDatabase.isEmotional messages).
  assert (Hnew : JsonDatabase.isEmotional new = true) by done.
  assert (HE : E = List.filter JsonDatabase.isEmotional old ++ [new]).
  { unfold E, messages. rewrite List.filter_app. simpl. by rewrite Hnew. }
  destruct (Nat.ltb_spec 10 (length E)) as [Hgt|Hle].
  - rewrite slice_front by lia.
    set (k := Z.to_nat (Z.of_nat (length E) - 10)).
    set (keep := λ msg : Entry,
           negb (existsb (λ remove : Entry, strictEq (remove !! "id") (msg !! "id")) (take k E))).
    repeat split.
    + rewrite filter_filter_comm. fold E.
      rewrite <- (take_drop k E) at 1. rewrite List.filter_app.
      rewrite (filter_none keep (take k E)).
      * simpl. etransitivity; [apply filter_length_le|]. rewrite length_drop. lia.
      * intros x Hx. unfold keep. apply negb_false_iff, existsb_exists.
        exists x. split; [by apply list_elem_of_In|].
        apply strictEq_refl.
        assert (Hin : x ∈ E).
        { rewrite <- (take_drop k E). apply elem_of_app. by left. }
        rewrite HE in Hin. apply elem_of_app in Hin as [Hin|Hin].
        -- apply list_elem_of_In, List.filter_In in Hin as [Hin Hem].
           apply Hprim; [by apply list_elem_of_In|done].
        -- apply list_elem_of_singleton in Hin as ->. done.
    + apply filter_sublist'.
    + intros Hlt. rewrite HE, length_app in Hgt. simpl in Hgt. lia.
  - repeat split; [|done..].
    fold E. lia.
Qed.

End Emotional.

(** ** Contacts *)

Lemma findIndexE_found {A} (p : A → Exn + bool) (l : list A) (i : nat) :
  findIndexE p l = inr (Some i) →
  ∃ l1 x l2, l = l1 ++ x :: l2 ∧ length l1 = i ∧ p x = inr true
    ∧ Forall (λ y, p y = inr false) l1.
Proof.
  revert i. induction l as [|x l IH]; intros i; simpl; [discriminate|].
  destruct (p x) as [e|[]] eqn:Hp; [discriminate| |].
  - intros [= <-]. exists [], x, l. by repeat split.
  - destruct (findIndexE p l) as [e|[j|]]; simpl; try discriminate.
    intros [= <-]. destruct (IH j eq_refl) as (l1 & y & l2 & -> & Hlen & Hy & Hall).
    exists (x :: l1), y, l2. repeat split; simpl; auto.
Qed.

Lemma findIndexE_none {A} (p : A → Exn + bool) (l : list A) :
  findIndexE p l = inr None → Forall (λ y, p y = inr false) l.
Proof.
  induction l as [|x l IH]; simpl; [by constructor|].
  destruct (p x) as [e|[]] eqn:Hp; [discriminate..|].
  destruct (findIndexE p l) as [e|[j|]]; simpl; try discriminate.
  intros _. constructor; auto.
Qed.

Section Contacts.

Context `{!JsonCodec History, !Runtime, !Config}.

Lemma isContact_newContact now name number rel :
  JsonDatabase.isContact (JsonDatabase.newContact now name number rel) = true.
Proof. done. Qed.

Lemma contactName_newContact now name number rel :
  JsonDatabase.newContact now name number rel !! "contactName" = Some (JStr name).
Proof. done. Qed.

Lemma isContactNamed_true (name : string) (msg : Entry) :
  JsonDatabase.isContactNamed name msg = inr true ↔
  contactKey msg = Some (toLowerCase name).
Proof.
  unfold JsonDatabase.isContactNamed, contactKey, JsonDatabase.isContact.
  destruct (strictEq (msg !! "type") (Some (JStr "contact"))); [|split; discriminate].
  destruct (msg !! "contactName") as [[| | |s| |]|]; try (split; discriminate).
  split.
  - intros [= Heq]. apply String.eqb_eq in Heq. by rewrite Heq.
  - intros [= Heq]. rewrite Heq. by rewrite String.eqb_refl.
Qed.

Lemma isContactNamed_false (name : string) (msg : Entry) :
  JsonDatabase.isContactNamed name msg = inr false →
  contactKey msg ≠ Some (toLowerCase name)
  ∧ (JsonDatabase.isContact msg = true →
     JsonDatabase.hasName (toLowerCase name) msg = inr false).
Proof.
  unfold JsonDatabase.isContactNamed, contactKey, JsonDatabase.isContact,
    JsonDatabase.hasName.
  destruct (strictEq (msg !! "type") (Some (JStr "contact"))); [|by split].
  destruct (msg !! "contactName") as [[| | |s| |]|]; try done.
  intros [= Heq]. split; [|by rewrite Heq].
  intros [= Heq']. rewrite Heq' in Heq. by rewrite String.eqb_refl in Heq.
Qed.

(** The entries after [storeContact]: the contact stands where the first
    contact of that name stood, or at the end. *)
Lemma storeContact_body_shape now K name number rel h h' c :
  JsonDatabase.storeContact_body now K name number rel h = inr (h', c) →
  c = JsonDatabase.newContact now name number rel
  ∧ ∃ l1 l2,
      h' = <[K := l1 ++ c :: l2]> h
      ∧ Forall (λ y, JsonDatabase.isContactNamed name y = inr false) l1
      ∧ ((default [] (h !! K) = l1 ∧ l2 = [])
         ∨ ∃ x, default [] (h !! K) = l1 ++ x :: l2
                ∧ contactKey x = Some (toLowerCase name)).
Proof.
  unfold JsonDatabase.storeContact_body. rewrite ensureSender_lookup.
  destruct (findIndexE _ _) as [e|[i|]] eqn:Hfind; [discriminate| |].
  - intros [= <- <-]. split; [done|].
    destruct (findIndexE_found _ _ _ Hfind) as (l1 & x & l2 & Hl & Hlen & Hx & Hall).
    exists l1, l2. rewrite insert_ensureSender, Hl. split; [|split; [done|]].
    + f_equal. rewrite <- Hlen. rewrite insert_app_r_alt by lia.
      by replace (length l1 - length l1)%nat with 0%nat by lia.
    + right. exists x. split; [done|]. by apply isContactNamed_true.
  - intros [= <- <-]. split; [done|].
    exists (default [] (h !! K)), []. rewrite insert_ensureSender.
    split; [done|]. split; [by apply findIndexE_none|]. by left.
Qed.

Lemma contactKey_newContact now name number rel :
  contactKey (JsonDatabase.newContact now name number rel) = Some (toLowerCase name).
Proof. done. Qed.

Lemma contactKey_isContact (msg : Entry) (k : string) :
  contactKey msg = Some k → JsonDatabase.isContact msg = true.
Proof. unfold contactKey. by destruct (JsonDatabase.isContact msg). Qed.

Lemma named_false_omap (name : string) (l : list Entry) :
  Forall (λ y, JsonDatabase.isContactNamed name y = inr false) l →
  toLowerCase name ∉ omap contactKey l.
Proof.
  intros Hall Hin. apply list_elem_of_omap in Hin as (y & Hy & Hkey).
  rewrite Forall_forall in Hall.
  by destruct (isContactNamed_false name y (Hall y Hy)) as [Hne _].
Qed.

(** X7: the update of [storeContact] keeps contact names unique up to case: if
    no two contact entries of the user had the same name in lower case before,
    none have after.  The entries that are not contacts stay as they were, in
    order.  The new contact is among the stored entries, under its name in lower
    case; with a contact of that name stored before, the list keeps its length,
    and with none the new contact is appended at the end. *)
Theorem storeContact_keeps_names_unique (now : Z) (userId contactName : string)
    (contactNumber relationship : Json) (chatHistory chatHistory' : History)
    (contactInfo : Entry) :
  JsonDatabase.storeContact_body now userId contactName contactNumber relationship
    chatHistory = inr (chatHistory', contactInfo) →
  let old := default [] (chatHistory !! userId) in
  let new := default [] (chatHistory' !! userId) in
  (NoDup (omap contactKey old) → NoDup (omap contactKey new))
  ∧ List.filter (λ msg, negb (JsonDatabase.isContact msg)) new
    = List.filter (λ msg, negb (JsonDatabase.isContact msg)) old
  ∧ contactInfo ∈ new
  ∧ contactKey contactInfo = Some (toLowerCase contactName)
  ∧ (toLowerCase contactName ∈ omap contactKey old → length new = length old)
  ∧ (toLowerCase contactName ∉ omap contactKey old → new = old ++ [contactInfo]).
Proof.
  intros Hbody old new.
  destruct (storeContact_body_shape _ _ _ _ _ _ _ _ Hbody)
    as (Hc & l1 & l2 & Hh' & Hall & Hcase).
  assert (Hnew : new = l1 ++ contactInfo :: l2).
  { unfold new. rewrite Hh', lookup_insert_eq. done. }
  assert (Hkey : contactKey contactInfo = Some (toLowerCase contactName)).
  { rewrite Hc. apply contactKey_newContact. }
  assert (Hcontact : JsonDatabase.isContact contactInfo = true).
  { by apply (contactKey_isContact _ _ Hkey). }
  assert (Hin : contactInfo ∈ new).
  { rewrite Hnew. apply elem_of_app. right. apply list_elem_of_here. }
  destruct Hcase as [[Hold ->]|(x & Hold & Hx)]; fold old in Hold.
  - (* appended *)
    pose proof (named_false_omap contactName l1 Hall) as Hfresh.
    rewrite <- Hold in *. split_and!.
    + intros Hnd. rewrite Hnew, omap_app. simpl. rewrite Hkey. simpl.
      apply NoDup_app. split; [done|]. split; [|apply NoDup_singleton].
      intros k Hk Hk'. apply list_elem_of_singleton in Hk' as ->. done.
    + rewrite Hnew, List.filter_app. simpl. rewrite Hcontact. simpl.
      by rewrite app_nil_r.
    + done.
    + done.
    + intros Hin'. by destruct Hfresh.
    + done.
  - (* replaced *)
    assert (Hsame : omap contactKey new = omap contactKey old).
    { rewrite Hnew, Hold, !omap_app. simpl. by rewrite Hkey, Hx. }
    split_and!.
    + by rewrite Hsame.
    + rewrite Hnew, Hold, !List.filter_app. simpl.
      by rewrite Hcontact, (contactKey_isContact _ _ Hx).
    + done.
    + done.
    + intros _. rewrite Hnew, Hold, !length_app. done.
    + intros Hnot. destruct Hnot. rewrite Hold, omap_app. apply elem_of_app. right.
      simpl. rewrite Hx. apply list_elem_of_here.
Qed.

Lemma getContacts_eq (K : string) (d : FS) :
  JsonDatabase.getContacts K d
  = (Returns (List.filter JsonDatabase.isContact (default [] (load chatHistoryFile d !! K))), d).
Proof.
  unfold JsonDatabase.getContacts, tryCatch, mbind, Async_bind, bind.
  by rewrite getMessagesForSender_eq.
Qed.

Lemma findContact_eq (K name : string) (d : FS) :
  JsonDatabase.findContact K name d =
    (Returns
       (let contacts :=
          List.filter JsonDatabase.isContact (default [] (load chatHistoryFile d !! K)) in
        match findE (JsonDatabase.hasName (toLowerCase name)) contacts with
        | inl e => JsonDatabase.Null
        | inr (Some c) => JsonDatabase.Contact c
        | inr None =>
            match findE (JsonDatabase.nameOverlaps (toLowerCase name)) contacts with
            | inl e => JsonDatabase.Null
            | inr (Some c) => JsonDatabase.Contact c
            | inr None => JsonDatabase.Undefined
            end
        end), d).
Proof.
  unfold JsonDatabase.findContact, tryCatch, mbind, Async_bind, bind.
  rewrite getContacts_eq. cbv zeta.
  destruct (findE (JsonDatabase.hasName _) _) as [e|[c|]]; try done.
  destruct (findE (JsonDatabase.nameOverlaps _) _) as [e|[c|]]; done.
Qed.

Lemma findE_first (lowerName : string) (l1 l2 : list Entry) (c : Entry) :
  Forall (λ y, JsonDatabase.isContact y = true →
               JsonDatabase.hasName lowerName y = inr false) l1 →
  JsonDatabase.isContact c = true →
  JsonDatabase.hasName lowerName c = inr true →
  findE (JsonDatabase.hasName lowerName)
    (List.filter JsonDatabase.isContact (l1 ++ c :: l2)) = inr (Some c).
Proof.
  intros Hall Hc Hname. induction Hall as [|y l1 Hy Hall IH]; simpl.
  - by rewrite Hc; simpl; rewrite Hname.
  - destruct (JsonDatabase.isContact y) eqn:Hy'; [|done].
    simpl. by rewrite (Hy eq_refl).
Qed.

(** What a call of [storeContact] that returned has left on disk. *)
Lemma storeContact_returns now K name number rel c (r r' : Repo) :
  lockMap r !! K = None →
  JsonDatabase.storeContact now K name number rel r = (Returns c, r') →
  ∃ h', JsonDatabase.storeContact_body now K name number rel (load chatHistoryFile (disk r))
          = inr (h', c)
        ∧ disk r' !! chatHistoryFile = Some (File (JSON_stringify h'))
        ∧ lockMap r' = lockMap r.
Proof.
  intros HK. rewrite storeContact_run by done.
  unfold transact, storeContact_change.
  destruct (JsonDatabase.storeContact_body _ _ _ _ _ _) as [e|[h' c']]; [discriminate|].
  destruct (FileUtils.writeJsonFile chatHistoryFile h' (disk r)) as [[[]|e|] d'] eqn:Hw;
    simpl; try discriminate.
  intros [= <- <-]. exists h'. repeat split.
  by apply (writeJsonFile_returns _ _ _ _ Hw).
Qed.

(** X8: after [storeContact] has returned, entered with the lock free,
    [findContact] with any name that equals the stored one up to case returns
    the very entry that [storeContact] returned; [getContacts] lists it; and the
    entry carries the name, the number and the relationship given.  The document
    written is one that the JSON codec carries through unchanged. *)
Theorem findContact_after_storeContact (now : Z) (userId contactName searched : string)
    (contactNumber relationship : Json) (contactInfo : Entry) (r r' : Repo) :
  lockMap r !! userId = None →
  (∀ chatHistory',
     JsonDatabase.storeContact_body now userId contactName contactNumber relationship
       (load chatHistoryFile (disk r)) = inr (chatHistory', contactInfo) →
     JSON_parse (JSON_stringify chatHistory') = Some chatHistory') →
  JsonDatabase.storeContact now userId contactName contactNumber relationship r
    = (Returns contactInfo, r') →
  toLowerCase searched = toLowerCase contactName →
  JsonDatabase.findContact userId searched (disk r')
    = (Returns (JsonDatabase.Contact contactInfo), disk r')
  ∧ (∃ contacts, JsonDatabase.getContacts userId (disk r') = (Returns contacts, disk r')
       ∧ contactInfo ∈ contacts)
  ∧ contactInfo !! "contactName" = Some (JStr contactName)
  ∧ contactInfo !! "contactNumber" = Some contactNumber
  ∧ contactInfo !! "relationship" = Some relationship.
Proof.
  intros HK Hwf Hrun Hlower.
  destruct (storeContact_returns _ _ _ _ _ _ _ _ HK Hrun) as (h' & Hbody & Hfile & _).
  destruct (storeContact_body_shape _ _ _ _ _ _ _ _ Hbody)
    as (Hc & l1 & l2 & Hh' & Hall & _).
  assert (Hload : load chatHistoryFile (disk r') !! userId = Some (l1 ++ contactInfo :: l2)).
  { unfold load. rewrite Hfile. simpl. rewrite (Hwf h' Hbody).
    by rewrite Hh', lookup_insert_eq. }
  assert (Hcontact : JsonDatabase.isContact contactInfo = true) by (by rewrite Hc).
  repeat split.
  - rewrite findContact_eq, Hload. cbv zeta. simpl.
    rewrite (findE_first (toLowerCase searched) l1 l2 contactInfo); [done| |done|].
    + rewrite Hlower. eapply Forall_impl; [exact Hall|].
      intros y Hy. by apply isContactNamed_false.
    + rewrite Hc. unfold JsonDatabase.hasName.
      rewrite contactName_newContact, Hlower. by rewrite String.eqb_refl.
  - eexists. rewrite getContacts_eq, Hload. split; [done|]. simpl.
    apply list_elem_of_In, List.filter_In. split; [|done].
    apply list_elem_of_In, elem_of_app. right. apply list_elem_of_here.
  - by rewrite Hc.
  - by rewrite Hc.
  - by rewrite Hc.
Qed.

Lemma addMessages_appended (K : string) (calls : list (Z * Json * Json * Entry)) (h : History) :
  Forall (λ m, ∃ now role content metadata,
                 (now, role, content, metadata) ∈ calls
                 ∧ m = JsonDatabase.newMessage now role content metadata)
    (addMessages K calls h).2.
Proof.
  revert h. induction calls as [|[[[now role] content] md] calls IH]; intros h; simpl.
  - constructor.
  - destruct (JsonDatabase.addMessage_body now K role content md h) as [[h' m]|] eqn:Hbody.
    + simpl. constructor.
      * exists now, role, content, md. split; [apply list_elem_of_here|].
        unfold JsonDatabase.addMessage_body in Hbody.
        destruct (existsb _ _ && negb _); [discriminate|]. by injection Hbody as _ <-.
      * eapply Forall_impl; [apply IH|].
        intros m' (n & ro & co & me & Hin & ->). exists n, ro, co, me.
        split; [by apply list_elem_of_further|done].
    + eapply Forall_impl; [apply IH|].
      intros m' (n & ro & co & me & Hin & ->). exists n, ro, co, me.
      split; [by apply list_elem_of_further|done].
Qed.

Lemma isContact_newMessage now role content (metadata : Entry) :
  JsonDatabase.isContact (JsonDatabase.newMessage now role content metadata)
  = JsonDatabase.isContact metadata.
Proof.
  unfold JsonDatabase.isContact, JsonDatabase.newMessage. f_equal.
  destruct (metadata !! "type") as [v|] eqn:Hm.
  - by rewrite (lookup_union_Some_l _ _ _ _ Hm).
  - rewrite lookup_union_r by done. done.
Qed.

(** X9: contacts share the capped list of the chat messages.  Once [addMessage]
    has stored at least [maxChatHistory] messages for a user, none of them typed
    as a contact by its metadata, no contact of that user is left: [getContacts]
    returns the empty list and [findContact] returns undefined for every name.
    *)
Theorem contacts_evicted_by_messages (userId : string)
    (calls : list (Z * Json * Json * Entry)) (chatHistory : History) (d : FS) :
  0 < maxChatHistory →
  Forall (λ call, JsonDatabase.isContact call.2 = false) calls →
  (Z.to_nat maxChatHistory ≤ length (addMessages userId calls chatHistory).2)%nat →
  load chatHistoryFile d = (addMessages userId calls chatHistory).1 →
  JsonDatabase.getContacts userId d = (Returns [], d)
  ∧ (∀ contactName,
       JsonDatabase.findContact userId contactName d = (Returns JsonDatabase.Undefined, d)).
Proof.
  intros Hmax Hmeta Hlen Hload.
  assert (Hnone : List.filter JsonDatabase.isContact
                    (default [] (load chatHistoryFile d !! userId)) = []).
  { rewrite Hload, addMessages_stored; [|done|].
    - simpl. rewrite lastn_app by done. apply filter_none.
      intros m Hm.
      assert (Hm' : m ∈ (addMessages userId calls chatHistory).2).
      { unfold lastn in Hm. rewrite <- (take_drop (length (addMessages userId calls chatHistory).2
                                          - Z.to_nat maxChatHistory)).
        apply elem_of_app. by right. }
      pose proof (addMessages_appended userId calls chatHistory) as Happ.
      rewrite Forall_forall in Happ.
      destruct (Happ m Hm') as (now & role & content & md & Hin & ->).
      rewrite isContact_newMessage. rewrite Forall_forall in Hmeta.
      apply (Hmeta _ Hin).
    - intros Hnil. rewrite Hnil in Hlen. simpl in Hlen. lia. }
  split.
  - by rewrite getContacts_eq, Hnone.
  - intros name. by rewrite findContact_eq, Hnone.
Qed.

(** X10: [getConversationContext] never throws or changes the disk.  It returns
    the two system turns, when asked for them, followed by one turn for each
    stored entry, in order.  Every such turn has the role user or model; an
    entry of role assistant becomes a model turn with its content as text; and a
    contact or emotional-context entry, which shares the list, becomes a model
    turn whose text is undefined. *)
Theorem getConversationContext_turns (systemPrompt : Json) (senderId : string)
    (includeSystemPrompt : bool) (d : FS) :
  ∃ messages,
    JsonDatabase.getMessagesForSender senderId d = (Returns messages, d)
    ∧ JsonDatabase.getConversationContext systemPrompt senderId includeSystemPrompt d
      = (Returns ((if includeSystemPrompt then JsonDatabase.systemTurns systemPrompt else [])
                  ++ (JsonDatabase.turnOf <$> messages)), d)
    ∧ (∀ msg, msg ∈ messages →
         JsonDatabase.role (JsonDatabase.turnOf msg) = "user"
         ∨ JsonDatabase.role (JsonDatabase.turnOf msg) = "model")
    ∧ (∀ msg, msg ∈ messages → msg !! "role" = Some (JStr "assistant") →
         JsonDatabase.turnOf msg
         = {| JsonDatabase.role := "model";
              JsonDatabase.parts := [ {| JsonDatabase.text := msg !! "content" |} ] |})
    ∧ (∀ msg, msg ∈ messages →
         (∃ now contactName contactNumber relationship,
            msg = JsonDatabase.newContact now contactName contactNumber relationship)
         ∨ (∃ now context, msg = JsonDatabase.newEmotionalEntry now context) →
         JsonDatabase.turnOf msg
         = {| JsonDatabase.role := "model";
              JsonDatabase.parts := [ {| JsonDatabase.text := None |} ] |}).
Proof.
  eexists. split; [apply getMessagesForSender_eq|].
  repeat split.
  - unfold JsonDatabase.getConversationContext, tryCatch, mbind, Async_bind, bind.
    by rewrite getMessagesForSender_eq.
  - intros msg _. unfold JsonDatabase.turnOf. simpl.
    destruct (strictEq _ _); auto.
  - intros msg _ Hrole. unfold JsonDatabase.turnOf. by rewrite Hrole.
  - intros msg _ [(now & name & number & rel & ->)|(now & ctx & ->)]; done.
Qed.

End Contacts.

(** ** Reading the memories back *)

Section Memory.

Context `{!JsonCodec Memories, !Runtime}.

Lemma getUserMemory_eq (now : Z) (K : string) (d : FS) :
  MemoryManager.getUserMemory now K d
  = (Returns (MemoryManager.profileOf now K (load MemoryManager.memoryFile d)), d).
Proof.
  unfold MemoryManager.getUserMemory, tryCatch, mbind, Async_bind, bind.
  by rewrite readMemories_eq.
Qed.

(** What a call of [updateMemory] that returned has left on disk. *)
Lemma updateMemory_returns now K category data merge p (r r' : Repo) :
  lockMap r !! K = None →
  MemoryManager.updateMemory now K category data merge r = (Returns p, r') →
  let written :=
    MemoryManager.updateMemory_body now K category data merge
      (load MemoryManager.memoryFile (disk r)) in
  p = written.2
  ∧ disk r' !! MemoryManager.memoryFile = Some (File (JSON_stringify written.1))
  ∧ lockMap r' = lockMap r.
Proof.
  intros HK. rewrite updateMemory_run by done.
  unfold transact, updateMemory_change. cbv beta iota zeta.
  destruct (FileUtils.writeJsonFile MemoryManager.memoryFile _ (disk r))
    as [[[]|e|] d'] eqn:Hw; simpl; try discriminate.
  intros [= <- <-]. repeat split.
  by apply (writeJsonFile_returns _ _ _ _ Hw).
Qed.

Lemma updateMemory_body_stored now K category data merge (h : Memories) :
  (MemoryManager.updateMemory_body now K category data merge h).1 !! K
  = Some (MemoryManager.updateMemory_body now K category data merge h).2.
Proof. unfold MemoryManager.updateMemory_body. simpl. by rewrite lookup_insert_eq. Qed.

(** What [updateMemory] returned is what [getUserMemory] then reads. *)
Lemma updateMemory_read_back now later K category data merge p (r r' : Repo) :
  lockMap r !! K = None →
  (let written :=
     (MemoryManager.updateMemory_body now K category data merge
        (load MemoryManager.memoryFile (disk r))).1 in
   JSON_parse (JSON_stringify written) = Some written) →
  MemoryManager.updateMemory now K category data merge r = (Returns p, r') →
  MemoryManager.getUserMemory later K (disk r') = (Returns p, disk r').
Proof.
  intros HK Hwf Hrun.
  destruct (updateMemory_returns _ _ _ _ _ _ _ _ HK Hrun) as (Hp & Hfile & _).
  cbv zeta in Hwf, Hp, Hfile.
  rewrite getUserMemory_eq. unfold MemoryManager.profileOf at 1, load, readOutcome.
  rewrite Hfile, Hwf. rewrite updateMemory_body_stored. by rewrite Hp.
Qed.

(** X11: after [updateMemory] has returned, entered with the lock free,
    [getUserMemory] returns the very profile that [updateMemory] returned.  Its
    lastUpdated is the time of the call, every other category but the updated
    one is as in the profile read before, and the updated category holds the
    data as given when merge is off, or when the category held an array or no
    object before.  The document written is one that the JSON codec carries
    through unchanged. *)
Theorem updateMemory_then_getUserMemory (now later : Z) (userId category : string)
    (data : Json) (merge : bool) (profile : Profile) (r r' : Repo) :
  lockMap r !! userId = None →
  (let written :=
     (MemoryManager.updateMemory_body now userId category data merge
        (load MemoryManager.memoryFile (disk r))).1 in
   JSON_parse (JSON_stringify written) = Some written) →
  MemoryManager.updateMemory now userId category data merge r = (Returns profile, r') →
  let before := MemoryManager.profileOf now userId (load MemoryManager.memoryFile (disk r)) in
  MemoryManager.getUserMemory later userId (disk r') = (Returns profile, disk r')
  ∧ profile !! "lastUpdated" = Some (JStr (toISOString now))
  ∧ (∀ other, other ≠ category → other ≠ "lastUpdated" →
       profile !! other = before !! other)
  ∧ (category ≠ "lastUpdated" → merge = false → profile !! category = Some data)
  ∧ (category ≠ "lastUpdated" → isArray (before !! category) = true →
       profile !! category = Some data)
  ∧ (category ≠ "lastUpdated" → typeofObject (before !! category) = false →
       profile !! category = Some data).
Proof.
  intros HK Hwf Hrun before.
  destruct (updateMemory_returns _ _ _ _ _ _ _ _ HK Hrun) as (Hp & Hfile & _).
  cbv zeta in Hwf, Hp, Hfile.
  split_and!.
  - by apply (updateMemory_read_back now later _ category data merge _ r).
  - rewrite Hp. unfold MemoryManager.updateMemory_body, MemoryManager.touch. simpl.
    by rewrite lookup_insert_eq.
  - intros other H1 H2. rewrite Hp.
    unfold MemoryManager.updateMemory_body, MemoryManager.touch. simpl.
    rewrite lookup_insert_ne by done. by rewrite lookup_insert_ne.
  - intros H1 ->. rewrite Hp.
    unfold MemoryManager.updateMemory_body, MemoryManager.touch. simpl.
    rewrite lookup_insert_ne by done. by rewrite lookup_insert_eq.
  - intros H1 Harr. rewrite Hp.
    unfold MemoryManager.updateMemory_body, MemoryManager.touch. simpl.
    rewrite lookup_insert_ne by done. rewrite lookup_insert_eq. fold before.
    rewrite Harr. by rewrite !andb_false_r.
  - intros H1 Hobj. rewrite Hp.
    unfold MemoryManager.updateMemory_body, MemoryManager.touch. simpl.
    rewrite lookup_insert_ne by done. rewrite lookup_insert_eq. fold before.
    rewrite Hobj. by rewrite !andb_false_r.
Qed.

End Memory.

(** ** Merging stores *)

Section StoreFacts.

Context `{!JsonCodec Memories, !Runtime}.







End StoreFacts.

(** ** Stores that read before they write *)

Section Composite.

Context `{!JsonCodec Memories, !Runtime}.





















End Composite.

(** ** The usage counters *)

Section Pool.

Import GeminiClient.

Lemma getNextKeyIndex_pool (c : Client) :
  keyUsageCount (getNextKeyIndex c).2 = keyUsageCount c
  ∧ clients (getNextKeyIndex c).2 = clients c
  ∧ failedKeys (getNextKeyIndex c).2 ⊆ failedKeys c.
Proof.
  unfold getNextKeyIndex. destruct (length (availableKeys c) =? 0)%nat; simpl; set_solver.
Qed.

Lemma usage_trackKeyUsage (key k : nat) (t : Z) (c : Client) :
  usage (trackKeyUsage key t c) (Some k)
  = usage c (Some k) + (if bool_decide (key = k) then 1 else 0).
Proof.
  unfold usage, trackKeyUsage. simpl.
  destruct (bool_decide_reflect (key = k)) as [->|Hne].
  - by rewrite lookup_insert_eq.
  - rewrite lookup_insert_ne by done. lia.
Qed.

Lemma usage_markKeyAsFailed (key : nat) (message : string) (t : Z) (c : Client) (k : option nat) :
  usage (markKeyAsFailed key message t c) k = usage c k.
Proof. done. Qed.

Context `{!Service}.

Lemma attemptsOn_snoc k g (e : Event) (c' : Client) (conv : list Turn) :
  attemptsOn k {| pool := c'; conversation := conv; events := events g ++ [e] |}
  = (attemptsOn k g + if onKey k e then 1 else 0)%nat.
Proof.
  unfold attemptsOn. simpl. rewrite List.filter_app, length_app. simpl.
  by destruct (onKey k e).
Qed.

Lemma retryLoop_accounts (maxRetries : nat) (ms : option string) (k : nat) (remaining : nat) :
  ∀ attempts lastError g,
    let g' := (retryLoop maxRetries ms remaining attempts lastError g).2 in
    usage (pool g') (Some k) + Z.of_nat (attemptsOn k g)
    = usage (pool g) (Some k) + Z.of_nat (attemptsOn k g')
    ∧ (attemptsMade g' ≤ attemptsMade g + remaining)%nat
    ∧ clients (pool g') = clients (pool g).
Proof.
  induction remaining as [|remaining IH]; intros attempts lastError g.
  - cbn [retryLoop]. destruct lastError; cbn [snd]; split_and!; first [reflexivity|lia].
  - cbn [retryLoop].
    destruct (getNextKeyIndex_pool (pool g)) as (Huse & Hcl & _).
    destruct (getNextKeyIndex (pool g)) as [[key|] c] eqn:Hnext; simpl in Huse, Hcl.
    2:{ cbn [snd pool events]. unfold usage. rewrite Huse.
        split_and!; first [reflexivity|done|unfold attemptsMade; simpl; lia]. }
    destruct (bool_decide (key ∈ clients c)).
    2:{ cbn [snd pool events]. unfold usage. rewrite Huse.
        split_and!; first [reflexivity|done|unfold attemptsMade; simpl; lia]. }
    destruct (request attempts ms (conversation g)) as [conv' [error|text]].
    + set (g1 := {| pool := _; conversation := conv'; events := _ |}).
      specialize (IH (S attempts) (Some error) g1). cbv zeta in IH.
      destruct IH as (IHu & IHa & IHc). cbv zeta.
      assert (Hu1 : usage (pool g1) (Some k)
                    = usage (pool g) (Some k) + (if bool_decide (key = k) then 1 else 0)).
      { unfold g1. cbn [pool].
        destruct (quarantines (messageOf error));
          rewrite ?usage_markKeyAsFailed, usage_trackKeyUsage; unfold usage; by rewrite Huse. }
      assert (Ha1 : attemptsOn k g1
                    = (attemptsOn k g + if bool_decide (key = k) then 1 else 0)%nat).
      { unfold g1, attemptsOn. simpl.
        destruct (S attempts <? maxRetries)%nat;
          rewrite ?List.filter_app, ?length_app; simpl;
          destruct (bool_decide (key = k)); simpl; lia. }
      assert (Hm1 : attemptsMade g1 = S (attemptsMade g)).
      { unfold g1, attemptsMade. simpl.
        destruct (S attempts <? maxRetries)%nat;
          rewrite ?List.filter_app, ?length_app; simpl; lia. }
      assert (Hc1 : clients (pool g1) = clients (pool g)).
      { unfold g1. simpl. by destruct (quarantines (messageOf error)). }
      split_and!.
      * rewrite Hu1, Ha1 in IHu. destruct (bool_decide (key = k)); lia.
      * lia.
      * by rewrite IHc.
    + cbv zeta. cbn [snd pool]. rewrite usage_trackKeyUsage.
      rewrite (attemptsOn_snoc k g (Attempt key)).
      rewrite (attemptsMade_snoc g (Attempt key)). cbn [onKey isAttempt].
      assert (Hsame : usage c (Some k) = usage (pool g) (Some k)).
      { unfold usage. by rewrite Huse. }
      rewrite Hsame.
      split_and!; [|lia|done].
      destruct (bool_decide (key = k)); lia.
Qed.

(** X19: [generateContent] raises the usage counter of a key by one for each
    attempt made on it, failed attempts included, and by nothing else; it makes
    at most [maxRetries] attempts and leaves the set of clients as it was. *)
Theorem usage_counts_attempts (conversationHistory : list Turn) (memorySummary : option string)
    (maxRetries : nat) (c : Client) (keyIndex : nat) :
  let g := (generateContent conversationHistory memorySummary maxRetries c).2 in
  usage (pool g) (Some keyIndex) = usage c (Some keyIndex) + Z.of_nat (attemptsOn keyIndex g)
  ∧ (attemptsMade g ≤ maxRetries)%nat
  ∧ clients (pool g) = clients c.
Proof.
  intros g. unfold g, generateContent.
  set (g0 := {| pool := c; conversation := conversationHistory; events := [] |}).
  destruct (retryLoop_accounts maxRetries memorySummary keyIndex maxRetries 0 None g0)
    as (Hu & Ha & Hc).
  cbv zeta in Hu, Ha, Hc.
  change (attemptsOn keyIndex g0) with 0%nat in Hu.
  change (attemptsMade g0) with 0%nat in Ha.
  change (pool g0) with c in Hu, Hc.
  split_and!; [lia|lia|exact Hc].
Qed.

End Pool.

(** ** The prompt, the cooldown and the rotation *)

Section Prompt.

Import GeminiClient.
Context `{!Service}.

Lemma request_user_turn (i : nat) (ms : option string) (init : list Turn)
    (text : string) (rest : list string) :
  (request i ms (init ++ [ {| role := "user"; parts := text :: rest |} ])).1
  = init ++ [ {| role := "user";
                 parts := String.append (contextInfo (startedAt i) ms)
                            (String.append nl (String.append nl text)) :: rest |} ].
Proof.
  unfold request, prepare. rewrite last_snoc. simpl.
  by rewrite removelast_last.
Qed.

Lemma retryLoop_contexts (maxRetries : nat) (ms : option string) (init : list Turn)
    (rest : list string) (remaining : nat) :
  ∀ attempts lastError g text,
    conversation g = init ++ [ {| role := "user"; parts := text :: rest |} ] →
    let g' := (retryLoop maxRetries ms remaining attempts lastError g).2 in
    ∃ n, attemptsMade g' = (attemptsMade g + n)%nat
      ∧ conversation g'
        = init ++ [ {| role := "user"; parts := withContexts ms attempts n text :: rest |} ].
Proof.
  induction remaining as [|remaining IH]; intros attempts lastError g text Hconv.
  - cbn [retryLoop]. exists 0%nat. destruct lastError; cbn [snd]; split; (lia || done).
  - cbn [retryLoop].
    destruct (getNextKeyIndex (pool g)) as [[key|] c] eqn:Hnext.
    2:{ exists 0%nat. cbn [snd]. split; [unfold attemptsMade; simpl; lia|done]. }
    destruct (bool_decide (key ∈ clients c)).
    2:{ exists 0%nat. cbn [snd]. split; [unfold attemptsMade; simpl; lia|done]. }
    pose proof (request_user_turn attempts ms init text rest) as Hreq.
    rewrite <- Hconv in Hreq.
    destruct (request attempts ms (conversation g)) as [conv' [error|reply]];
      cbn [fst] in Hreq.
    + set (g1 := {| pool := _; conversation := conv'; events := _ |}).
      destruct (IH (S attempts) (Some error) g1 _ Hreq) as (n & Hn & Hc).
      assert (Hm1 : attemptsMade g1 = S (attemptsMade g)).
      { unfold g1, attemptsMade. simpl.
        destruct (S attempts <? maxRetries)%nat;
          rewrite ?List.filter_app, ?length_app; simpl; lia. }
      exists (S n). cbv zeta. split; [lia|]. exact Hc.
    + exists 1%nat. cbn [snd conversation]. split; [|exact Hreq].
      rewrite (attemptsMade_snoc g (Attempt key)). simpl. lia.
Qed.

(** X20: [generateContent] modifies the caller's conversation in place, and the
    prompt grows with every attempt: each attempt puts one more context block in
    front of the first part of the last user turn, so that after n attempts the
    turn carries n blocks in front of the caller's text. *)
Theorem context_accumulates (init : list Turn) (text : string) (rest : list string)
    (memorySummary : option string) (maxRetries : nat) (c : Client) :
  let g := (generateContent (init ++ [ {| role := "user"; parts := text :: rest |} ])
              memorySummary maxRetries c).2 in
  conversation g
  = init ++ [ {| role := "user";
                 parts := withContexts memorySummary 0 (attemptsMade g) text :: rest |} ].
Proof.
  intros g. unfold g, generateContent.
  set (g0 := {| pool := c; conversation := _; events := [] |}).
  destruct (retryLoop_contexts maxRetries memorySummary init rest maxRetries 0 None g0 text
              eq_refl) as (n & Hn & Hc).
  cbv zeta in Hn, Hc. change (attemptsMade g0) with 0%nat in Hn.
  rewrite Hn. exact Hc.
Qed.

End Prompt.

Section Timers.

Import GeminiClient.

(** X21: [markKeyAsFailed] puts the key among the failed ones, and its cooldown
    timer alone decides as follows.  When the message mentions the quota or a
    rate limit, the key is taken out again once sixty seconds have passed; with
    any other message, and before the sixty seconds are over, the timers leave
    it failed as long as no cooldown set earlier for that key comes due; and a
    cooldown that was set earlier takes the key out when it comes due, whatever
    the later failure was. *)
Theorem cooldown_restores_quota_keys (keyIndex : nat) (message : string) (now t : Z)
    (c : Client) :
  let marked := markKeyAsFailed keyIndex message now c in
  keyIndex ∈ failedKeys marked
  ∧ (isQuotaMessage message = true → now + 60000 ≤ t →
     keyIndex ∉ failedKeys (fireCooldowns t marked))
  ∧ (isQuotaMessage message = false →
     (∀ due, (due, keyIndex) ∈ cooldowns c → t < due) →
     keyIndex ∈ failedKeys (fireCooldowns t marked))
  ∧ (t < now + 60000 →
     (∀ due, (due, keyIndex) ∈ cooldowns c → t < due) →
     keyIndex ∈ failedKeys (fireCooldowns t marked))
  ∧ (∀ due, (due, keyIndex) ∈ cooldowns c → due ≤ t →
     keyIndex ∉ failedKeys (fireCooldowns t marked)).
Proof.
  intros marked.
  assert (Hdue_iff : ∀ (l : list (Z * nat)),
            keyIndex ∈ (list_to_set (snd <$> List.filter (λ x : Z * nat, x.1 <=? t) l) : gset nat)
            ↔ ∃ due, (due, keyIndex) ∈ l ∧ due ≤ t).
  { intros l. rewrite elem_of_list_to_set, list_elem_of_fmap. split.
    - intros ([due k] & Hk & Hmem). simpl in Hk. subst k.
      apply list_elem_of_In, List.filter_In in Hmem as [Hmem Hdue].
      exists due. split; [by apply list_elem_of_In|]. simpl in Hdue. lia.
    - intros (due & Hmem & Hdue). exists (due, keyIndex). split; [done|].
      apply list_elem_of_In, List.filter_In. split; [by apply list_elem_of_In|].
      simpl. lia. }
  split_and!.
  - unfold marked. simpl. apply elem_of_union. left. by apply elem_of_singleton.
  - intros Hq Ht. unfold fireCooldowns, marked. simpl. rewrite Hq.
    intros Hmem. apply elem_of_difference in Hmem as [_ Hnot]. apply Hnot.
    apply Hdue_iff. exists (now + 60000). split; [|done].
    apply elem_of_app. right. apply list_elem_of_here.
  - intros Hq Hnone. unfold fireCooldowns, marked. simpl. rewrite Hq.
    apply elem_of_difference.
    split; [apply elem_of_union; left; by apply elem_of_singleton|].
    intros Hmem. apply Hdue_iff in Hmem as (due & Hmem & Hdue).
    specialize (Hnone due Hmem). lia.
  - intros Ht Hnone. unfold fireCooldowns, marked. simpl.
    apply elem_of_difference.
    split; [apply elem_of_union; left; by apply elem_of_singleton|].
    intros Hmem. apply Hdue_iff in Hmem as (due & Hmem & Hdue).
    destruct (isQuotaMessage message).
    + apply elem_of_app in Hmem as [Hmem|Hmem].
      * specialize (Hnone due Hmem). lia.
      * apply list_elem_of_singleton in Hmem. injection Hmem as ->. lia.
    + specialize (Hnone due Hmem). lia.
  - intros due Hmem Hdue. unfold fireCooldowns, marked. simpl.
    intros Hmem'. apply elem_of_difference in Hmem' as [_ Hnot]. apply Hnot.
    apply Hdue_iff. exists due. split; [|done].
    destruct (isQuotaMessage message); [apply elem_of_app; by left|done].
Qed.

End Timers.

Section Rotation.

Import GeminiClient.

Lemma usage_getNextKeyIndex (c : Client) (k : option nat) :
  usage (getNextKeyIndex c).2 k = usage c k.
Proof.
  destruct (getNextKeyIndex_pool c) as (Huse & _). unfold usage. by rewrite Huse.
Qed.

(** X22: after an attempt on the selected key, the next selection picks another
    key whenever some other client key is not failed and was not used more often
    than the selected one: the key picked differs from the one just tried and
    was used at most as often as that other key.  This holds whether or not the
    failure put the key among the failed ones, since the attempt has raised its
    usage counter. *)
Theorem retry_moves_to_another_key (c c1 : Client) (k j : nat) (started failed : Z)
    (message : string) (quarantined : bool) :
  getNextKeyIndex c = (Some k, c1) →
  j ∈ clients c → j ≠ k → j ∉ failedKeys c1 →
  usage c (Some j) ≤ usage c (Some k) →
  let tracked := trackKeyUsage k started c1 in
  let c2 := if quarantined then markKeyAsFailed k message failed tracked else tracked in
  ∃ k', (getNextKeyIndex c2).1 = Some k' ∧ k' ≠ k ∧ k' ∈ clients c
        ∧ usage c (Some k') ≤ usage c (Some j).
Proof.
  intros Hnext Hj Hjk Hjf Huse tracked c2.
  destruct (getNextKeyIndex_pool c) as (Hu & Hcl & _). rewrite Hnext in Hu, Hcl.
  simpl in Hu, Hcl.
  assert (Hcl2 : clients c2 = clients c).
  { unfold c2, tracked. by destruct quarantined. }
  assert (Hf2 : ∀ i, i ∈ failedKeys c2 → i = k ∨ i ∈ failedKeys c1).
  { intros i. unfold c2, tracked. destruct quarantined; simpl; [|by right].
    intros [Hi|Hi]%elem_of_union; [left; by apply elem_of_singleton in Hi|by right]. }
  assert (Hu2 : ∀ i, usage c2 (Some i)
                     = usage c (Some i) + (if bool_decide (k = i) then 1 else 0)).
  { intros i. unfold c2, tracked.
    destruct quarantined; rewrite ?usage_markKeyAsFailed, usage_trackKeyUsage;
      unfold usage; by rewrite Hu. }
  assert (Hav : j ∈ availableKeys c2).
  { apply availableKeys_spec. rewrite Hcl2. split; [done|].
    intros Hf. apply Hf2 in Hf as [?|?]; done. }
  unfold getNextKeyIndex.
  destruct (availableKeys c2) as [|b l] eqn:Hl; [by apply elem_of_nil in Hav|].
  cbn [length Nat.eqb fst].
  destruct (getLeastUsedKey_spec c2 (Some (b :: l)) b l eq_refl)
    as (k' & Hget & Hin & Hmin & _).
  exists k'. split; [done|].
  pose proof (Hmin j Hav) as Hle. rewrite !Hu2 in Hle.
  rewrite (bool_decide_eq_false_2 (k = j)) in Hle by done.
  assert (Hk' : k' ∈ clients c ∧ k' ∉ failedKeys c2).
  { rewrite <- Hl in Hin. apply availableKeys_spec in Hin. by rewrite Hcl2 in Hin. }
  split_and!.
  - intros ->. rewrite bool_decide_eq_true_2 in Hle by done. lia.
  - by destruct Hk'.
  - destruct (bool_decide (k = k')); lia.
Qed.

End Rotation.

Section Init.

Import GeminiClient.

Lemma initializeFrom_spec (oks : list bool) :
  ∀ (index : nat) (c : Client),
    let c' := initializeFrom index oks c in
    (∀ i, i ∈ clients c' ↔ i ∈ clients c ∨ ∃ n, i = (index + n)%nat ∧ oks !! n = Some true)
    ∧ (∀ i, i ∈ failedKeys c' ↔
            i ∈ failedKeys c ∨ ∃ n, i = (index + n)%nat ∧ oks !! n = Some false)
    ∧ ((∀ i, usage c (Some i) = 0) → ∀ i, usage c' (Some i) = 0)
    ∧ cooldowns c' = cooldowns c.
Proof.
  induction oks as [|ok oks IH]; intros index c; cbn [initializeFrom].
  - cbv zeta. split_and!.
    + intros i. split; [by left|]. intros [?|(n & _ & Hn)]; [done|]. done.
    + intros i. split; [by left|]. intros [?|(n & _ & Hn)]; [done|]. done.
    + done.
    + done.
  - destruct (IH (S index) (initializeKey c index ok)) as (Hc & Hf & Hu & Hcd).
    cbv zeta in *. split_and!.
    + intros i. rewrite Hc. unfold initializeKey. destruct ok; simpl.
      * rewrite elem_of_app, list_elem_of_singleton. split.
        -- intros [[?| ->]|(n & -> & Hn)]; [by left| |].
           ++ right. exists 0%nat. split; [lia|done].
           ++ right. exists (S n). split; [lia|done].
        -- intros [?|(n & -> & Hn)]; [by left; left|].
           destruct n as [|n]; simpl in Hn.
           ++ left. right. lia.
           ++ right. exists n. split; [lia|done].
      * split.
        -- intros [?|(n & -> & Hn)]; [by left|].
           right. exists (S n). split; [lia|done].
        -- intros [?|(n & -> & Hn)]; [by left|].
           destruct n as [|n]; simpl in Hn; [done|].
           right. exists n. split; [lia|done].
    + intros i. rewrite Hf. unfold initializeKey. destruct ok; simpl.
      * split.
        -- intros [?|(n & -> & Hn)]; [by left|].
           right. exists (S n). split; [lia|done].
        -- intros [?|(n & -> & Hn)]; [by left|].
           destruct n as [|n]; simpl in Hn; [done|].
           right. exists n. split; [lia|done].
      * rewrite elem_of_union, elem_of_singleton. split.
        -- intros [[->|?]|(n & -> & Hn)]; [|by left|].
           ++ right. exists 0%nat. split; [lia|done].
           ++ right. exists (S n). split; [lia|done].
        -- intros [?|(n & -> & Hn)]; [by left; right|].
           destruct n as [|n]; simpl in Hn.
           ++ left. left. lia.
           ++ right. exists n. split; [lia|done].
    + intros Hzero. apply Hu. intros i. unfold initializeKey, usage. destruct ok; simpl.
      * destruct (decide (i = index)) as [->|Hne].
        -- by rewrite lookup_insert_eq.
        -- rewrite lookup_insert_ne by done. apply (Hzero i).
      * apply (Hzero i).
    + rewrite Hcd. unfold initializeKey. by destruct ok.
Qed.

(** X23: [initializeClients] makes a client of every key that initialises and
    puts every other key among the failed ones, with all usage counters at zero
    and no cooldown pending; it throws [No valid Gemini API keys found] exactly
    when no key initialises. *)
Theorem initializeClients_pool (oks : list bool) :
  match initializeClients oks with
  | inl e =>
      e = Error "No valid Gemini API keys found" ∧ ∀ i, oks !! i ≠ Some true
  | inr c =>
      (∀ i, i ∈ clients c ↔ oks !! i = Some true)
      ∧ (∀ i, i ∈ failedKeys c ↔ oks !! i = Some false)
      ∧ (∀ i, usage c (Some i) = 0)
      ∧ cooldowns c = []
      ∧ ∃ i, oks !! i = Some true
  end.
Proof.
  unfold initializeClients.
  destruct (initializeFrom_spec oks 0 emptyClient) as (Hc & Hf & Hu & Hcd).
  cbv zeta in *.
  assert (Hc' : ∀ i, i ∈ clients (initializeFrom 0 oks emptyClient) ↔ oks !! i = Some true).
  { intros i. rewrite Hc. simpl. split.
    - intros [Hin|(n & -> & Hn)]; [by apply elem_of_nil in Hin|done].
    - intros Hi. right. by exists i. }
  destruct (clients (initializeFrom 0 oks emptyClient)) as [|b l] eqn:Hcl; cbn [length Nat.eqb].
  - split; [done|]. intros i Hi. apply Hc' in Hi. by apply elem_of_nil in Hi.
  - split_and!.
    + intros i. rewrite Hcl. apply Hc'.
    + intros i. rewrite Hf. simpl. split.
      * intros [Hin|(n & -> & Hn)]; [by apply elem_of_empty in Hin|done].
      * intros Hi. right. by exists i.
    + by apply Hu.
    + by rewrite Hcd.
    + exists b. apply Hc'. apply list_elem_of_here.
Qed.

End Init.

(** ** Edges of the cap and of the files *)

Lemma slice_from {A} (n : Z) (l : list A) :
  0 ≤ n → slice n None l = drop (Z.to_nat n) l.
Proof.
  intros Hn. unfold slice, relIndex.
  destruct (Z.ltb_spec n 0) as [?|_]; [lia|].
  destruct (decide (n ≤ Z.of_nat (length l))) as [Hle|Hgt].
  - rewrite Z.min_l by lia. apply take_ge. rewrite length_drop. lia.
  - rewrite Z.min_r by lia. rewrite Nat2Z.id.
    rewrite (drop_ge l (Z.to_nat n)) by lia. rewrite drop_all. by rewrite take_nil.
Qed.

Section Edges.

Context `{!JsonCodec History, !Runtime, !Config}.

(** X24: with a cap [maxChatHistory] that is not positive, the update of
    [addMessage] drops, on every call, the first minus-cap entries of the old
    list followed by the new message: with the cap zero nothing is ever dropped,
    and with a negative cap and fewer stored entries than its absolute value the
    new message itself is not stored, although the call returns it. *)
Theorem addMessage_nonpositive_cap (now : Z) (senderId : string) (role content : Json)
    (metadata : Entry) (chatHistory chatHistory' : History) (message : Entry) :
  maxChatHistory ≤ 0 →
  JsonDatabase.addMessage_body now senderId role content metadata chatHistory
    = Some (chatHistory', message) →
  let old := default [] (chatHistory !! senderId) in
  message = JsonDatabase.newMessage now role content metadata
  ∧ chatHistory' !! senderId
    = Some (drop (Z.to_nat (- maxChatHistory)) (old ++ [message]))
  ∧ (maxChatHistory = 0 → chatHistory' !! senderId = Some (old ++ [message]))
  ∧ ((length old < Z.to_nat (- maxChatHistory))%nat → chatHistory' !! senderId = Some []).
Proof.
  intros Hmax Hbody old. unfold JsonDatabase.addMessage_body in Hbody.
  cbv zeta in Hbody. rewrite ensureSender_lookup in Hbody. fold old in Hbody.
  destruct (existsb _ _ && negb _); [discriminate|].
  destruct (Z.gtb_spec (Z.of_nat (length (old ++ [JsonDatabase.newMessage now role content metadata])))
              maxChatHistory) as [_|Hle].
  2:{ rewrite length_app in Hle. simpl in Hle. lia. }
  injection Hbody as <- <-. rewrite lookup_insert_eq.
  rewrite slice_from by lia.
  split_and!; [done|done| |].
  - intros ->. done.
  - intros Hlen. f_equal. apply drop_ge. rewrite length_app. simpl. lia.
Qed.

(** X25: when the history file holds text that does not parse, [addMessage],
    entered with the lock free and a positive cap, does not fail: once its write
    returns, the file holds a document with the one new message under the
    sender's key and nothing else, so that what the file held is lost; the call
    returns the message. *)
Theorem addMessage_replaces_unparsable_history (now : Z) (senderId : string)
    (role content : Json) (metadata : Entry) (s : string) (result : option Entry)
    (r r' : Repo) :
  lockMap r !! senderId = None →
  0 < maxChatHistory →
  disk r !! chatHistoryFile = Some (File s) →
  JSON_parse s = None →
  JsonDatabase.addMessage now senderId role content metadata r = (Returns result, r') →
  let message := JsonDatabase.newMessage now role content metadata in
  result = Some message
  ∧ disk r' !! chatHistoryFile
    = Some (File (JSON_stringify ({[ senderId := [message] ]} : History))).
Proof.
  intros HK Hmax Hfile Hparse. rewrite addMessage_run by done.
  assert (Hload : load chatHistoryFile (disk r) = (∅ : History)).
  { unfold load, readOutcome. by rewrite Hfile, Hparse. }
  unfold transact, addMessage_change. rewrite Hload.
  rewrite addMessage_body_eq by done. rewrite lookup_empty. simpl.
  rewrite lastn_all by (simpl; lia).
  rewrite insert_empty.
  destruct (FileUtils.writeJsonFile chatHistoryFile _ (disk r)) as [[[]|e|] d'] eqn:Hw;
    simpl; try discriminate.
  intros [= <- <-]. simpl. split; [done|].
  by apply (writeJsonFile_returns _ _ _ _ Hw).
Qed.

End Edges.

Section MemoryEdges.

Context `{!JsonCodec Memories, !Runtime}.

(** X26: when the memory file holds text that does not parse, [updateMemory],
    entered with the lock free, does not fail: once its write returns, the file
    holds a document with nothing but the returned profile under the user's key,
    and that profile is a fresh one in every category but the updated one and
    lastUpdated. *)
Theorem updateMemory_replaces_unparsable_memories (now : Z) (userId category : string)
    (data : Json) (merge : bool) (s : string) (profile : Profile) (r r' : Repo) :
  lockMap r !! userId = None →
  disk r !! MemoryManager.memoryFile = Some (File s) →
  JSON_parse s = None →
  MemoryManager.updateMemory now userId category data merge r = (Returns profile, r') →
  disk r' !! MemoryManager.memoryFile
    = Some (File (JSON_stringify ({[ userId := profile ]} : Memories)))
  ∧ ∀ other, other ≠ category → other ≠ "lastUpdated" →
      profile !! other = MemoryManager.createEmptyMemoryProfile now !! other.
Proof.
  intros HK Hfile Hparse Hrun.
  destruct (updateMemory_returns _ _ _ _ _ _ _ _ HK Hrun) as (Hp & Hdisk & _).
  cbv zeta in Hp, Hdisk.
  assert (Hload : load MemoryManager.memoryFile (disk r) = (∅ : Memories)).
  { unfold load, readOutcome. by rewrite Hfile, Hparse. }
  rewrite Hload in Hp, Hdisk.
  split.
  - rewrite Hdisk. do 3 f_equal. rewrite Hp.
    unfold MemoryManager.updateMemory_body. simpl. by rewrite insert_empty.
  - intros other H1 H2. rewrite Hp.
    unfold MemoryManager.updateMemory_body, MemoryManager.touch. simpl.
    rewrite lookup_insert_ne by done. rewrite lookup_insert_ne by done.
    unfold MemoryManager.profileOf. by rewrite lookup_empty.
Qed.

End MemoryEdges.

(** ** The rotation timer *)

Section RotationTimer.

Import GeminiClient.

Lemma rotateKeys_failed (t : Z) (c : Client) (k : nat) :
  k ∈ failedKeys (rotateKeys t c)
  ↔ k ∈ failedKeys c ∧ ∀ last, keyLastUsed c !! k = Some last → t - last ≤ 300000.
Proof.
  unfold rotateKeys. simpl. rewrite elem_of_difference, elem_of_list_to_set.
  rewrite list_elem_of_fmap. split.
  - intros [Hin Hnot]. split; [done|]. intros last Hlast.
    destruct (Z.ltb_spec 300000 (t - last)) as [Hlt|Hle]; [|lia].
    exfalso. apply Hnot. exists (k, last). split; [done|].
    apply list_elem_of_In, filter_In. split.
    + apply list_elem_of_In. by apply elem_of_map_to_list.
    + simpl. by apply Z.ltb_lt.
  - intros [Hin Hidle]. split; [done|]. intros ([k' last] & -> & Hmem).
    apply list_elem_of_In, filter_In in Hmem as [Hmem Hlt]. simpl in *.
    apply list_elem_of_In, elem_of_map_to_list in Hmem.
    apply Z.ltb_lt in Hlt. specialize (Hidle _ Hmem). lia.
Qed.

Lemma initializeFrom_lastUsed (oks : list bool) :
  ∀ (index : nat) (c : Client) (i : nat),
    (∀ n, i = (index + n)%nat → oks !! n ≠ Some true) →
    keyLastUsed (initializeFrom index oks c) !! i = keyLastUsed c !! i.
Proof.
  induction oks as [|ok oks IH]; intros index c i Hi; cbn [initializeFrom]; [done|].
  rewrite IH.
  - unfold initializeKey. destruct ok; simpl; [|done].
    apply lookup_insert_ne. intros ->. by apply (Hi 0%nat); [lia|].
  - intros n ->. apply (Hi (S n)). lia.
Qed.

(** X27: no key that was ever used stays failed for good: the rotation timer
    takes a key out of the failed ones as soon as more than five minutes have
    passed since it was last used or marked as failed, whatever the failure was,
    and leaves it failed until then.  A key without a time of last use is never
    released by the rotation; such are the keys that failed to initialise, which
    are not clients either.  The rotation changes neither the clients nor the
    usage counters nor the pending cooldowns. *)
Theorem rotation_releases_idle_keys (t : Z) (c : Client) (keyIndex : nat) :
  (∀ message now,
     keyIndex ∈ failedKeys (rotateKeys t (markKeyAsFailed keyIndex message now c))
     ↔ t - now ≤ 300000)
  ∧ (∀ started,
     keyIndex ∈ failedKeys (rotateKeys t (trackKeyUsage keyIndex started c))
     ↔ keyIndex ∈ failedKeys c ∧ t - started ≤ 300000)
  ∧ (keyLastUsed c !! keyIndex = None →
     (keyIndex ∈ failedKeys (rotateKeys t c) ↔ keyIndex ∈ failedKeys c))
  ∧ (∀ oks c0, initializeClients oks = inr c0 → oks !! keyIndex = Some false →
     keyIndex ∈ failedKeys (rotateKeys t c0) ∧ keyIndex ∉ clients c0)
  ∧ clients (rotateKeys t c) = clients c
  ∧ (∀ k, usage (rotateKeys t c) k = usage c k)
  ∧ cooldowns (rotateKeys t c) = cooldowns c.
Proof.
  split_and!; try done.
  - intros message now. rewrite rotateKeys_failed. simpl. split.
    + intros [_ H]. apply H. by rewrite lookup_insert_eq.
    + intros Hle. split; [set_solver|]. intros last. rewrite lookup_insert_eq.
      by intros [= <-].
  - intros started. rewrite rotateKeys_failed. simpl. split.
    + intros [Hin H]. split; [done|]. apply H. by rewrite lookup_insert_eq.
    + intros [Hin Hle]. split; [done|]. intros last. rewrite lookup_insert_eq.
      by intros [= <-].
  - intros Hnone. rewrite rotateKeys_failed. rewrite Hnone. split.
    + by intros [Hin _].
    + intros Hin. split; [done|]. intros last. discriminate.
  - intros oks c0 Hinit Hfalse. unfold initializeClients in Hinit. cbv zeta in Hinit.
    destruct (length (clients (initializeFrom 0 oks emptyClient)) =? 0)%nat;
      [discriminate|]. injection Hinit as <-.
    destruct (initializeFrom_spec oks 0%nat emptyClient) as (Hclients & Hfailed & _).
    cbv zeta in Hclients, Hfailed. split.
    + apply rotateKeys_failed. split.
      * apply Hfailed. right. exists keyIndex. split; [lia|done].
      * intros last. rewrite initializeFrom_lastUsed; [done|].
        intros n Hn. simpl in Hn. subst n. congruence.
    + rewrite Hclients. intros [Hin|(n & Hn & Htrue)]; [by apply elem_of_nil in Hin|].
      simpl in Hn. subst n. congruence.
Qed.

End RotationTimer.

(** ** Closed examples *)

(** On a full disk the directory of the data is missing and cannot be made:
    [ensureDir] throws what [fs.mkdir] rejected with. *)
Lemma ensureDir_keeps_what_exists_witness :
  @FileUtils.ensureDir World.diskFull "data" ∅ = (Throws (FsError ENOSPC), ∅)
  ∧ (fs.access "data" (∅ : FS)).1 = Throws (FsError ENOENT)
  ∧ (@fs.mkdir World.diskFull "data" ∅).1 = Throws (FsError ENOSPC).
Proof.
  assert (Hrun : @FileUtils.ensureDir World.diskFull "data" ∅
                 = (Throws (FsError ENOSPC), ∅)) by reflexivity.
  split; [exact Hrun|].
  pose proof (@ensureDir_keeps_what_exists World.diskFull "data" ∅) as Hthrown.
  rewrite Hrun in Hthrown.
  destruct Hthrown as (_ & _ & [[Haccess _]|[Haccess Hmkdir]]).
  - discriminate Haccess.
  - split; [exact Haccess|exact Hmkdir].
Defined.

(** The rejection reaches the caller of an operation that writes, which
    leaves the disk and the lock map as they were. *)
Example full_disk_reaches_the_caller :
  @JsonDatabase.addMessage Node.history World.diskFull Sample.config 1000 "alice"
    (JStr "user") (JStr "hi") ∅ Sample.emptyRepo
  = (Throws (FsError ENOSPC), Sample.emptyRepo).
Proof. reflexivity. Qed.

(** A directory stands where the history file should be: the rename fails with
    EISDIR and the path is as before. *)
Lemma writeJsonFile_failure_keeps_file_witness :
  @dirname Node.runtime "data/chat_history.json" ≠ "data/chat_history.json"
  ∧ @FileUtils.writeJsonFile _ Node.history Node.runtime
      "data/chat_history.json" Sample.aliceSaidHi World.directoryInTheWay
    = (Throws (FsError EISDIR),
       <["data/chat_history.json.tmp" := File (@JSON_stringify _ Node.history Sample.aliceSaidHi)]>
         World.directoryInTheWay)
  ∧ (<["data/chat_history.json.tmp" := File (@JSON_stringify _ Node.history Sample.aliceSaidHi)]>
       World.directoryInTheWay : FS) !! "data/chat_history.json"
    = World.directoryInTheWay !! "data/chat_history.json".
Proof.
  assert (Hd : @dirname Node.runtime "data/chat_history.json" ≠ "data/chat_history.json")
    by (vm_compute; discriminate).
  assert (Hw : @FileUtils.writeJsonFile _ Node.history Node.runtime
      "data/chat_history.json" Sample.aliceSaidHi World.directoryInTheWay
    = (Throws (FsError EISDIR),
       <["data/chat_history.json.tmp" := File (@JSON_stringify _ Node.history Sample.aliceSaidHi)]>
         World.directoryInTheWay)) by reflexivity.
  split; [exact Hd|]. split; [exact Hw|].
  exact (proj1 (@writeJsonFile_failure_keeps_file _ Node.history Node.runtime
                  "data/chat_history.json" Sample.aliceSaidHi World.directoryInTheWay _ _ Hd Hw)).
Defined.

(** A first write next to a file of notes: the document is at the path, no
    temporary file is left, the notes are kept. *)
Lemma writeJsonFile_footprint_witness :
  ∃ d', @FileUtils.writeJsonFile _ Node.history Node.runtime
          "data/chat_history.json" Sample.aliceSaidHi World.notes = (Returns tt, d')
    ∧ d' !! "data/chat_history.json"
      = Some (File (@JSON_stringify _ Node.history Sample.aliceSaidHi))
    ∧ d' !! "data/chat_history.json.tmp" = None
    ∧ d' !! "notes.txt" = Some (File "keep").
Proof.
  eexists. 
  assert (Hw : @FileUtils.writeJsonFile _ Node.history Node.runtime
          "data/chat_history.json" Sample.aliceSaidHi World.notes
          = (Returns tt, (@FileUtils.writeJsonFile _ Node.history Node.runtime
          "data/chat_history.json" Sample.aliceSaidHi World.notes).2)) by reflexivity.
  split; [exact Hw|].
  destruct (@writeJsonFile_footprint _ Node.history Node.runtime
              "data/chat_history.json" Sample.aliceSaidHi World.notes _ Hw)
    as (Hfile & Htmp & _ & Hrest).
  split; [exact Hfile|]. split; [exact Htmp|].
  exact (Hrest "notes.txt" (File "keep") ltac:(discriminate) ltac:(discriminate) eq_refl).
Defined.

(** Alice and Bob have a line each; Alice is cleared. *)
Lemma clearMessagesForSender_then_get_witness :
  ∃ r', @JsonDatabase.clearMessagesForSender Node.history Node.runtime Sample.config
          "alice" (World.holdingHistory Sample.both) = (Returns tt, r')
    ∧ @JsonDatabase.getMessagesForSender Node.history Sample.config "alice" (disk r')
      = (Returns [], disk r').
Proof.
  eexists.
  assert (Hrun : @JsonDatabase.clearMessagesForSender Node.history Node.runtime Sample.config
          "alice" (World.holdingHistory Sample.both)
        = (Returns tt, (@JsonDatabase.clearMessagesForSender Node.history Node.runtime Sample.config
          "alice" (World.holdingHistory Sample.both)).2)) by reflexivity.
  split; [exact Hrun|].
  refine (proj1 (@clearMessagesForSender_then_get Node.history Node.runtime Sample.config
                   "alice" (World.holdingHistory Sample.both) _ eq_refl _ Hrun)).
  reflexivity.
Defined.

(** Alice has a line and ten moods; an eleventh mood is stored. *)
Lemma storeEmotionalContext_keeps_ten_witness :
  let stored :=
    default [] (@JsonDatabase.storeEmotionalContext_body Node.runtime 11 "alice" (JStr "tired")
                  World.aliceWithMoods !! "alice") in
  (length (List.filter JsonDatabase.isEmotional stored) ≤ 10)%nat
  ∧ sublist stored
      (Sample.hi :: World.tenMoods
       ++ [@JsonDatabase.newEmotionalEntry Node.runtime 11 (JStr "tired")]).
Proof.
  intros stored.
  assert (Hids : ∀ msg, msg ∈ default [] (World.aliceWithMoods !! "alice") →
            JsonDatabase.isEmotional msg = true → primitive (msg !! "id") = true).
  { intros msg Hin _.
    apply (proj1 (forallb_forall (λ m : Entry, primitive (m !! "id"))
                    (default [] (World.aliceWithMoods !! "alice"))));
      [reflexivity|by apply list_elem_of_In]. }
  destruct (@storeEmotionalContext_keeps_ten Node.runtime 11 "alice" (JStr "tired")
              World.aliceWithMoods Hids) as (Hten & Hsub & _).
  split; [exact Hten|exact Hsub].
Defined.

(** Alice knows Bob; BOB is stored with another number and takes his place. *)
Lemma storeContact_keeps_names_unique_witness :
  ∃ chatHistory' contactInfo,
    @JsonDatabase.storeContact_body Node.runtime 4000 "alice" "BOB" (JStr "0719876543")
      (JStr "brother") World.aliceKnowsBob = inr (chatHistory', contactInfo)
    ∧ NoDup (omap (@contactKey Node.runtime) (default [] (chatHistory' !! "alice")))
    ∧ length (default [] (chatHistory' !! "alice")) = 2%nat.
Proof.
  eexists _, _.
  assert (Hbody : @JsonDatabase.storeContact_body Node.runtime 4000 "alice" "BOB"
            (JStr "0719876543") (JStr "brother") World.aliceKnowsBob
          = inr (<["alice" := [Sample.hi;
                   @JsonDatabase.newContact Node.runtime 4000 "BOB" (JStr "0719876543")
                     (JStr "brother")]]> World.aliceKnowsBob,
                 @JsonDatabase.newContact Node.runtime 4000 "BOB" (JStr "0719876543")
                     (JStr "brother"))) by reflexivity.
  split; [exact Hbody|].
  destruct (@storeContact_keeps_names_unique Node.runtime 4000 "alice" "BOB"
              (JStr "0719876543") (JStr "brother") World.aliceKnowsBob _ _ Hbody)
    as (Hnodup & _ & _ & _ & Hlen & _).
  split.
  - apply Hnodup. vm_compute. apply NoDup_singleton.
  - rewrite Hlen; [reflexivity|]. vm_compute. apply list_elem_of_here.
Defined.

(** Bob is stored on an empty disk and found as BOB. *)
Lemma findContact_after_storeContact_witness :
  ∃ contactInfo r',
    @JsonDatabase.storeContact Node.history Node.runtime Sample.config 3000 "alice" "Bob"
      (JStr "0771234567") (JStr "friend") Sample.emptyRepo = (Returns contactInfo, r')
    ∧ @JsonDatabase.findContact Node.history Node.runtime Sample.config "alice" "BOB" (disk r')
      = (Returns (JsonDatabase.Contact contactInfo), disk r').
Proof.
  eexists _, _.
  assert (Hrun : @JsonDatabase.storeContact Node.history Node.runtime Sample.config 3000
            "alice" "Bob" (JStr "0771234567") (JStr "friend") Sample.emptyRepo
          = (Returns World.bob,
             (@JsonDatabase.storeContact Node.history Node.runtime Sample.config 3000
                "alice" "Bob" (JStr "0771234567") (JStr "friend") Sample.emptyRepo).2))
    by reflexivity.
  split; [exact Hrun|].
  refine (proj1 (@findContact_after_storeContact Node.history Node.runtime Sample.config
                   3000 "alice" "Bob" "BOB" (JStr "0771234567") (JStr "friend") World.bob
                   Sample.emptyRepo _ eq_refl _ Hrun eq_refl)).
  intros chatHistory' Hbody.
  assert (Hvalue : @JsonDatabase.storeContact_body Node.runtime 3000 "alice" "Bob"
            (JStr "0771234567") (JStr "friend")
            (@load _ Node.history (@chatHistoryFile Sample.config) (disk Sample.emptyRepo))
          = inr ({[ "alice" := [World.bob] ]}, World.bob)) by reflexivity.
  rewrite Hvalue in Hbody. injection Hbody as <-. reflexivity.
Defined.

(** Bob is the only entry of Alice; under a cap of two, three messages push him
    out. *)
Lemma contacts_evicted_by_messages_witness :
  Forall (λ call : Z * Json * Json * Entry, JsonDatabase.isContact call.2 = false) threeCalls
  ∧ @JsonDatabase.getContacts Node.history capTwo "alice"
      (disk (World.holdingHistory
               (@addMessages Node.runtime capTwo "alice" threeCalls {[ "alice" := [World.bob] ]}).1))
    = (Returns [],
       disk (World.holdingHistory
               (@addMessages Node.runtime capTwo "alice" threeCalls {[ "alice" := [World.bob] ]}).1)).
Proof.
  assert (Hcalls : Forall (λ call : Z * Json * Json * Entry,
                             JsonDatabase.isContact call.2 = false) threeCalls)
    by (repeat constructor).
  split; [exact Hcalls|].
  refine (proj1 (@contacts_evicted_by_messages Node.history Node.runtime capTwo "alice"
                   threeCalls {[ "alice" := [World.bob] ]} _ _ Hcalls _ _)).
  - reflexivity.
  - vm_compute. lia.
  - reflexivity.
Defined.

(** Under a cap of minus two, a second message for Alice empties her list. *)
Lemma addMessage_nonpositive_cap_witness :
  ∃ chatHistory' message,
    @JsonDatabase.addMessage_body Node.runtime World.minusTwo 2000 "alice" (JStr "user") (JStr "yo") ∅
      Sample.aliceSaidHi = Some (chatHistory', message)
    ∧ chatHistory' !! "alice" = Some [].
Proof.
  eexists _, _.
  assert (Hbody : @JsonDatabase.addMessage_body Node.runtime World.minusTwo 2000 "alice"
            (JStr "user") (JStr "yo") ∅ Sample.aliceSaidHi
          = Some ({[ "alice" := [] ]}, Sample.yo)) by reflexivity.
  split; [exact Hbody|].
  destruct (@addMessage_nonpositive_cap Node.runtime World.minusTwo 2000 "alice" (JStr "user")
              (JStr "yo") ∅ Sample.aliceSaidHi _ _ ltac:(vm_compute; discriminate) Hbody)
    as (_ & _ & _ & Hlost).
  apply Hlost. vm_compute. lia.
Defined.

(** The history file was cut short; Alice's first line replaces it. *)
Lemma addMessage_replaces_unparsable_history_witness :
  ∃ r', @JsonDatabase.addMessage Node.history Node.runtime Sample.config 1000 "alice"
          (JStr "user") (JStr "hi") ∅ World.cutShort = (Returns (Some Sample.hi), r')
    ∧ disk r' !! "data/chat_history.json"
      = Some (File (@JSON_stringify _ Node.history Sample.aliceSaidHi)).
Proof.
  eexists.
  assert (Hrun : @JsonDatabase.addMessage Node.history Node.runtime Sample.config 1000 "alice"
            (JStr "user") (JStr "hi") ∅ World.cutShort
          = (Returns (Some Sample.hi),
             (@JsonDatabase.addMessage Node.history Node.runtime Sample.config 1000 "alice"
                (JStr "user") (JStr "hi") ∅ World.cutShort).2)) by reflexivity.
  split; [exact Hrun|].
  exact (proj2 (@addMessage_replaces_unparsable_history Node.history Node.runtime
                  Sample.config 1000 "alice" (JStr "user") (JStr "hi") ∅ "{ alice: [" _
                  World.cutShort _ eq_refl eq_refl eq_refl eq_refl Hrun)).
Defined.


(** Alice's name is stored on an empty disk and read back. *)
Lemma updateMemory_then_getUserMemory_witness :
  ∃ profile r',
    @MemoryManager.updateMemory Node.memories Node.runtime 1000 "alice" "personalInfo"
      (JObj World.ann) true Sample.emptyRepo = (Returns profile, r')
    ∧ @MemoryManager.getUserMemory Node.memories Node.runtime 2000 "alice" (disk r')
      = (Returns profile, disk r').
Proof.
  eexists _, _.
  assert (Hrun : @MemoryManager.updateMemory Node.memories Node.runtime 1000 "alice"
            "personalInfo" (JObj World.ann) true Sample.emptyRepo
          = (Returns (@MemoryManager.updateMemory_body Node.runtime 1000 "alice" "personalInfo"
                        (JObj World.ann) true ∅).2,
             (@MemoryManager.updateMemory Node.memories Node.runtime 1000 "alice"
                "personalInfo" (JObj World.ann) true Sample.emptyRepo).2)) by reflexivity.
  split; [exact Hrun|].
  exact (proj1 (@updateMemory_then_getUserMemory Node.memories Node.runtime 1000 2000 "alice"
                  "personalInfo" (JObj World.ann) true _ Sample.emptyRepo _
                  eq_refl eq_refl Hrun)).
Defined.








(** The memory file was cut short; Alice's profile replaces it. *)
Lemma updateMemory_replaces_unparsable_memories_witness :
  @JSON_parse _ Node.memories "{ alice: {" = None
  ∧ ∃ profile r',
    @MemoryManager.updateMemory Node.memories Node.runtime 1000 "alice" "personalInfo"
      (JObj World.ann) true World.memoriesCutShort = (Returns profile, r')
    ∧ disk r' !! "data/user_memories.json"
      = Some (File (@JSON_stringify _ Node.memories {[ "alice" := profile ]})).
Proof.
  split; [reflexivity|].
  pose (run := @MemoryManager.updateMemory Node.memories Node.runtime 1000 "alice"
                 "personalInfo" (JObj World.ann) true World.memoriesCutShort).
  assert (Hrun : run = (Returns (returned ∅ run.1), run.2)) by reflexivity.
  exists (returned ∅ run.1), run.2. split; [exact Hrun|].
  exact (proj1 (@updateMemory_replaces_unparsable_memories Node.memories Node.runtime 1000
                  "alice" "personalInfo" (JObj World.ann) true "{ alice: {" _
                  World.memoriesCutShort _ eq_refl eq_refl eq_refl Hrun)).
Defined.

(** Two fresh keys: after a failure on the first, the second is picked. *)
Lemma retry_moves_to_another_key_witness :
  GeminiClient.getNextKeyIndex twoKeys = (Some 0%nat, twoKeys)
  ∧ ∃ k', (GeminiClient.getNextKeyIndex
             (GeminiClient.markKeyAsFailed 0 "quota exceeded" 1500
                (GeminiClient.trackKeyUsage 0 1000 twoKeys))).1 = Some k'
          ∧ k' ≠ 0%nat.
Proof.
  assert (Hnext : GeminiClient.getNextKeyIndex twoKeys = (Some 0%nat, twoKeys)) by reflexivity.
  split; [exact Hnext|].
  destruct (retry_moves_to_another_key twoKeys twoKeys 0 1 1000 1500 "quota exceeded" true Hnext)
    as (k' & Hk' & Hne & _).
  - vm_compute. set_solver.
  - discriminate.
  - vm_compute. set_solver.
  - vm_compute. discriminate.
  - exists k'. split; [exact Hk'|exact Hne].
Defined.

(** A key that ran into the quota at second 5 is back at second 65. *)
Lemma cooldown_restores_quota_keys_witness :
  GeminiClient.isQuotaMessage "quota exceeded" = true
  ∧ (0 : nat) ∈ failedKeys (GeminiClient.markKeyAsFailed 0 "quota exceeded" 5000 twoKeys)
  ∧ (0 : nat) ∉ failedKeys
          (GeminiClient.fireCooldowns 65000
             (GeminiClient.markKeyAsFailed 0 "quota exceeded" 5000 twoKeys)).
Proof.
  split; [reflexivity|].
  destruct (cooldown_restores_quota_keys 0 "quota exceeded" 5000 65000 twoKeys)
    as (Hin & Hout & _).
  split; [exact Hin|]. apply Hout; [reflexivity|lia].
Defined.
